(** * Dataset bookkeeping of torchreid/data/datasets/dataset.py

    A shallow embedding of the identity/camera indexing, the train/query/
    gallery combination, the addition of datasets and the tracklet frame
    sampling of [Dataset], [ImageDataset] and [VideoDataset], together with
    the properties the specification states about them. *)

From stdpp Require Import base gmap sets list strings sorting.
From Stdlib Require Import ZArith Lia.

#[export] Set Warnings "-clear-no-such-hyp".

Local Open Scope Z_scope.

(** ** Exceptions and results *)

(** The exceptions the modelled code can raise.  [ValueError] carries the
    message, which tells the two [raise ValueError(...)] statements of the
    source apart from each other. *)
Inductive exn :=
| ValueError (msg : string)
| RuntimeError (msg : string)
| KeyError
| IndexError
| TypeError
| AttributeError
| AssertionError
| ZeroDivisionError.

Inductive result (A : Type) :=
| Ok (a : A)
| Raise (e : exn).
Arguments Ok {A} a.
Arguments Raise {A} e.

(** [result] is an error monad; sequencing uses the notation
    [x ← c; k] of stdpp. *)
Global Instance result_ret : MRet result := λ A a, Ok a.

Global Instance result_bind : MBind result := λ A B k c,
  match c with
  | Ok a => k a
  | Raise e => Raise e
  end.

(** [d[k]] on a plain [dict]: a missing key raises [KeyError]. *)
Definition getitem {V} (m : gmap Z V) (k : Z) : result V :=
  match m !! k with
  | Some v => Ok v
  | None => Raise KeyError
  end.

(** ** Records *)

(** The first field of a record: one path (image) or a sequence of paths
    (tracklet). *)
Inductive media :=
| Image (path : string)
| Tracklet (paths : list string).

(** Remaining items of a tuple record and additional entries of a dict
    record. *)
Inductive value :=
| VInt (z : Z)
| VStr (s : string).

(** A record is a tuple [(img_path(s), pid, camid, ...)] or a dict with the
    keys ['img_path'], ['obj_id'], ['cam_id'], ['dataset_id'] and further
    entries. *)
Inductive record :=
| Tuple (img : media) (pid camid : Z) (rest : list value)
| Dict (img_path : media) (obj_id cam_id dataset_id : Z)
       (others : list (string * value)).

(** [isinstance(record, dict)] *)
Definition is_dict (r : record) : bool :=
  match r with
  | Dict _ _ _ _ _ => true
  | Tuple _ _ _ _ => false
  end.

(** [record['obj_id'] if isinstance(record, dict) else record[1]] *)
Definition rec_obj_id (r : record) : Z :=
  match r with
  | Dict _ o _ _ _ => o
  | Tuple _ p _ _ => p
  end.

(** [record['cam_id'] if isinstance(record, dict) else record[2]] *)
Definition rec_cam_id (r : record) : Z :=
  match r with
  | Dict _ _ c _ _ => c
  | Tuple _ _ c _ => c
  end.

(** [record['dataset_id'] if isinstance(record, dict) else 0] *)
Definition rec_dataset_id (r : record) : Z :=
  match r with
  | Dict _ _ _ d _ => d
  | Tuple _ _ _ _ => 0
  end.

(** [record['img_path'] if isinstance(record, dict) else record[0]] *)
Definition rec_media (r : record) : media :=
  match r with
  | Dict m _ _ _ _ => m
  | Tuple m _ _ _ => m
  end.

(** The record with its identity field replaced. *)
Definition with_obj_id (o : Z) (r : record) : record :=
  match r with
  | Dict m _ c d ex => Dict m o c d ex
  | Tuple m _ c rest => Tuple m o c rest
  end.

(** The tuple the classification loaders append:
    [(full_image_path, label, 0, dataset_id, '', -1, -1)]. *)
Definition classification_record (path : string) (label dataset_id : Z)
  : record :=
  Tuple (Image path) label 0 [VInt dataset_id; VStr ""; VInt (-1); VInt (-1)].

(** ** The identity indexer *)

(** [m[k].add(x)] on a [defaultdict(set)]. *)
Definition set_add (k x : Z) (m : gmap Z (gset Z)) : gmap Z (gset Z) :=
  <[k := default ∅ (m !! k) ∪ {[x]}]> m.

(** The loop of [parse_data], on the pair [(pids, cams)]. *)
Definition parse_step (acc : gmap Z (gset Z) * gmap Z (gset Z)) (r : record)
  : gmap Z (gset Z) * gmap Z (gset Z) :=
  (set_add (rec_dataset_id r) (rec_obj_id r) acc.1,
   set_add (rec_dataset_id r) (rec_cam_id r) acc.2).

Definition parse_sets (data : list record)
  : gmap Z (gset Z) * gmap Z (gset Z) :=
  foldl parse_step (∅, ∅) data.

Definition parse_data (data : list record) : gmap Z nat * gmap Z nat :=
  let acc := parse_sets data in
  (size <$> acc.1, size <$> acc.2).

Definition get_num_pids (data : list record) : gmap Z nat :=
  (parse_data data).1.

Definition get_num_cams (data : list record) : gmap Z nat :=
  (parse_data data).2.

(** [counts[dataset_id][obj_id] += 1], the inner dict being a
    [defaultdict(int)] created on first use. *)
Definition count_step (counts : gmap Z (gmap Z nat)) (r : record)
  : gmap Z (gmap Z nat) :=
  let inner := default ∅ (counts !! rec_dataset_id r) in
  <[rec_dataset_id r :=
      <[rec_obj_id r := S (default 0%nat (inner !! rec_obj_id r))]> inner]>
    counts.

Definition get_data_counts (data : list record) : gmap Z (gmap Z nat) :=
  foldl count_step ∅ data.

(** The identities (with [f := rec_obj_id]) or cameras (with
    [f := rec_cam_id]) of the records of a split keyed under [d]. *)
Definition ids_of (f : record → Z) (d : Z) (data : list record) : gset Z :=
  list_to_set (f <$> filter (λ r, rec_dataset_id r = d) data).

(** ** Combination of train, query and gallery *)

(** [obj_id in junk_obj_ids] *)
Definition is_junk (junk : list Z) (o : Z) : bool := bool_decide (o ∈ junk).

(** The loop of [_get_obj_ids]: junk identities are skipped. *)
Definition obj_ids_step (junk : list Z) (acc : gmap Z (gset Z)) (r : record)
  : gmap Z (gset Z) :=
  if is_junk junk (rec_obj_id r) then acc
  else set_add (rec_dataset_id r) (rec_obj_id r) acc.

Definition get_obj_ids (data : list record) (junk : list Z)
    (obj_ids : gmap Z (gset Z)) : gmap Z (gset Z) :=
  foldl (obj_ids_step junk) obj_ids data.

(** [{obj_id: i for i, obj_id in enumerate(l)}] *)
Definition label_map (l : list Z) : gmap Z nat :=
  foldl (λ m p, <[p.2 := p.1]> m) ∅ (imap pair l).

(** [isinstance(data[0], dict)]; only evaluated inside the loop over [data],
    where [data] is not empty. *)
Definition first_is_dict (data : list record) : bool :=
  match data with
  | r :: _ => is_dict r
  | [] => false
  end.

(** The two branches that build [out_record] in [_relabel].  The branch is
    chosen by the shape of the first record of the split: item assignment on
    a tuple, and slicing a dict, raise [TypeError]. *)
Definition relabel_record (dict_branch : bool) (o : Z) (r : record)
  : result record :=
  match dict_branch, r with
  | true, Dict m _ c d ex => Ok (Dict m o c d ex)
  | true, Tuple _ _ _ _ => Raise TypeError
  | false, Tuple m _ c rest => Ok (Tuple m o c rest)
  | false, Dict _ _ _ _ _ => Raise TypeError
  end.

(** The loop of [_relabel]. *)
Fixpoint relabel_loop (dict_branch : bool) (junk : list Z)
    (id2label_map : gmap Z (gmap Z nat)) (num_train_ids : gmap Z nat)
    (data : list record) : result (list record) :=
  match data with
  | [] => Ok []
  | r :: data' =>
    if is_junk junk (rec_obj_id r) then
      relabel_loop dict_branch junk id2label_map num_train_ids data'
    else
      labels ← getitem id2label_map (rec_dataset_id r);
      label ← getitem labels (rec_obj_id r);
      n ← getitem num_train_ids (rec_dataset_id r);
      out_record ← relabel_record dict_branch (Z.of_nat label + Z.of_nat n) r;
      out_data ← relabel_loop dict_branch junk id2label_map num_train_ids data';
      Ok (out_record :: out_data)
  end.

Definition relabel (data : list record) (junk : list Z)
    (id2label_map : gmap Z (gmap Z nat)) (num_train_ids : gmap Z nat)
  : result (list record) :=
  relabel_loop (first_is_dict data) junk id2label_map num_train_ids data.

(** ** Datasets *)

(** The transform is a callable the bookkeeping only tests against [None]. *)
Inductive transform_fn := TransformFn (name : string).

(** The class of a dataset object; a [VideoDataset] has the attributes
    [seq_len] and [sample_method]. *)
Inductive ds_class :=
| BaseDataset
| ImageDataset
| VideoDataset (seq_len : nat) (sample_method : string).

Record dataset := MkDataset {
  cls : ds_class;
  junk_pids : list Z;
  train : list record;
  query : list record;
  gallery : list record;
  transform : option transform_fn;
  mode : string;
  combineall : bool;
  verbose : bool;
  num_train_pids : gmap Z nat;
  num_train_cams : gmap Z nat;
  data_counts : gmap Z (gmap Z nat);
  data : list record
}.

Section combination.

(** The order in which [enumerate(set(dataset_ids))] visits the identities
    collected for a dataset id.  The order of iteration of a Python set is
    fixed by the interpreter, not by this program. *)
Variable set_iter : Z → gset Z → list Z.

(** [id2label_map], one dense labelling per dataset id. *)
Definition make_id2label_map (new_obj_ids : gmap Z (gset Z))
  : gmap Z (gmap Z nat) :=
  map_imap (λ d s, Some (label_map (set_iter d s))) new_obj_ids.

(** The body of [combine_all], on the attributes it reads; it returns the
    new values of [self.train] and [self.num_train_pids]. *)
Definition combine_splits (junk : list Z) (train query gallery : list record)
    (num_train_pids : gmap Z nat) : result (list record * gmap Z nat) :=
  let combined := train in
  let new_obj_ids := get_obj_ids query junk ∅ in
  let new_obj_ids := get_obj_ids gallery junk new_obj_ids in
  let id2label_map := make_id2label_map new_obj_ids in
  from_query ← relabel query junk id2label_map num_train_pids;
  let combined := combined ++ from_query in
  from_gallery ← relabel gallery junk id2label_map num_train_pids;
  let combined := combined ++ from_gallery in
  Ok (combined, get_num_pids combined).

Definition combine_all (d : dataset) : result dataset :=
  '(combined, pids) ← combine_splits (junk_pids d) (train d) (query d)
                         (gallery d) (num_train_pids d);
  Ok {| cls := cls d; junk_pids := junk_pids d; train := combined;
        query := query d; gallery := gallery d; transform := transform d;
        mode := mode d; combineall := combineall d; verbose := verbose d;
        num_train_pids := pids; num_train_cams := num_train_cams d;
        data_counts := data_counts d; data := data d |}.

(** The dispatch on [self.mode] at the end of [Dataset.__init__]. *)
Definition invalid_mode_msg (mode : string) : string :=
  "Invalid mode. Got " +:+ mode
  +:+ ", but expected to be one of [train | query | gallery]".

Definition select_data (mode : string) (train query gallery : list record)
  : result (list record) :=
  if decide (mode = "train") then Ok train
  else if decide (mode = "query") then Ok query
  else if decide (mode = "gallery") then Ok gallery
  else Raise (ValueError (invalid_mode_msg mode)).

(** [show_summary]: nothing in the base class, prints in [ImageDataset]; in
    [VideoDataset] it formats the dicts returned by [parse_data] with
    [{:5d}], which raises [TypeError]. *)
Definition show_summary (c : ds_class) : result unit :=
  match c with
  | VideoDataset _ _ => Raise TypeError
  | _ => Ok ()
  end.

(** The object [self] of [Dataset.__init__] after its attribute assignments
    and before [combine_all] is called: the indices are those of the train
    split passed to the constructor, and [data] is not set yet. *)
Definition init_self (c : ds_class) (junk : list Z)
    (train0 query0 gallery0 : list record) (transform0 : option transform_fn)
    (mode0 : string) (combineall0 verbose0 : bool) : dataset :=
  {| cls := c; junk_pids := junk; train := train0; query := query0;
     gallery := gallery0; transform := transform0; mode := mode0;
     combineall := combineall0; verbose := verbose0;
     num_train_pids := get_num_pids train0;
     num_train_cams := get_num_cams train0;
     data_counts := get_data_counts train0; data := [] |}.

(** [Dataset.__init__], for an object of class [c] whose class attribute
    [_junk_pids] is [junk]. *)
Definition dataset_init (c : ds_class) (junk : list Z)
    (train0 query0 gallery0 : list record) (transform0 : option transform_fn)
    (mode0 : string) (combineall0 verbose0 : bool) : result dataset :=
  let self := init_self c junk train0 query0 gallery0 transform0 mode0
                combineall0 verbose0 in
  self ← (if combineall0 then combine_all self else Ok self);
  selected ← select_data mode0 (train self) (query self) (gallery self);
  _ ← (if verbose0 then show_summary c else Ok ());
  Ok {| cls := c; junk_pids := junk; train := train self;
        query := query self; gallery := gallery self;
        transform := transform0; mode := mode0; combineall := combineall0;
        verbose := verbose0; num_train_pids := num_train_pids self;
        num_train_cams := num_train_cams self;
        data_counts := data_counts self; data := selected |}.

Definition image_dataset_init := dataset_init ImageDataset.

(** [VideoDataset.__init__] *)
Definition video_dataset_init (junk : list Z)
    (train query gallery : list record) (seq_len : nat)
    (sample_method : string) (transform : option transform_fn)
    (mode : string) (combineall verbose : bool) : result dataset :=
  self ← dataset_init (VideoDataset seq_len sample_method) junk train query
            gallery transform mode combineall verbose;
  match transform with
  | None => Raise (RuntimeError "transform must not be None")
  | Some _ => Ok self
  end.

(** ** Addition of datasets *)

(** One iteration of the loop of [__add__]: the record appended to
    [updated_train]. *)
Definition add_record (a : dataset) (r : record) : record :=
  let dataset_id := rec_dataset_id r in
  let pids := default 0%nat (num_train_pids a !! dataset_id) in
  let new_obj_id := rec_obj_id r + Z.of_nat pids in
  let cams := default 0%nat (num_train_cams a !! dataset_id) in
  let new_cam_id := rec_cam_id r + Z.of_nat cams in
  match r with
  | Dict m _ _ d ex => Dict m new_obj_id new_cam_id d ex
  | Tuple m _ _ rest => Tuple m new_obj_id new_cam_id rest
  end.

(** The values of the records of [updated_train] after the loop, when no
    dict object is listed twice in [other.train]; the list itself, whose dict
    records are objects that the loop assigns in place, is computed by
    [add_train_st] below. *)
Definition updated_train (a b : dataset) : list record :=
  train a ++ (add_record a <$> train b).

(** [__add__] on the values of the records: the class of the result is
    chosen by the first field of [updated_train[0]]; the new object is a
    plain [ImageDataset] or [VideoDataset], whose [_junk_pids] is the empty
    list of the base class.  [add_st] below is [__add__] on the store. *)
Definition add (a b : dataset) : result dataset :=
  match updated_train a b with
  | [] => Raise IndexError
  | first :: _ =>
    match rec_media first with
    | Image _ =>
      image_dataset_init [] (updated_train a b) (query a) (gallery a)
        (transform a) (mode a) false false
    | Tracklet _ =>
      match cls a with
      | VideoDataset seq_len sample_method =>
        video_dataset_init [] (updated_train a b) (query a) (gallery a)
          seq_len sample_method (transform a) (mode a) false false
      | _ => Raise AttributeError
      end
    end
  end.

End combination.

(** A set iteration order is valid when it visits every element of the set
    exactly once. *)
Definition valid_iter (set_iter : Z → gset Z → list Z) : Prop :=
  ∀ d s, set_iter d s ≡ₚ elements s.

(** Ascending order: the order in which CPython visits a set of small
    non-negative integers that fit its hash table without collision. *)
Definition ascending_iter (d : Z) (s : gset Z) : list Z :=
  merge_sort Z.le (elements s).

(** ** Sampling the frames of a tracklet *)

(** [np.arange(n)] *)
Definition arange (n : nat) : list Z := Z.of_nat <$> seq 0 n.

(** [np.arange(start, stop, step)] for a positive step: the values
    [start + i * step] for [i] below [ceil((stop - start) / step)]. *)
Definition arange3 (start stop step : Z) : list Z :=
  (λ i, start + Z.of_nat i * step)
    <$> seq 0 (Z.to_nat ((stop - start + step - 1) / step)).

(** The ['evenly'] branch of [VideoDataset.__getitem__].  [num_imgs] has been
    truncated to a multiple of [seq_len] when the step [num_imgs / seq_len]
    is taken, so the true division of the source is exact and the floats of
    the resulting array are the integers modelled here. *)
Definition sample_evenly (num_imgs seq_len : nat) : result (list Z) :=
  indices ←
    (if decide (seq_len ≤ num_imgs)%nat then
       if decide (seq_len = 0%nat) then Raise ZeroDivisionError
       else
         let num_imgs' :=
           Z.of_nat num_imgs - Z.of_nat num_imgs `mod` Z.of_nat seq_len in
         Ok (arange3 0 num_imgs' (num_imgs' / Z.of_nat seq_len))
     else
       let num_pads := (seq_len - num_imgs)%nat in
       Ok (arange num_imgs ++ replicate num_pads (Z.of_nat num_imgs - 1)));
  if decide (length indices = seq_len) then Ok indices
  else Raise AssertionError.

Definition unknown_method_msg (sample_method : string) : string :=
  "Unknown sample method: " +:+ sample_method.

Section sampling.

(** [np.random.choice(np.arange(num_imgs), size=seq_len, replace=replace)]:
    the drawn indices, or [None] when numpy rejects the request (an empty
    population with a positive size). *)
Variable choice : nat → nat → bool → option (list Z).

(** The computation of [indices] in [VideoDataset.__getitem__]. *)
Definition sample_indices (sample_method : string) (num_imgs seq_len : nat)
  : result (list Z) :=
  if decide (sample_method = "random") then
    let replace := negb (bool_decide (seq_len ≤ num_imgs)%nat) in
    match choice num_imgs seq_len replace with
    | Some indices => Ok (merge_sort Z.le indices)
    | None =>
      Raise (ValueError "'a' cannot be empty unless no samples are taken")
    end
  else if decide (sample_method = "evenly") then
    sample_evenly num_imgs seq_len
  else if decide (sample_method = "all") then Ok (arange num_imgs)
  else Raise (ValueError (unknown_method_msg sample_method)).

End sampling.

(** The number of distinct values of [f] among the records of a split keyed
    under [d]. *)
Definition distinct_count (f : record → Z) (d : Z) (data : list record)
  : nat :=
  length (remove_dups (f <$> filter (λ r, rec_dataset_id r = d) data)).

(** ** Notions used to state the properties of the combination *)

(** The records of a split that [_get_obj_ids] and [_relabel] do not skip. *)
Definition survivors (junk : list Z) (data : list record) : list record :=
  filter (λ r, rec_obj_id r ∉ junk) data.

(** The identities collected from query and gallery for dataset id [d]. *)
Definition new_ids (junk : list Z) (query0 gallery0 : list record) (d : Z)
  : gset Z :=
  ids_of rec_obj_id d (survivors junk query0 ++ survivors junk gallery0).

(** The label [enumerate] gives to [x] when the set is visited in the order
    [l]. *)
Definition label_in (l : list Z) (x : Z) : nat :=
  default 0%nat (label_map l !! x).

(** [f] labels the elements of [s] with the numbers below [size s], each
    number being used once. *)
Definition dense_labelling (s : gset Z) (f : Z → nat) : Prop :=
  (∀ x, x ∈ s → (f x < size s)%nat)
  ∧ (∀ x y, x ∈ s → y ∈ s → f x = f y → x = y)
  ∧ (∀ i, (i < size s)%nat → ∃ x, x ∈ s ∧ f x = i).

(** Every record of a split that is not skipped has the shape, tuple or
    dict, of the first record of the split. *)
Definition shape_of_first (junk : list Z) (data : list record) : Prop :=
  Forall (λ r, is_dict r = first_is_dict data) (survivors junk data).

(** The record [_relabel] appends for a record it does not skip. *)
Definition relabel_one (id2label_map : gmap Z (gmap Z nat))
    (num_train_ids : gmap Z nat) (r : record) : record :=
  let label :=
    default 0%nat (id2label_map !! rec_dataset_id r ≫= (.!! rec_obj_id r)) in
  let n := default 0%nat (num_train_ids !! rec_dataset_id r) in
  with_obj_id (Z.of_nat label + Z.of_nat n) r.

(** The lookups and the shape test of [_relabel] succeed on [r]. *)
Definition relabel_defined (dict_branch : bool)
    (id2label_map : gmap Z (gmap Z nat)) (num_train_ids : gmap Z nat)
    (r : record) : Prop :=
  is_dict r = dict_branch
  ∧ is_Some (num_train_ids !! rec_dataset_id r)
  ∧ is_Some (id2label_map !! rec_dataset_id r ≫= (.!! rec_obj_id r)).

(** The label of identity [x] of dataset id [d] among the identities
    collected from query and gallery, when sets are visited in the order
    [set_iter]. *)
Definition new_label (set_iter : Z → gset Z → list Z) (junk : list Z)
    (query0 gallery0 : list record) (d x : Z) : nat :=
  label_in (set_iter d (new_ids junk query0 gallery0 d)) x.

(** A query or gallery record with its identity replaced by its new label
    plus the number [num !! d] of train identities of its dataset id. *)
Definition merged_record (set_iter : Z → gset Z → list Z) (junk : list Z)
    (query0 gallery0 : list record) (num : gmap Z nat) (r : record)
  : record :=
  with_obj_id
    (Z.of_nat (new_label set_iter junk query0 gallery0 (rec_dataset_id r)
                 (rec_obj_id r))
     + Z.of_nat (default 0%nat (num !! rec_dataset_id r))) r.

(** ** Example datasets *)

(** The dataset of the specification's example, as [__init__] holds it when
    it calls [combine_all]: one train, one query and one gallery image of
    identities 0, 1 and 2. *)
Definition three_ids_dataset : dataset :=
  init_self ImageDataset []
    [Tuple (Image "train.jpg") 0 0 []]
    [Tuple (Image "query.jpg") 1 0 []]
    [Tuple (Image "gallery.jpg") 2 0 []]
    None "train" true false.

(** Dict records whose query and gallery carry a dataset id that the train
    split does not have. *)
Definition unseen_id_dataset : dataset :=
  init_self ImageDataset []
    [Dict (Image "train.jpg") 0 0 0 []]
    [Dict (Image "query.jpg") 1 0 1 []]
    [Dict (Image "gallery.jpg") 2 0 1 []]
    None "train" true false.

(** A train split whose single identity is 1, not 0. *)
Definition sparse_train_dataset : dataset :=
  init_self ImageDataset []
    [Tuple (Image "train.jpg") 1 0 []]
    [Tuple (Image "query.jpg") 7 0 []]
    [Tuple (Image "gallery.jpg") 7 1 []]
    None "train" true false.

(** A dataset with junk identities 0 and -1 among query and gallery. *)
Definition junk_dataset : dataset :=
  init_self ImageDataset [0; -1]
    [Tuple (Image "train.jpg") 0 0 []]
    [Tuple (Image "q0.jpg") (-1) 0 []; Tuple (Image "q1.jpg") 4 0 []]
    [Tuple (Image "g0.jpg") 0 1 []; Tuple (Image "g1.jpg") 9 1 []]
    None "train" true false.

(** ** The sampling policies as the specification words them *)

(** The indices of the policy ['evenly'] for a tracklet of [N] frames and a
    target length [L]: [L] indices spaced by [N' / L] over the truncated
    range [N' = N - N mod L] when [N >= L], and otherwise all [N] indices
    followed by the last index repeated [L - N] times. *)
Definition evenly_spec (N L : nat) : list Z :=
  if decide (L ≤ N)%nat then
    let N' := Z.of_nat N - Z.of_nat N `mod` Z.of_nat L in
    (λ i, Z.of_nat i * (N' / Z.of_nat L)) <$> seq 0 L
  else
    (Z.of_nat <$> seq 0 N) ++ replicate (L - N) (Z.of_nat N - 1).

Definition policies : list string := ["random"; "evenly"; "all"].

Definition modes : list string := ["train"; "query"; "gallery"].

(** ** Notions used to state the properties of the addition *)

(** A record with its identity and camera ids moved by the given offsets. *)
Definition offset_record (pid_offset cam_offset : Z) (r : record) : record :=
  match r with
  | Dict m o c d ex => Dict m (o + pid_offset) (c + cam_offset) d ex
  | Tuple m p c rest => Tuple m (p + pid_offset) (c + cam_offset) rest
  end.

(** The indices a dataset object holds agree with its train split: the
    identity index is the one of the train split, and the camera index has
    no dataset id that the identity index lacks. *)
Definition indexed (d : dataset) : Prop :=
  num_train_pids d = get_num_pids (train d)
  ∧ dom (num_train_cams d) ⊆ dom (num_train_pids d).

(** The conditions under which [a + b] returns: the combined train split has
    a first record, the mode of [a] is recognized, and when that first record
    is a tracklet [a] is a [VideoDataset] with a transform. *)
Definition add_defined (a b : dataset) : Prop :=
  mode a ∈ modes
  ∧ match updated_train a b with
    | [] => False
    | first :: _ =>
      match rec_media first with
      | Image _ => True
      | Tracklet _ =>
        (∃ seq_len sample_method, cls a = VideoDataset seq_len sample_method)
        ∧ is_Some (transform a)
      end
    end.

(** Two image datasets in the shape the constructor gives them: the first
    has five identities under dataset id 0, the second one record of
    identity 0. *)
Definition five_ids_train : list record :=
  [Dict (Image "a0.jpg") 0 0 0 []; Dict (Image "a1.jpg") 1 0 0 [];
   Dict (Image "a2.jpg") 2 1 0 []; Dict (Image "a3.jpg") 3 1 0 [];
   Dict (Image "a4.jpg") 4 1 0 []].

Definition five_ids_dataset : dataset :=
  {| cls := ImageDataset; junk_pids := []; train := five_ids_train;
     query := []; gallery := []; transform := None; mode := "train";
     combineall := false; verbose := false;
     num_train_pids := get_num_pids five_ids_train;
     num_train_cams := get_num_cams five_ids_train;
     data_counts := get_data_counts five_ids_train;
     data := five_ids_train |}.

Definition one_id_train : list record := [Dict (Image "b0.jpg") 0 0 0 []].

Definition one_id_dataset : dataset :=
  {| cls := ImageDataset; junk_pids := []; train := one_id_train;
     query := []; gallery := []; transform := None; mode := "train";
     combineall := false; verbose := false;
     num_train_pids := get_num_pids one_id_train;
     num_train_cams := get_num_cams one_id_train;
     data_counts := get_data_counts one_id_train;
     data := one_id_train |}.

(** A dataset whose train split is empty, as the classification loaders
    build it in mode ['query']. *)
Definition query_only_dataset : dataset :=
  {| cls := ImageDataset; junk_pids := []; train := [];
     query := [classification_record "q.jpg" 3 0]; gallery := [];
     transform := None; mode := "query"; combineall := false;
     verbose := false; num_train_pids := ∅; num_train_cams := ∅;
     data_counts := ∅; data := [classification_record "q.jpg" 3 0] |}.

(** Two tuple records that agree on their first three items and may differ
    in the items from position 3 on. *)
Definition same_but_rest (r r' : record) : Prop :=
  ∃ m p c rest rest', r = Tuple m p c rest ∧ r' = Tuple m p c rest'.

(** ** Dict records as objects of a store *)

(** A dict record is a mutable object: [record['obj_id'] = ...] changes it
    for every list that holds it.  The store maps the identity of each dict
    object to its entries; tuples are immutable and are kept by value. *)
Definition loc := nat.

Record dict_obj := DictObj {
  img_path_of : media;
  obj_id_of : Z;
  cam_id_of : Z;
  dataset_id_of : Z;
  others_of : list (string * value)
}.

Global Instance dict_obj_inhabited : Inhabited dict_obj :=
  populate (DictObj (Image "") 0 0 0 []).

Abbreviation heap := (gmap loc dict_obj).

(** An element of a split: a tuple, or a reference to a dict object. *)
Inductive ref_record :=
| TupleVal (img : media) (pid camid : Z) (rest : list value)
| DictRef (l : loc).

Definition dict_value (o : dict_obj) : record :=
  Dict (img_path_of o) (obj_id_of o) (cam_id_of o) (dataset_id_of o)
    (others_of o).

(** The record an element of a split denotes in a store. *)
Definition read (h : heap) (x : ref_record) : record :=
  match x with
  | TupleVal m p c rest => Tuple m p c rest
  | DictRef l => dict_value (h !!! l)
  end.

(** The dict objects a split refers to. *)
Definition locs (xs : list ref_record) : list loc :=
  omap (λ x, match x with DictRef l => Some l | TupleVal _ _ _ _ => None end)
    xs.

(** Computations that read and update the store and may raise. *)
Definition st (A : Type) : Type := heap → heap * result A.

Global Instance st_ret : MRet st := λ A a h, (h, Ok a).

Global Instance st_bind : MBind st := λ A B k c h,
  match c h with
  | (h', Ok a) => k a h'
  | (h', Raise e) => (h', Raise e)
  end.

Definition get_heap : st heap := λ h, (h, Ok h).

Definition lift {A} (r : result A) : st A := λ h, (h, r).

(** A new dict object with the entries [o]. *)
Definition alloc (o : dict_obj) : st loc := λ h,
  let l := fresh (dom h) in (<[l := o]> h, Ok l).

(** [record['obj_id'] = v] and [record['cam_id'] = v] on the object [l]. *)
Definition set_obj_id (l : loc) (v : Z) : st unit := λ h,
  let o := h !!! l in
  (<[l := DictObj (img_path_of o) v (cam_id_of o) (dataset_id_of o)
            (others_of o)]> h, Ok ()).

Definition set_cam_id (l : loc) (v : Z) : st unit := λ h,
  let o := h !!! l in
  (<[l := DictObj (img_path_of o) (obj_id_of o) v (dataset_id_of o)
            (others_of o)]> h, Ok ()).

(** [copy.deepcopy] of a list of records: every dict object is copied to a
    new object, once ([memo] keeps the copies already made); a tuple of
    immutable items is its own copy. *)
Fixpoint deepcopy_records (memo : gmap loc loc) (xs : list ref_record)
  : st (list ref_record) :=
  match xs with
  | [] => mret []
  | TupleVal m p c rest :: xs' =>
    ys ← deepcopy_records memo xs';
    mret (TupleVal m p c rest :: ys)
  | DictRef l :: xs' =>
    match memo !! l with
    | Some l' =>
      ys ← deepcopy_records memo xs';
      mret (DictRef l' :: ys)
    | None =>
      h ← get_heap;
      l' ← alloc (h !!! l);
      ys ← deepcopy_records (<[l := l']> memo) xs';
      mret (DictRef l' :: ys)
    end
  end.

Definition deepcopy (xs : list ref_record) : st (list ref_record) :=
  deepcopy_records ∅ xs.

(** One iteration of the loop of [__add__] on the store: a dict record is
    assigned its new ids in place and is itself the [updated_record]; a tuple
    record gives a new tuple. *)
Definition add_step_st (a : dataset) (x : ref_record) : st ref_record :=
  h ← get_heap;
  let record := read h x in
  let dataset_id := rec_dataset_id record in
  let pids := default 0%nat (num_train_pids a !! dataset_id) in
  let new_obj_id := rec_obj_id record + Z.of_nat pids in
  let cams := default 0%nat (num_train_cams a !! dataset_id) in
  let new_cam_id := rec_cam_id record + Z.of_nat cams in
  match x with
  | DictRef l =>
    _ ← set_obj_id l new_obj_id;
    _ ← set_cam_id l new_cam_id;
    mret (DictRef l)
  | TupleVal m _ _ rest => mret (TupleVal m new_obj_id new_cam_id rest)
  end.

Fixpoint add_loop_st (a : dataset) (other_train updated : list ref_record)
  : st (list ref_record) :=
  match other_train with
  | [] => mret updated
  | x :: other_train' =>
    updated_record ← add_step_st a x;
    add_loop_st a other_train' (updated ++ [updated_record])
  end.

(** The computation of [updated_train] in [__add__]; [a] gives the indices
    [self.num_train_pids] and [self.num_train_cams]. *)
Definition add_train_st (a : dataset) (self_train other_train : list ref_record)
  : st (list ref_record) :=
  updated ← deepcopy self_train;
  add_loop_st a other_train updated.

(** [_relabel] on the store: in the dict branch the record is deep-copied
    and the copy is assigned the new identity. *)
Definition relabel_record_st (dict_branch : bool) (o : Z) (x : ref_record)
  : st ref_record :=
  match dict_branch, x with
  | true, DictRef l =>
    h ← get_heap;
    l' ← alloc (h !!! l);
    _ ← set_obj_id l' o;
    mret (DictRef l')
  | true, TupleVal _ _ _ _ => lift (Raise TypeError)
  | false, TupleVal m _ c rest => mret (TupleVal m o c rest)
  | false, DictRef _ => lift (Raise TypeError)
  end.

Fixpoint relabel_loop_st (dict_branch : bool) (junk : list Z)
    (id2label_map : gmap Z (gmap Z nat)) (num_train_ids : gmap Z nat)
    (data : list ref_record) : st (list ref_record) :=
  match data with
  | [] => mret []
  | x :: data' =>
    h ← get_heap;
    let record := read h x in
    if is_junk junk (rec_obj_id record) then
      relabel_loop_st dict_branch junk id2label_map num_train_ids data'
    else
      labels ← lift (getitem id2label_map (rec_dataset_id record));
      label ← lift (getitem labels (rec_obj_id record));
      n ← lift (getitem num_train_ids (rec_dataset_id record));
      out_record ←
        relabel_record_st dict_branch (Z.of_nat label + Z.of_nat n) x;
      out_data ←
        relabel_loop_st dict_branch junk id2label_map num_train_ids data';
      mret (out_record :: out_data)
  end.

Definition first_is_dict_ref (data : list ref_record) : bool :=
  match data with
  | DictRef _ :: _ => true
  | _ => false
  end.

Definition relabel_st (data : list ref_record) (junk : list Z)
    (id2label_map : gmap Z (gmap Z nat)) (num_train_ids : gmap Z nat)
  : st (list ref_record) :=
  relabel_loop_st (first_is_dict_ref data) junk id2label_map num_train_ids
    data.

(** The computation of [combined] in [combine_all] on the store. *)
Definition combine_train_st (set_iter : Z → gset Z → list Z) (junk : list Z)
    (train0 query0 gallery0 : list ref_record) (num_train_pids0 : gmap Z nat)
  : st (list ref_record) :=
  combined ← deepcopy train0;
  h ← get_heap;
  let new_obj_ids := get_obj_ids (read h <$> query0) junk ∅ in
  let new_obj_ids := get_obj_ids (read h <$> gallery0) junk new_obj_ids in
  let id2label_map := make_id2label_map set_iter new_obj_ids in
  from_query ← relabel_st query0 junk id2label_map num_train_pids0;
  from_gallery ← relabel_st gallery0 junk id2label_map num_train_pids0;
  mret (combined ++ from_query ++ from_gallery).

(** A store with two dict records: object 0 is the train record of
    [one_id_dataset], object 1 the train record of another dataset, of
    identity 0 and camera 0 as well. *)
Definition two_dicts_heap : heap :=
  {[ 0%nat := DictObj (Image "b0.jpg") 0 0 0 [];
     1%nat := DictObj (Image "c0.jpg") 0 0 0 [] ]}.

(** [h'] has every object of [h], with the entries it has in [h]. *)
Definition extends (h h' : heap) : Prop :=
  ∀ l, l ∈ dom h → h' !! l = h !! l.

(** A computation that changes no object of the store it starts from,
    whether it returns or raises. *)
Definition frame {A} (c : st A) : Prop := ∀ h, extends h (c h).1.

(** ** Notions used to state further properties *)

(** The number of records of a split with dataset id [d] and identity
    [o]. *)
Definition occurrences (d o : Z) (data : list record) : nat :=
  length (filter (λ r, rec_dataset_id r = d ∧ rec_obj_id r = o) data).

(** Two tracklets of identities 0 and 1. *)
Definition two_tracklets : list record :=
  [Tuple (Tracklet ["t0/f0.jpg"; "t0/f1.jpg"; "t0/f2.jpg"]) 0 0 [];
   Tuple (Tracklet ["t1/f0.jpg"; "t1/f1.jpg"]) 1 1 []].

(** The identity ids of a split are dense and zero-based: under every
    dataset id they lie below the number of distinct identities of that
    dataset id. *)
Definition dense_ids (data : list record) : Prop :=
  ∀ r, r ∈ data →
    0 ≤ rec_obj_id r
    < Z.of_nat (distinct_count rec_obj_id (rec_dataset_id r) data).

(** ** Reading the frames of a tracklet *)

(** [l[i]] on a Python list: a negative index counts from the end, and an
    index outside the list raises [IndexError]. *)
Definition py_index {A} (l : list A) (i : Z) : result A :=
  let n := Z.of_nat (length l) in
  let j := if decide (i < 0) then i + n else i in
  if decide (0 ≤ j < n) then
    match l !! Z.to_nat j with
    | Some x => Ok x
    | None => Raise IndexError
    end
  else Raise IndexError.

(** The paths [img_paths[int(index)]] the loop of [VideoDataset.__getitem__]
    reads, in order; reading and transforming the images is left to the
    callers' collaborators. *)
Fixpoint select_frames (img_paths : list string) (indices : list Z)
  : result (list string) :=
  match indices with
  | [] => Ok []
  | index :: indices' =>
    img_path ← py_index img_paths index;
    imgs ← select_frames img_paths indices';
    Ok (img_path :: imgs)
  end.

(** [img_paths, pid, camid = self.data[index]]: only a tuple of exactly
    three items unpacks; a longer tuple, and a dict (whose iteration yields
    its four or more keys), raise [ValueError]. *)
Definition unpack3 (r : record) : result (media * Z * Z) :=
  match r with
  | Tuple m p c [] => Ok (m, p, c)
  | Tuple _ _ _ (_ :: _) =>
    Raise (ValueError "too many values to unpack (expected 3)")
  | Dict _ _ _ _ _ =>
    Raise (ValueError "too many values to unpack (expected 3)")
  end.

(** The indices are non-decreasing. *)
Definition nondecreasing (l : list Z) : Prop :=
  ∀ i j x y, (i ≤ j)%nat → l !! i = Some x → l !! j = Some y → x ≤ y.

(** What [np.random.choice] returns when it returns: [size] indices of the
    population, without repetition when [replace] is false. *)
Definition valid_choice (choice : nat → nat → bool → option (list Z))
  : Prop :=
  ∀ N L replace drawn, choice N L replace = Some drawn →
    length drawn = L
    ∧ Forall (λ i, 0 ≤ i < Z.of_nat N) drawn
    ∧ (replace = false → NoDup drawn).

Section frames.

Variable choice : nat → nat → bool → option (list Z).

(** The items of the first field of a record as [len] and indexing see
    them: the paths of a tracklet, or the characters of a single path. *)
Variable chars : string → list string.

Definition media_items (m : media) : list string :=
  match m with
  | Tracklet paths => paths
  | Image path => chars path
  end.

(** The frames a [VideoDataset] of sampling method [sample_method] and
    length [seq_len] reads for a tracklet. *)
Definition video_frames (sample_method : string) (seq_len : nat)
    (img_paths : list string) : result (list string) :=
  indices ← sample_indices choice sample_method (length img_paths) seq_len;
  select_frames img_paths indices.

(** [VideoDataset.__getitem__] up to the frames it reads, with the identity
    and camera it returns, for a dataset whose attributes [data],
    [sample_method] and [seq_len] are the given ones. *)
Definition video_getitem (data0 : list record) (sample_method : string)
    (seq_len : nat) (index : Z) : result (list string * Z * Z) :=
  record ← py_index data0 index;
  '(img_paths, pid, camid) ← unpack3 record;
  imgs ← video_frames sample_method seq_len (media_items img_paths);
  Ok (imgs, pid, camid).

End frames.

(** A sampler that meets [valid_choice]: it rejects an empty population
    when indices are asked for, draws index 0 repeatedly with replacement,
    and draws the first [size] indices in descending order without. *)
Definition descending_choice (N L : nat) (replace : bool)
  : option (list Z) :=
  if replace then
    match N, L with
    | O, S _ => None
    | _, _ => Some (replicate L 0)
    end
  else if decide (L ≤ N)%nat then Some (reverse (Z.of_nat <$> seq 0 L))
  else None.

(** ** Compression of labels *)

(** The body of the loop, and of the list comprehension, of
    [_compress_labels]: the branch is chosen by the shape of the first
    record; a record of the other shape raises [TypeError], an identity
    missing from [pid2label] raises [KeyError]. *)
Definition compress_record (dict_branch : bool) (pid2label : gmap Z nat)
    (r : record) : result record :=
  match dict_branch, r with
  | true, Dict m o c d ex =>
    label ← getitem pid2label o; Ok (Dict m (Z.of_nat label) c d ex)
  | true, Tuple _ _ _ _ => Raise TypeError
  | false, Tuple m p c rest =>
    label ← getitem pid2label p; Ok (Tuple m (Z.of_nat label) c rest)
  | false, Dict _ _ _ _ _ => Raise TypeError
  end.

Fixpoint compress_loop (dict_branch : bool) (pid2label : gmap Z nat)
    (data : list record) : result (list record) :=
  match data with
  | [] => Ok []
  | r :: data' =>
    out_record ← compress_record dict_branch pid2label r;
    out_data ← compress_loop dict_branch pid2label data';
    Ok (out_record :: out_data)
  end.

(** The records that [_compress_labels] computes, on the values of the
    records, when no dict object is listed twice in the split
    ([compress_labels_st] below is the function on the store); [iter] is the
    order in which [enumerate(pid_container)] visits the set of
    identities. *)
Definition compress_labels (iter : gset Z → list Z) (data : list record)
  : result (list record) :=
  match data with
  | [] => Ok data
  | first :: _ =>
    let pid_container : gset Z := list_to_set (rec_obj_id <$> data) in
    let pid2label := label_map (iter pid_container) in
    compress_loop (is_dict first) pid2label data
  end.

(** [_compress_labels] on the store.  In the dict branch [out_data] is
    [data] itself, and every element is assigned its label in place, so that
    an object listed twice is looked up a second time under the label it was
    given the first time; in the tuple branch the comprehension builds new
    tuples. *)
Definition compress_record_st (dict_branch : bool) (pid2label : gmap Z nat)
    (x : ref_record) : st ref_record :=
  match dict_branch, x with
  | true, DictRef l =>
    h ← get_heap;
    label ← lift (getitem pid2label (obj_id_of (h !!! l)));
    _ ← set_obj_id l (Z.of_nat label);
    mret (DictRef l)
  | true, TupleVal _ _ _ _ => lift (Raise TypeError)
  | false, TupleVal m p c rest =>
    label ← lift (getitem pid2label p);
    mret (TupleVal m (Z.of_nat label) c rest)
  | false, DictRef _ => lift (Raise TypeError)
  end.

Fixpoint compress_loop_st (dict_branch : bool) (pid2label : gmap Z nat)
    (data : list ref_record) : st (list ref_record) :=
  match data with
  | [] => mret []
  | x :: data' =>
    out_record ← compress_record_st dict_branch pid2label x;
    out_data ← compress_loop_st dict_branch pid2label data';
    mret (out_record :: out_data)
  end.

Definition compress_labels_st (iter : gset Z → list Z)
    (data : list ref_record) : st (list ref_record) :=
  match data with
  | [] => mret data
  | _ :: _ =>
    h ← get_heap;
    let pid_container : gset Z :=
      list_to_set (rec_obj_id <$> (read h <$> data)) in
    let pid2label := label_map (iter pid_container) in
    compress_loop_st (first_is_dict_ref data) pid2label data
  end.

(** ** Datasets whose records are objects of the store *)

(** A dataset object.  [train_of], [query_of] and [gallery_of] are the lists
    [self.train], [self.query] and [self.gallery], whose dict records are
    objects of the store; [attrs] holds the attributes that are plain values:
    the indices, the mode, the transform, the class, and the values that the
    records of the splits had when the object was constructed. *)
Record dataset_obj := DatasetObj {
  attrs : dataset;
  train_of : list ref_record;
  query_of : list ref_record;
  gallery_of : list ref_record
}.

(** The train split of an object as a store has it. *)
Definition train_in (h : heap) (d : dataset_obj) : list record :=
  read h <$> train_of d.

(** The left operand [__radd__] receives from [sum]: the integer [0] that
    [sum] starts from, or a dataset. *)
Inductive addend :=
| Zero
| Other (d : dataset_obj).

Section addition_on_store.

Variable set_iter : Z → gset Z → list Z.

(** The end of [__add__], from the reading of [updated_train[0]] on: the
    class of the result is chosen by the first field of that record, and
    the constructor, called with [combineall=False] and [verbose=False],
    reads the records it is given. *)
Definition build_sum (a : dataset) (updated_train0 query0 gallery0 : list record)
  : result dataset :=
  match updated_train0 with
  | [] => Raise IndexError
  | first :: _ =>
    match rec_media first with
    | Image _ =>
      image_dataset_init set_iter [] updated_train0 query0 gallery0
        (transform a) (mode a) false false
    | Tracklet _ =>
      match cls a with
      | VideoDataset seq_len sample_method =>
        video_dataset_init set_iter [] updated_train0 query0 gallery0
          seq_len sample_method (transform a) (mode a) false false
      | _ => Raise AttributeError
      end
    end
  end.

(** [__add__] on the store: [updated_train] is a deep copy of [self.train]
    followed by the records of [other.train], the dict records among them
    being assigned their new ids in place ([add_train_st]); the result is
    constructed from that list and from the lists [self.query] and
    [self.gallery] themselves. *)
Definition add_st (a b : dataset_obj) : st dataset_obj :=
  updated_train0 ← add_train_st (attrs a) (train_of a) (train_of b);
  h ← get_heap;
  c ← lift (build_sum (attrs a) (read h <$> updated_train0)
              (read h <$> query_of a) (read h <$> gallery_of a));
  mret (DatasetObj c updated_train0 (query_of a) (gallery_of a)).

(** [__radd__]: [0 + self] is [self] itself, anything else is
    [self.__add__(other)]. *)
Definition radd_st (self : dataset_obj) (other : addend) : st dataset_obj :=
  match other with
  | Zero => mret self
  | Other o => add_st self o
  end.

(** One step [acc + d] of [sum]: the integer [0] has no addition with a
    dataset, so that [d.__radd__(0)] is called; a dataset [acc] is added by
    its own [__add__]. *)
Definition sum_step_st (acc : addend) (d : dataset_obj) : st addend :=
  match acc with
  | Zero => c ← radd_st d Zero; mret (Other c)
  | Other a => c ← add_st a d; mret (Other c)
  end.

Fixpoint sum_loop_st (acc : addend) (l : list dataset_obj) : st addend :=
  match l with
  | [] => mret acc
  | d :: l' => acc' ← sum_step_st acc d; sum_loop_st acc' l'
  end.

(** [sum(l)] on a list of datasets. *)
Definition py_sum_st (l : list dataset_obj) : st addend :=
  sum_loop_st Zero l.

End addition_on_store.

(** The conditions under which the end of [__add__] returns: the list
    [updated_train] has a first record, the mode of [a] is recognized, and
    when that first record is a tracklet [a] is a [VideoDataset] with a
    transform. *)
Definition sum_defined (a : dataset) (updated_train0 : list record) : Prop :=
  mode a ∈ modes
  ∧ match updated_train0 with
    | [] => False
    | first :: _ =>
      match rec_media first with
      | Image _ => True
      | Tracklet _ =>
        (∃ seq_len sample_method, cls a = VideoDataset seq_len sample_method)
        ∧ is_Some (transform a)
      end
    end.

(** The object holds the identity and the camera index of its train split
    as the store has it, as the constructor leaves them when [combineall]
    is not set. *)
Definition indexed_in (h : heap) (d : dataset_obj) : Prop :=
  num_train_pids (attrs d) = get_num_pids (train_in h d)
  ∧ num_train_cams (attrs d) = get_num_cams (train_in h d).

(** The dict objects of the train splits of a list of datasets. *)
Definition train_locs (l : list dataset_obj) : list loc :=
  l ≫= λ d, locs (train_of d).

(** ** The classification dataset *)

(** What [Classification.load_annotation] returns for the lines
    [relative_path label] of the annotation file that it keeps: one tuple
    for each line, in the order of the file. *)
Definition classification_records (annotation : list (string * Z))
    (dataset_id : Z) : list record :=
  (λ line, classification_record line.1 line.2 dataset_id) <$> annotation.

Section classification.

Variable set_iter : Z → gset Z → list Z.

(** [Classification.__init__] with [load_masks] left at [False] and the
    required files present: [annotation] holds the lines of the annotation
    file that [load_annotation] keeps, the other arguments reach
    [Dataset.__init__] through [**kwargs]. *)
Definition classification_init (annotation : list (string * Z))
    (dataset_id : Z) (mode0 : string) (transform0 : option transform_fn)
    (combineall0 verbose0 : bool) : result dataset :=
  let train0 :=
    if decide (mode0 = "train")
    then classification_records annotation dataset_id else [] in
  let query0 :=
    if decide (mode0 = "query")
    then classification_records annotation dataset_id else [] in
  let gallery0 := [] in
  image_dataset_init set_iter [] train0 query0 gallery0 transform0 mode0
    combineall0 verbose0.

End classification.

(** ** Helpers of the scripts (scripts/script_utils.py) *)

Section classes.

(** The dicts of classes map class keys to indices; their keys are compared
    by [sorted], with the order [le] of the keys, and are visited in the
    order of insertion, which [keys] stands for. *)
Context `{Countable K} {V : Type}.
Variable le : relation K.
Context `{∀ x y, Decision (le x y)}.
Variable keys : gmap K V → list K.

(** The order of iteration visits every key of the dict once. *)
Definition valid_keys : Prop := ∀ m, keys m ≡ₚ elements (dom m).

(** [check_classes_consistency] *)
Definition check_classes_consistency (ref_classes probe_classes : gmap K V)
    (strict : bool) : bool :=
  if strict then
    if decide (size ref_classes ≠ size probe_classes) then false
    else bool_decide (merge_sort le (keys probe_classes)
                      = merge_sort le (keys ref_classes))
  else
    if decide (size probe_classes < size ref_classes)%nat then false
    else forallb (λ cl, bool_decide (is_Some (probe_classes !! cl)))
           (keys ref_classes).

End classes.

Global Instance value_eq_dec : EqDecision value.
Proof. solve_decision. Defined.

(** [l[0::2]] *)
Fixpoint even_items {A} (l : list A) : list A :=
  match l with
  | [] => []
  | x :: l' =>
    x :: match l' with
         | [] => []
         | _ :: l'' => even_items l''
         end
  end.

(** [is_config_parameter_set_from_command_line]; [cmd_line_opts] is [None]
    or a list that alternates keys and values, as
    [yacs.config.CfgNode.merge_from_list] takes it. *)
Definition is_config_parameter_set_from_command_line
    (cmd_line_opts : option (list value)) (parameter_name : string) : bool :=
  match cmd_line_opts with
  | None | Some [] => false
  | Some opts => bool_decide (VStr parameter_name ∈ even_items opts)
  end.

(** The list of options that sets each key of [settings] to its value. *)
Definition opts_of (settings : list (string * value)) : list value :=
  settings ≫= λ kv, [VStr kv.1; kv.2].

(** ** Moving outputs to a device (torchreid/ops/data_parallel.py) *)

(** What a module returns: a tensor, which lives on a device, a tuple or a
    list of outputs, a dict of outputs, or an object of another type, of
    which [map_device] only prints the type. *)
#[warnings="-register-all"] Inductive output :=
| Tensor (device : string) (payload : Z)
| Sequence (is_tuple : bool) (items : list output)
| Mapping (entries : list (string * output))
| Unknown (type_name : string).

(** A comprehension whose body may raise: the first exception ends it. *)
Definition map_result {A B} (f : A → result B) : list A → result (list B) :=
  fix go (l : list A) : result (list B) :=
    match l with
    | [] => Ok []
    | x :: l' => y ← f x; ys ← go l'; Ok (y :: ys)
    end.

Definition unknown_type_msg (type_name : string) : string :=
  "Unknown output type: " +:+ type_name.

Section devices.

(** [tensor.to(device)] is torch's: it gives the tensor on the device, or
    raises when torch does not take the device (a name it does not know, a
    device that is not there or has no room for the tensor).  [rejects]
    gives, for the contents of a tensor and a device, the exception that is
    raised, if any; it does not depend on where the tensor is. *)
Variable rejects : Z → string → option exn.

Definition tensor_to (payload : Z) (device : string) : result output :=
  match rejects payload device with
  | None => Ok (Tensor device payload)
  | Some e => Raise e
  end.

(** [map_device]: [outputs.to(output_device)] on a tensor, a list for a
    tuple or a list, a dict with the same keys for a dict. *)
Fixpoint map_device (outputs : output) (output_device : string)
  : result output :=
  match outputs with
  | Tensor _ payload => tensor_to payload output_device
  | Sequence _ items =>
    l ← map_result (λ o, map_device o output_device) items;
    Ok (Sequence false l)
  | Mapping entries =>
    l ← map_result (λ kv, v ← map_device kv.2 output_device; Ok (kv.1, v))
          entries;
    Ok (Mapping l)
  | Unknown type_name => Raise (ValueError (unknown_type_msg type_name))
  end.

(** The exceptions that the objects of an output hold in store for a
    device, from left to right: the one of torch for a tensor it does not
    move, the one of [map_device] for an object of another type. *)
Fixpoint failures (dev : string) (o : output) : list exn :=
  match o with
  | Tensor _ p => option_list (rejects p dev)
  | Sequence _ items => items ≫= failures dev
  | Mapping entries => entries ≫= λ kv, failures dev kv.2
  | Unknown t => [ValueError (unknown_type_msg t)]
  end.

End devices.

(** The tensors of an output, from left to right, and whether it holds a
    tuple. *)
Fixpoint tensors (o : output) : list (string * Z) :=
  match o with
  | Tensor d p => [(d, p)]
  | Sequence _ items => items ≫= tensors
  | Mapping entries => entries ≫= λ kv, tensors kv.2
  | Unknown _ => []
  end.

Fixpoint has_tuple (o : output) : bool :=
  match o with
  | Tensor _ _ => false
  | Sequence b items => b || existsb has_tuple items
  | Mapping entries => existsb (λ kv, has_tuple kv.2) entries
  | Unknown _ => false
  end.

(** A torch that takes every device but ["cuda:9"]. *)
Definition no_ninth_device (payload : Z) (device : string) : option exn :=
  if decide (device = "cuda:9")
  then Some (RuntimeError "CUDA error: invalid device ordinal") else None.

(** Induction on outputs, with the property at hand for the outputs a
    container holds. *)
Section output_induction.

Variable P : output → Prop.
Hypothesis tensor_case : ∀ d p, P (Tensor d p).
Hypothesis sequence_case : ∀ b items, Forall P items → P (Sequence b items).
Hypothesis mapping_case :
  ∀ entries, Forall (λ kv, P kv.2) entries → P (Mapping entries).
Hypothesis unknown_case : ∀ t, P (Unknown t).

Fixpoint output_nested_ind (o : output) : P o :=
  match o with
  | Tensor d p => tensor_case d p
  | Sequence b items =>
    sequence_case b items
      ((fix go l : Forall P l :=
          match l with
          | [] => Forall_nil_2 _
          | x :: l' => Forall_cons_2 _ _ _ (output_nested_ind x) (go l')
          end) items)
  | Mapping entries =>
    mapping_case entries
      ((fix go l : Forall (λ kv, P kv.2) l :=
          match l with
          | [] => Forall_nil_2 _
          | kv :: l' =>
            Forall_cons_2 (λ kv, P kv.2) _ _
              (match kv as kv0 return P kv0.2 with
               | (_, v) => output_nested_ind v
               end) (go l')
          end) entries)
  | Unknown t => unknown_case t
  end.

End output_induction.

(** ** Example datasets on the store *)

(** The store that holds the five dict records of [five_ids_train] and the
    dict record of [one_id_train], and the two datasets as objects. *)
Definition six_dicts_heap : heap :=
  {[ 0%nat := DictObj (Image "a0.jpg") 0 0 0 [];
     1%nat := DictObj (Image "a1.jpg") 1 0 0 [];
     2%nat := DictObj (Image "a2.jpg") 2 1 0 [];
     3%nat := DictObj (Image "a3.jpg") 3 1 0 [];
     4%nat := DictObj (Image "a4.jpg") 4 1 0 [];
     5%nat := DictObj (Image "b0.jpg") 0 0 0 [] ]}.

Definition five_ids_obj : dataset_obj :=
  DatasetObj five_ids_dataset
    [DictRef 0%nat; DictRef 1%nat; DictRef 2%nat; DictRef 3%nat; DictRef 4%nat]
    [] [].

Definition one_id_obj : dataset_obj :=
  DatasetObj one_id_dataset [DictRef 5%nat] [] [].

(** A dataset whose train split lists the dict record of [one_id_train]
    twice. *)
Definition twice_one_id_obj : dataset_obj :=
  DatasetObj one_id_dataset [DictRef 5%nat; DictRef 5%nat] [] [].

Definition query_only_obj : dataset_obj :=
  DatasetObj query_only_dataset []
    [TupleVal (Image "q.jpg") 3 0 [VInt 0; VStr ""; VInt (-1); VInt (-1)]] [].

(** An [ImageDataset] that was given tracklets. *)
Definition tracklets_as_images : dataset :=
  {| cls := ImageDataset; junk_pids := []; train := two_tracklets;
     query := []; gallery := []; transform := None; mode := "train";
     combineall := false; verbose := false;
     num_train_pids := get_num_pids two_tracklets;
     num_train_cams := get_num_cams two_tracklets;
     data_counts := get_data_counts two_tracklets; data := two_tracklets |}.

Definition tracklets_as_images_obj : dataset_obj :=
  DatasetObj tracklets_as_images
    [TupleVal (Tracklet ["t0/f0.jpg"; "t0/f1.jpg"; "t0/f2.jpg"]) 0 0 [];
     TupleVal (Tracklet ["t1/f0.jpg"; "t1/f1.jpg"]) 1 1 []] [] [].

(** The splits of a dataset whose query and gallery records come from
    cameras that the train split does not have. *)
Definition one_camera_train : list record := [Tuple (Image "t.jpg") 0 0 []].
Definition second_camera_query : list record := [Tuple (Image "q.jpg") 1 1 []].
Definition third_camera_gallery : list record := [Tuple (Image "g.jpg") 2 2 []].

(** That dataset after [combine_all], as an object, and a dataset of one
    tuple record of identity 0 and camera 0. *)
Definition merged_cameras_refs : list ref_record :=
  [TupleVal (Image "t.jpg") 0 0 []; TupleVal (Image "q.jpg") 1 1 [];
   TupleVal (Image "g.jpg") 2 2 []].

Definition one_tuple_obj : dataset_obj :=
  DatasetObj
    {| cls := ImageDataset; junk_pids := [];
       train := [Tuple (Image "x.jpg") 0 0 []]; query := []; gallery := [];
       transform := None; mode := "train"; combineall := false;
       verbose := false;
       num_train_pids := get_num_pids [Tuple (Image "x.jpg") 0 0 []];
       num_train_cams := get_num_cams [Tuple (Image "x.jpg") 0 0 []];
       data_counts := get_data_counts [Tuple (Image "x.jpg") 0 0 []];
       data := [Tuple (Image "x.jpg") 0 0 []] |}
    [TupleVal (Image "x.jpg") 0 0 []] [] [].

(** ** Splits of tuple records *)

(** A tuple record given by its items: the first three, and the items from
    position 3 on, where the loaders store a dataset id. *)
Definition tuple_of (t : media * Z * Z * list value) : record :=
  Tuple t.1.1.1 t.1.1.2 t.1.2 t.2.

Definition tuple_ref (t : media * Z * Z * list value) : ref_record :=
  TupleVal t.1.1.1 t.1.1.2 t.1.2 t.2.

Definition tuple_pid (t : media * Z * Z * list value) : Z := t.1.1.2.

Definition tuple_cam (t : media * Z * Z * list value) : Z := t.1.2.

(** * Properties *)

(** ** The identity indexer *)

Section indexer.

Implicit Types (data : list record) (d : Z) (m : gmap Z (gset Z)).

Lemma set_add_lookup k x m j :
  set_add k x m !! j
  = if decide (k = j) then Some (default ∅ (m !! k) ∪ {[x]}) else m !! j.
Proof. unfold set_add. by rewrite lookup_insert. Qed.

(** A loop of [m[k r].add(v r)] collects, under each key, the values of the
    records with that key. *)
Lemma fold_set_add_lookup (k v : record → Z) data m d :
  foldl (λ acc r, set_add (k r) (v r) acc) m data !! d
  = if decide (filter (λ r, k r = d) data = []) then m !! d
    else Some (default ∅ (m !! d)
               ∪ list_to_set (v <$> filter (λ r, k r = d) data)).
Proof.
  revert m. induction data as [|r data IH]; intros m; simpl.
  { done. }
  rewrite IH, set_add_lookup. rewrite filter_cons.
  destruct (decide (k r = d)) as [->|Hne].
  - destruct (decide (r :: _ = [])) as [?|_]; [done|].
    destruct (decide (filter _ data = [])) as [->|_]; f_equal; simpl;
      set_solver.
  - destruct (decide (filter _ data = [])); done.
Qed.

Lemma parse_sets_fst data acc :
  (foldl parse_step acc data).1
  = foldl (λ m r, set_add (rec_dataset_id r) (rec_obj_id r) m) acc.1 data.
Proof.
  revert acc. induction data as [|r data IH]; intros acc; simpl.
  - done.
  - by rewrite IH.
Qed.

Lemma parse_sets_snd data acc :
  (foldl parse_step acc data).2
  = foldl (λ m r, set_add (rec_dataset_id r) (rec_cam_id r) m) acc.2 data.
Proof.
  revert acc. induction data as [|r data IH]; intros acc; simpl.
  - done.
  - by rewrite IH.
Qed.

Lemma filter_nil_not_elem data d :
  filter (λ r, rec_dataset_id r = d) data = []
  ↔ d ∉ rec_dataset_id <$> data.
Proof.
  rewrite list_elem_of_fmap. split.
  - intros Hnil (r & -> & Hr).
    assert (r ∈ filter (λ r', rec_dataset_id r' = rec_dataset_id r) data) as Hin
      by (by apply list_elem_of_filter).
    rewrite Hnil in Hin. by apply not_elem_of_nil in Hin.
  - intros Hno. apply elem_of_nil_inv. intros r [Hd Hr]%list_elem_of_filter.
    apply Hno. eauto.
Qed.

Lemma size_ids_of f d data : size (ids_of f d data) = distinct_count f d data.
Proof.
  unfold ids_of, distinct_count.
  rewrite <- (size_list_to_set (C := gset Z) (remove_dups _)) by apply NoDup_remove_dups.
  f_equal. apply set_eq. intros x.
  by rewrite !elem_of_list_to_set, elem_of_remove_dups.
Qed.

Lemma get_num_pids_lookup data d :
  get_num_pids data !! d
  = if bool_decide (d ∈ rec_dataset_id <$> data)
    then Some (distinct_count rec_obj_id d data) else None.
Proof.
  unfold get_num_pids, parse_data, parse_sets. simpl.
  rewrite lookup_fmap, parse_sets_fst, fold_set_add_lookup. simpl.
  rewrite lookup_empty. simpl.
  destruct (decide (filter _ data = [])) as [Hnil|Hnn].
  - apply filter_nil_not_elem in Hnil. by rewrite bool_decide_eq_false_2.
  - rewrite bool_decide_eq_true_2.
    + simpl. f_equal. rewrite <- size_ids_of. unfold ids_of. f_equal. set_solver.
    + destruct (decide (d ∈ rec_dataset_id <$> data)) as [|Hno]; [done|].
      by apply filter_nil_not_elem in Hno.
Qed.

Lemma get_num_cams_lookup data d :
  get_num_cams data !! d
  = if bool_decide (d ∈ rec_dataset_id <$> data)
    then Some (distinct_count rec_cam_id d data) else None.
Proof.
  unfold get_num_cams, parse_data, parse_sets. simpl.
  rewrite lookup_fmap, parse_sets_snd, fold_set_add_lookup. simpl.
  rewrite lookup_empty. simpl.
  destruct (decide (filter _ data = [])) as [Hnil|Hnn].
  - apply filter_nil_not_elem in Hnil. by rewrite bool_decide_eq_false_2.
  - rewrite bool_decide_eq_true_2.
    + simpl. f_equal. rewrite <- size_ids_of. unfold ids_of. f_equal. set_solver.
    + destruct (decide (d ∈ rec_dataset_id <$> data)) as [|Hno]; [done|].
      by apply filter_nil_not_elem in Hno.
Qed.

(** C5 (amended): for every split and every dataset id, [parse_data] maps
    the dataset id, when some record of the split is keyed under it, to the
    number of distinct identity ids and to the number of distinct camera ids
    of the records keyed under it, and has no entry for a dataset id under
    which no record is keyed.  The key of a record is the one the indexer
    reads ([rec_dataset_id]): the entry ['dataset_id'] of a dict record, and
    0 for a tuple record, whatever the tuple holds at position 3.  The
    function only reads the split: its result is the pair of count dicts and
    nothing else. *)
Theorem parse_data_cardinality data d :
  (parse_data data).1 !! d
  = (if bool_decide (d ∈ rec_dataset_id <$> data)
     then Some (distinct_count rec_obj_id d data) else None)
  ∧ (parse_data data).2 !! d
    = (if bool_decide (d ∈ rec_dataset_id <$> data)
       then Some (distinct_count rec_cam_id d data) else None).
Proof. split; [apply get_num_pids_lookup | apply get_num_cams_lookup]. Qed.

End indexer.

(** Counterexample to C5 as stated: the tuple that the classification loader
    builds for dataset id 2 holds that dataset id at position 3, but the
    indexer has no entry for dataset id 2; the record is counted under 0. *)
Lemma parse_data_stored_dataset_id_unread :
  classification_record "a.jpg" 5 2
  = Tuple (Image "a.jpg") 5 0 [VInt 2; VStr ""; VInt (-1); VInt (-1)]
  ∧ (parse_data [classification_record "a.jpg" 5 2]).1 !! 2 = None
  ∧ (parse_data [classification_record "a.jpg" 5 2]).2 !! 2 = None
  ∧ (parse_data [classification_record "a.jpg" 5 2]).1 !! 0 = Some 1%nat
  ∧ (parse_data [classification_record "a.jpg" 5 2]).2 !! 0 = Some 1%nat.
Proof. repeat split; vm_compute; reflexivity. Qed.

(** ** Dense labels *)

Section labelling.

Implicit Types (l : list Z) (x : Z) (i : nat).

Lemma label_map_snoc l x :
  label_map (l ++ [x]) = <[x := length l]> (label_map l).
Proof.
  unfold label_map. rewrite imap_app, foldl_app. simpl.
  by rewrite Nat.add_0_r.
Qed.

Lemma label_map_is_Some l x : is_Some (label_map l !! x) ↔ x ∈ l.
Proof.
  induction l as [|y l IH] using rev_ind.
  - unfold label_map. simpl. rewrite lookup_empty, elem_of_nil.
    split; [by intros [? ?]|done].
  - rewrite label_map_snoc, lookup_insert, elem_of_app, list_elem_of_singleton.
    destruct (decide (y = x)) as [->|Hne].
    + split; eauto.
    + rewrite IH. naive_solver.
Qed.

Lemma label_map_lookup l x i :
  NoDup l → label_map l !! x = Some i ↔ l !! i = Some x.
Proof.
  induction l as [|y l IH] using rev_ind; intros Hnd.
  - unfold label_map. simpl. by rewrite lookup_empty, lookup_nil.
  - apply NoDup_app in Hnd as (Hnd & Hy & _).
    rewrite label_map_snoc, lookup_insert.
    destruct (decide (y = x)) as [->|Hne].
    + split.
      * intros [= <-]. by rewrite lookup_app_r, Nat.sub_diag.
      * intros Hi. f_equal.
        destruct (decide (i < length l)%nat) as [Hlt|Hge].
        -- rewrite lookup_app_l in Hi by done.
           apply list_elem_of_lookup_2 in Hi. destruct (Hy _ Hi). set_solver.
        -- apply lookup_lt_Some in Hi. rewrite length_app in Hi. simpl in Hi. lia.
    + rewrite IH by done. split.
      * intros Hi. rewrite lookup_app_l; [done|]. by eapply lookup_lt_Some.
      * intros Hi. destruct (decide (i < length l)%nat) as [Hlt|Hge].
        -- by rewrite lookup_app_l in Hi.
        -- rewrite lookup_app_r in Hi by lia.
           apply list_elem_of_lookup_2 in Hi. set_solver.
Qed.

(** Enumerating a set in a valid order labels it densely. *)
Lemma label_in_dense l (s : gset Z) :
  l ≡ₚ elements s → dense_labelling s (label_in l).
Proof.
  intros Hp.
  assert (NoDup l) as Hnd by (rewrite Hp; apply NoDup_elements).
  assert (length l = size s) as Hlen by (by rewrite Hp).
  assert (∀ x, x ∈ s ↔ x ∈ l) as Hin
    by (intros x; by rewrite Hp, elem_of_elements).
  assert (∀ x, x ∈ s → l !! label_in l x = Some x) as Hget.
  { intros x Hx. apply Hin, label_map_is_Some in Hx as [i Hi].
    unfold label_in. rewrite Hi. simpl. by apply label_map_lookup. }
  split; [|split].
  - intros x Hx. rewrite <- Hlen. eapply lookup_lt_Some, Hget, Hx.
  - intros x y Hx Hy Heq. apply Hget in Hx, Hy. rewrite Heq in Hx. congruence.
  - intros i Hi. rewrite <- Hlen in Hi.
    apply lookup_lt_is_Some in Hi as [x Hx]. exists x. split.
    + apply Hin. by eapply list_elem_of_lookup_2.
    + apply label_map_lookup in Hx; [|done]. unfold label_in. by rewrite Hx.
Qed.

Lemma ascending_iter_valid : valid_iter ascending_iter.
Proof. intros d s. unfold ascending_iter. apply merge_sort_Permutation. Qed.

End labelling.

(** ** Relabelling *)

Section relabelling.

Implicit Types (data : list record) (junk : list Z) (r : record).
Implicit Types (idm : gmap Z (gmap Z nat)) (num : gmap Z nat).

Lemma survivors_cons junk r data :
  survivors junk (r :: data)
  = if is_junk junk (rec_obj_id r) then survivors junk data
    else r :: survivors junk data.
Proof.
  unfold survivors, is_junk. rewrite filter_cons.
  destruct (decide (rec_obj_id r ∉ junk)) as [Hn|Hj].
  - by rewrite bool_decide_eq_false_2.
  - rewrite bool_decide_eq_true_2; [done|]. by apply dec_stable.
Qed.

Lemma survivors_app junk data1 data2 :
  survivors junk (data1 ++ data2) = survivors junk data1 ++ survivors junk data2.
Proof. apply filter_app. Qed.

Lemma survivors_not_junk junk data r :
  r ∈ survivors junk data → (rec_obj_id r ∉ junk) ∧ r ∈ data.
Proof. unfold survivors. rewrite list_elem_of_filter. tauto. Qed.

Lemma relabel_record_Ok b o r r' :
  relabel_record b o r = Ok r' ↔ is_dict r = b ∧ r' = with_obj_id o r.
Proof. destruct b, r; simpl; naive_solver. Qed.

(** When the loop of [_relabel] returns, it has relabelled exactly the records
    that are not skipped, and every lookup on them was defined. *)
Lemma relabel_loop_Ok b junk idm num data out :
  relabel_loop b junk idm num data = Ok out →
  out = relabel_one idm num <$> survivors junk data
  ∧ Forall (relabel_defined b idm num) (survivors junk data).
Proof.
  revert out. induction data as [|r data IH]; intros out; simpl.
  { intros [= <-]. split; [done|constructor]. }
  rewrite survivors_cons. destruct (is_junk junk (rec_obj_id r)); [apply IH|].
  unfold getitem.
  destruct (idm !! rec_dataset_id r) as [labels|] eqn:Hlabels; simpl; [|done].
  destruct (labels !! rec_obj_id r) as [label|] eqn:Hlabel; simpl; [|done].
  destruct (num !! rec_dataset_id r) as [n|] eqn:Hn; simpl; [|done].
  destruct (relabel_record b _ r) as [r'|] eqn:Hr; simpl; [|done].
  apply relabel_record_Ok in Hr as [Hb ->].
  destruct (relabel_loop b junk idm num data) as [out'|]; simpl; [|done].
  intros [= <-]. destruct (IH out' eq_refl) as [-> Hall].
  split.
  - f_equal. unfold relabel_one.
    rewrite Hlabels, Hn. simpl. by rewrite Hlabel.
  - constructor; [|done]. unfold relabel_defined.
    rewrite Hlabels, Hn. simpl. rewrite Hlabel. eauto.
Qed.

(** Conversely the loop returns whenever every lookup is defined. *)
Lemma relabel_loop_defined b junk idm num data :
  Forall (relabel_defined b idm num) (survivors junk data) →
  relabel_loop b junk idm num data
  = Ok (relabel_one idm num <$> survivors junk data).
Proof.
  induction data as [|r data IH]; simpl; [done|].
  rewrite survivors_cons. destruct (is_junk junk (rec_obj_id r)); [apply IH|].
  intros [(Hb & [n Hn] & Hl) Hall]%Forall_cons.
  unfold getitem. rewrite Hn.
  destruct (idm !! rec_dataset_id r) as [labels|] eqn:Hlabels; simpl in *;
    [|by destruct Hl].
  destruct Hl as [label Hl]. rewrite Hl. simpl.
  rewrite (proj2 (relabel_record_Ok b _ r _) (conj Hb eq_refl)). simpl.
  rewrite IH by done. simpl. do 2 f_equal. unfold relabel_one.
  rewrite Hlabels, Hn. simpl. by rewrite Hl.
Qed.

End relabelling.

(** ** Combination of the splits *)

Section combine.

Variable set_iter : Z → gset Z → list Z.

Implicit Types (data : list record) (junk : list Z) (r : record).
Implicit Types (num : gmap Z nat).

Lemma get_obj_ids_survivors data junk acc :
  get_obj_ids data junk acc
  = foldl (λ m r, set_add (rec_dataset_id r) (rec_obj_id r) m) acc
      (survivors junk data).
Proof.
  unfold get_obj_ids. revert acc.
  induction data as [|r data IH]; intros acc; simpl; [done|].
  rewrite survivors_cons. unfold obj_ids_step at 2.
  destruct (is_junk junk (rec_obj_id r)); simpl; apply IH.
Qed.

Lemma collected_lookup junk q g d :
  get_obj_ids g junk (get_obj_ids q junk ∅) !! d
  = if decide (filter (λ r, rec_dataset_id r = d)
                 (survivors junk q ++ survivors junk g) = [])
    then None else Some (new_ids junk q g d).
Proof.
  rewrite !get_obj_ids_survivors, <- foldl_app, fold_set_add_lookup.
  rewrite lookup_empty. simpl.
  destruct (decide _); [done|]. f_equal. unfold new_ids, ids_of. set_solver.
Qed.

Lemma collected_lookup_elem junk q g r :
  r ∈ survivors junk q ++ survivors junk g →
  get_obj_ids g junk (get_obj_ids q junk ∅) !! rec_dataset_id r
  = Some (new_ids junk q g (rec_dataset_id r))
  ∧ rec_obj_id r ∈ new_ids junk q g (rec_dataset_id r).
Proof.
  intros Hr.
  assert (r ∈ filter (λ r', rec_dataset_id r' = rec_dataset_id r)
                (survivors junk q ++ survivors junk g)) as Hf
    by (by apply list_elem_of_filter).
  split.
  - rewrite collected_lookup. destruct (decide _) as [Hnil|]; [|done].
    rewrite Hnil in Hf. by apply not_elem_of_nil in Hf.
  - unfold new_ids, ids_of. rewrite elem_of_list_to_set.
    by apply list_elem_of_fmap_2.
Qed.

(** On the records that are not skipped, the lookups in [id2label_map] give
    the label of the identity in the enumeration of its set. *)
Lemma id2label_lookup junk q g r :
  r ∈ survivors junk q ++ survivors junk g →
  make_id2label_map set_iter (get_obj_ids g junk (get_obj_ids q junk ∅))
    !! rec_dataset_id r ≫= (.!! rec_obj_id r)
  = label_map (set_iter (rec_dataset_id r) (new_ids junk q g (rec_dataset_id r)))
      !! rec_obj_id r.
Proof.
  intros [Hs _]%collected_lookup_elem. unfold make_id2label_map.
  rewrite map_lookup_imap, Hs. done.
Qed.

Lemma relabel_one_merged junk q g num r :
  r ∈ survivors junk q ++ survivors junk g →
  relabel_one
    (make_id2label_map set_iter (get_obj_ids g junk (get_obj_ids q junk ∅)))
    num r
  = merged_record set_iter junk q g num r.
Proof.
  intros Hr. unfold relabel_one, merged_record, new_label, label_in.
  by rewrite id2label_lookup.
Qed.

Lemma relabel_one_merged_query junk q g num :
  relabel_one
    (make_id2label_map set_iter (get_obj_ids g junk (get_obj_ids q junk ∅)))
    num <$> survivors junk q
  = merged_record set_iter junk q g num <$> survivors junk q.
Proof.
  apply list_fmap_ext. intros i r Hr%list_elem_of_lookup_2.
  apply relabel_one_merged. set_solver.
Qed.

Lemma relabel_one_merged_gallery junk q g num :
  relabel_one
    (make_id2label_map set_iter (get_obj_ids g junk (get_obj_ids q junk ∅)))
    num <$> survivors junk g
  = merged_record set_iter junk q g num <$> survivors junk g.
Proof.
  apply list_fmap_ext. intros i r Hr%list_elem_of_lookup_2.
  apply relabel_one_merged. set_solver.
Qed.

(** What [combine_all] assigns to [self.train] and [self.num_train_pids]
    whenever it returns. *)
Lemma combine_splits_Ok junk t q g num combined pids :
  combine_splits set_iter junk t q g num = Ok (combined, pids) →
  combined = t ++ (merged_record set_iter junk q g num <$> survivors junk q)
               ++ (merged_record set_iter junk q g num <$> survivors junk g)
  ∧ pids = get_num_pids combined
  ∧ (∀ r, r ∈ survivors junk q ++ survivors junk g →
          is_Some (num !! rec_dataset_id r)).
Proof.
  unfold combine_splits, relabel.
  destruct (relabel_loop _ junk _ num q) as [fq|] eqn:Hq; simpl; [|done].
  destruct (relabel_loop _ junk _ num g) as [fg|] eqn:Hg; simpl; [|done].
  apply relabel_loop_Ok in Hq as [-> Hdq], Hg as [-> Hdg].
  intros [= <- <-]. rewrite relabel_one_merged_query, relabel_one_merged_gallery.
  rewrite <- (assoc_L (++)). split; [done|]. split; [done|].
  intros r [Hr|Hr]%elem_of_app.
  - rewrite Forall_forall in Hdq. by destruct (Hdq r Hr) as (_ & ? & _).
  - rewrite Forall_forall in Hdg. by destruct (Hdg r Hr) as (_ & ? & _).
Qed.

(** [combine_all] returns whenever sets are enumerated in a valid order, the
    records of query and of gallery have the shape of the first record of
    their split, and the train split has an identity count for the dataset id
    of every record to merge. *)
Lemma combine_splits_defined junk t q g num :
  valid_iter set_iter →
  shape_of_first junk q → shape_of_first junk g →
  (∀ r, r ∈ survivors junk q ++ survivors junk g →
        is_Some (num !! rec_dataset_id r)) →
  combine_splits set_iter junk t q g num
  = Ok (t ++ (merged_record set_iter junk q g num <$> survivors junk q)
          ++ (merged_record set_iter junk q g num <$> survivors junk g),
        get_num_pids
          (t ++ (merged_record set_iter junk q g num <$> survivors junk q)
             ++ (merged_record set_iter junk q g num <$> survivors junk g))).
Proof.
  intros Hv Hsq Hsg Hnum. unfold combine_splits, relabel.
  assert (∀ b data, Forall (λ r, is_dict r = b) (survivors junk data) →
    (∀ r, r ∈ survivors junk data → r ∈ survivors junk q ++ survivors junk g) →
    Forall (relabel_defined b
      (make_id2label_map set_iter (get_obj_ids g junk (get_obj_ids q junk ∅)))
      num) (survivors junk data)) as Hdef.
  { intros b data Hshape Hsub. rewrite Forall_forall in Hshape |- *.
    intros r Hr. split; [by apply Hshape|]. split; [by apply Hnum, Hsub|].
    rewrite id2label_lookup by by apply Hsub.
    apply label_map_is_Some. rewrite (Hv _ _), elem_of_elements.
    by apply collected_lookup_elem, Hsub. }
  rewrite (relabel_loop_defined _ _ _ _ q); [|apply Hdef; [done|set_solver]].
  simpl.
  rewrite (relabel_loop_defined _ _ _ _ g); [|apply Hdef; [done|set_solver]].
  simpl. rewrite relabel_one_merged_query, relabel_one_merged_gallery.
  by rewrite <- (assoc_L (++)).
Qed.

End combine.

(** ** [combine_all] *)

Section combine_all_properties.

Variable set_iter : Z → gset Z → list Z.

Implicit Types (d : dataset) (r : record).

Lemma combine_all_Ok d d' :
  combine_all set_iter d = Ok d' →
  combine_splits set_iter (junk_pids d) (train d) (query d) (gallery d)
    (num_train_pids d) = Ok (train d', num_train_pids d')
  ∧ query d' = query d ∧ gallery d' = gallery d
  ∧ junk_pids d' = junk_pids d ∧ num_train_cams d' = num_train_cams d.
Proof.
  unfold combine_all.
  destruct (combine_splits _ _ _ _ _ _) as [[combined pids]|]; simpl; [|done].
  by intros [= <-].
Qed.

Lemma merged_record_dataset_id junk q g num r :
  rec_dataset_id (merged_record set_iter junk q g num r) = rec_dataset_id r.
Proof. by destruct r. Qed.

Lemma merged_record_obj_id junk q g num r :
  rec_obj_id (merged_record set_iter junk q g num r)
  = Z.of_nat (new_label set_iter junk q g (rec_dataset_id r) (rec_obj_id r))
    + Z.of_nat (default 0%nat (num !! rec_dataset_id r)).
Proof. by destruct r. Qed.

(** The identity count of a dataset id that the split carries. *)
Lemma get_num_pids_default data r :
  r ∈ data →
  default 0%nat (get_num_pids data !! rec_dataset_id r)
  = distinct_count rec_obj_id (rec_dataset_id r) data.
Proof.
  intros Hr. rewrite get_num_pids_lookup, bool_decide_eq_true_2; [done|].
  by apply list_elem_of_fmap_2.
Qed.

Lemma get_num_pids_is_Some data k :
  is_Some (get_num_pids data !! k) ↔ k ∈ rec_dataset_id <$> data.
Proof.
  rewrite get_num_pids_lookup. case_bool_decide; split; try done; eauto.
Qed.


(** C3 (amended): if the identity ids of the train split are, for every
    dataset id, smaller than the number of distinct train identities of that
    dataset id (as dense zero-based ids are), then after [combine_all] no
    record appended from query or gallery has the identity id of an original
    train record of the same dataset id. *)
Theorem combine_all_no_collision d d' :
  num_train_pids d = get_num_pids (train d) →
  (∀ t, t ∈ train d →
        rec_obj_id t
        < Z.of_nat (distinct_count rec_obj_id (rec_dataset_id t) (train d))) →
  combine_all set_iter d = Ok d' →
  ∃ appended,
    train d' = train d ++ appended
    ∧ ∀ r t, r ∈ appended → t ∈ train d →
             rec_dataset_id r = rec_dataset_id t →
             rec_obj_id r ≠ rec_obj_id t.
Proof.
  intros Hinv Hdense [Hc _]%combine_all_Ok.
  apply combine_splits_Ok in Hc as (Ht & _ & Hnum).
  eexists. split; [exact Ht|]. intros r' t Hr' Ht' Hds.
  assert (∃ r, r ∈ survivors (junk_pids d) (query d)
                     ++ survivors (junk_pids d) (gallery d)
               ∧ r' = merged_record set_iter (junk_pids d) (query d)
                        (gallery d) (num_train_pids d) r) as (r & Hr & ->).
  { apply elem_of_app in Hr' as [Hr'|Hr'];
      apply list_elem_of_fmap in Hr' as (r & -> & Hr); exists r;
      (split; [set_solver|done]). }
  rewrite merged_record_dataset_id in Hds.
  rewrite merged_record_obj_id, Hinv, Hds, (get_num_pids_default _ _ Ht').
  specialize (Hdense t Ht'). lia.
Qed.

(** C6: whenever [combine_all] returns, the records it appends to the train
    split are, in order, the relabelled copies of exactly those query records
    and then those gallery records whose identity is not in [_junk_pids]: no
    query or gallery record with a junk identity is added. *)
Theorem combine_all_drops_junk d d' :
  combine_all set_iter d = Ok d' →
  ∃ from_query from_gallery,
    train d' = train d ++ from_query ++ from_gallery
    ∧ Forall2 (λ r r', ∃ o, r' = with_obj_id o r)
        (filter (λ r, rec_obj_id r ∉ junk_pids d) (query d)) from_query
    ∧ Forall2 (λ r r', ∃ o, r' = with_obj_id o r)
        (filter (λ r, rec_obj_id r ∉ junk_pids d) (gallery d)) from_gallery.
Proof.
  intros [Hc _]%combine_all_Ok.
  apply combine_splits_Ok in Hc as (Ht & _ & _).
  eexists _, _. split; [exact Ht|].
  split; apply Forall2_fmap_r, Forall_Forall2_diag, Forall_forall;
    intros r _; unfold merged_record; eauto.
Qed.

End combine_all_properties.

(** ** [combine_all] on the example datasets *)



(** In the example of the specification the two appended identities are 1
    and 2 in whichever valid order the set [{1, 2}] is visited. *)
Lemma three_ids_any_order set_iter :
  valid_iter set_iter →
  ∃ d' i j,
    combine_all set_iter three_ids_dataset = Ok d'
    ∧ rec_obj_id <$> train d' = [0; i; j]
    ∧ (i = 1 ∧ j = 2 ∨ i = 2 ∧ j = 1).
Proof.
  intros Hv.
  pose proof (combine_splits_defined set_iter [] (train three_ids_dataset)
    (query three_ids_dataset) (gallery three_ids_dataset)
    (num_train_pids three_ids_dataset) Hv) as Hc.
  unfold combine_all. simpl junk_pids. rewrite Hc; clear Hc.
  - eexists _, _, _. split; [reflexivity|]. split; [reflexivity|].
    rewrite !merged_record_obj_id. unfold new_label.
    cbn [rec_dataset_id rec_obj_id].
    assert (new_ids [] (query three_ids_dataset)
              (gallery three_ids_dataset) 0 = {[1; 2]}) as Hs
      by (vm_compute; reflexivity).
    pose proof (label_in_dense _ _ (Hv 0 {[1; 2]})) as (Hlt & Hinj & _).
    rewrite Hs.
    change (num_train_pids three_ids_dataset !! 0) with (Some 1%nat).
    cbn [default].
    assert (size ({[1; 2]} : gset Z) = 2%nat) as Hsz
      by (vm_compute; reflexivity).
    pose proof (Hlt 1 ltac:(set_solver)) as H1.
    pose proof (Hlt 2 ltac:(set_solver)) as H2.
    pose proof (Hinj 1 2 ltac:(set_solver) ltac:(set_solver)) as H12.
    rewrite Hsz in H1, H2.
    destruct (decide (label_in (set_iter 0 {[1; 2]}) 1
                      = label_in (set_iter 0 {[1; 2]}) 2)) as [Heq|Hne];
      [by apply H12 in Heq|].
    unfold id. lia.
  - unfold shape_of_first. vm_compute survivors. repeat constructor.
  - unfold shape_of_first. vm_compute survivors. repeat constructor.
  - intros r Hr. exists 1%nat.
    apply elem_of_app in Hr as [Hr|Hr]; apply survivors_not_junk in Hr as [_ Hr];
      apply list_elem_of_singleton in Hr as ->; vm_compute; reflexivity.
Qed.

(** Counterexample to C3 as stated: the train split holds the single identity
    1; the identity 7 of query and gallery gets label 0, the offset is the
    one train identity, and the appended records carry identity 1 under the
    dataset id of the train record. *)
Lemma combine_all_sparse_train_collides :
  ∃ d' r t,
    combine_all ascending_iter sparse_train_dataset = Ok d'
    ∧ train d' = train sparse_train_dataset
                 ++ [Tuple (Image "query.jpg") 1 0 [];
                     Tuple (Image "gallery.jpg") 1 1 []]
    ∧ r ∈ [Tuple (Image "query.jpg") 1 0 []; Tuple (Image "gallery.jpg") 1 1 []]
    ∧ t ∈ train sparse_train_dataset
    ∧ rec_dataset_id r = rec_dataset_id t
    ∧ rec_obj_id r = rec_obj_id t.
Proof.
  eexists _, (Tuple (Image "query.jpg") 1 0 []),
    (Tuple (Image "train.jpg") 1 0 []).
  split; [vm_compute; reflexivity|]. split; [reflexivity|].
  split; [left|]. split; [left|]. done.
Qed.

Lemma combine_all_no_collision_witness :
  ∃ d' appended,
    combine_all ascending_iter three_ids_dataset = Ok d'
    ∧ train d' = train three_ids_dataset ++ appended
    ∧ ∀ r t, r ∈ appended → t ∈ train three_ids_dataset →
             rec_dataset_id r = rec_dataset_id t →
             rec_obj_id r ≠ rec_obj_id t.
Proof.
  assert (∃ d', combine_all ascending_iter three_ids_dataset = Ok d')
    as [d' Hc] by (eexists; vm_compute; reflexivity).
  destruct (combine_all_no_collision ascending_iter three_ids_dataset d')
    as (appended & Ht & Hno).
  - reflexivity.
  - intros t Ht%list_elem_of_singleton. subst t. vm_compute. reflexivity.
  - exact Hc.
  - exists d', appended. auto.
Defined.

Lemma combine_all_drops_junk_witness :
  ∃ d' from_query from_gallery,
    combine_all ascending_iter junk_dataset = Ok d'
    ∧ train d' = train junk_dataset ++ from_query ++ from_gallery
    ∧ Forall2 (λ r r', ∃ o, r' = with_obj_id o r)
        [Tuple (Image "q1.jpg") 4 0 []] from_query
    ∧ Forall2 (λ r r', ∃ o, r' = with_obj_id o r)
        [Tuple (Image "g1.jpg") 9 1 []] from_gallery.
Proof.
  assert (∃ d', combine_all ascending_iter junk_dataset = Ok d')
    as [d' Hc] by (eexists; vm_compute; reflexivity).
  destruct (combine_all_drops_junk ascending_iter junk_dataset d' Hc)
    as (fq & fg & Ht & Hq & Hg).
  exists d', fq, fg. auto.
Defined.

(** ** Sampling *)

Section sampling_properties.

Implicit Types (N L : nat).

(** The truncated length is a multiple of the target length, so the step of
    the source is an exact quotient. *)
Lemma truncated_multiple N L :
  (0 < L)%nat →
  (Z.of_nat N - Z.of_nat N `mod` Z.of_nat L) `mod` Z.of_nat L = 0.
Proof.
  intros HL. rewrite Zminus_mod_idemp_r, Z.sub_diag. apply Z.mod_0_l. lia.
Qed.

Lemma arange3_evenly N L :
  (0 < L)%nat → (L ≤ N)%nat →
  arange3 0 (Z.of_nat N - Z.of_nat N `mod` Z.of_nat L)
    ((Z.of_nat N - Z.of_nat N `mod` Z.of_nat L) / Z.of_nat L)
  = (λ i, Z.of_nat i * ((Z.of_nat N - Z.of_nat N `mod` Z.of_nat L)
                         / Z.of_nat L)) <$> seq 0 L.
Proof.
  intros HL HN. unfold arange3.
  set (l := Z.of_nat L). set (n := Z.of_nat N).
  assert (0 < l) as Hl by lia. assert (l ≤ n) as Hn by lia.
  assert (n - n `mod` l = l * (n / l)) as -> by (rewrite Z.mod_eq; lia).
  assert (l * (n / l) / l = n / l) as ->
    by (rewrite Z.mul_comm; apply Z.div_mul; lia).
  assert (1 ≤ n / l) as Hk by (apply Z.div_le_lower_bound; lia).
  set (k := n / l) in *.
  assert ((l * k - 0 + k - 1) / k = l) as ->.
  { replace (l * k - 0 + k - 1) with (k - 1 + l * k) by lia.
    rewrite Z.div_add by lia. rewrite Z.div_small by lia. lia. }
  unfold l. rewrite Nat2Z.id. apply list_fmap_ext. intros i x _. lia.
Qed.

Lemma evenly_spec_length N L : length (evenly_spec N L) = L.
Proof.
  unfold evenly_spec. destruct (decide (L ≤ N)%nat).
  - by rewrite length_fmap, length_seq.
  - rewrite length_app, length_fmap, length_seq, length_replicate. lia.
Qed.

(** C7: for a tracklet of [N >= 1] frames and a target length [L >= 1] the
    policy ['evenly'] returns the indices [0, N'/L, 2 N'/L, ...] ([L] of
    them, with [N' = N - N mod L]) when [N >= L], and the indices
    [0 .. N-1] followed by [N-1] repeated [L - N] times when [N < L]; the
    output has exactly [L] indices; [N = 10, L = 3] gives [[0;3;6]] and
    [N = 2, L = 5] gives [[0;1;1;1;1]]. *)
Theorem sample_evenly_spec N L :
  (1 ≤ N)%nat → (1 ≤ L)%nat →
  sample_evenly N L = Ok (evenly_spec N L)
  ∧ length (evenly_spec N L) = L
  ∧ sample_evenly 10 3 = Ok [0; 3; 6]
  ∧ sample_evenly 2 5 = Ok [0; 1; 1; 1; 1].
Proof.
  intros HN HL. split; [|split; [apply evenly_spec_length|]].
  - pose proof (evenly_spec_length N L) as Hlen.
    unfold sample_evenly, evenly_spec in *.
    destruct (decide (L ≤ N)%nat) as [Hle|Hgt].
    + rewrite decide_False by lia. rewrite arange3_evenly by lia. simpl.
      by rewrite decide_True.
    + simpl. unfold arange. by rewrite decide_True.
  - split; vm_compute; reflexivity.
Qed.

End sampling_properties.

Lemma sample_evenly_spec_witness :
  sample_evenly 10 3 = Ok (evenly_spec 10 3)
  ∧ evenly_spec 10 3 = [0; 3; 6]
  ∧ length (evenly_spec 10 3) = 3%nat.
Proof.
  destruct (sample_evenly_spec 10 3) as (H & Hlen & _); [lia|lia|].
  split; [exact H|]. split; [reflexivity|exact Hlen].
Defined.

(** ** Unrecognized policies and modes *)

Section invalid_configuration.

Variable set_iter : Z → gset Z → list Z.
Variable choice : nat → nat → bool → option (list Z).

Lemma sample_evenly_raises N L e :
  sample_evenly N L = Raise e → e = AssertionError ∨ e = ZeroDivisionError.
Proof.
  unfold sample_evenly.
  destruct (decide (L ≤ N)%nat); [destruct (decide (L = 0%nat))|]; simpl;
    try (intros [= <-]; by right);
    destruct (decide _); try done; intros [= <-]; by left.
Qed.

Lemma sample_indices_unknown m N L :
  m ∉ policies →
  sample_indices choice m N L = Raise (ValueError (unknown_method_msg m)).
Proof.
  unfold policies, sample_indices. intros Hm.
  repeat (destruct (decide _) as [->|?]; [set_solver|]). done.
Qed.

Lemma sample_indices_known m m' N L :
  m ∈ policies →
  sample_indices choice m N L ≠ Raise (ValueError (unknown_method_msg m')).
Proof.
  unfold policies, sample_indices. intros Hm.
  destruct (decide (m = "random")) as [->|?].
  { simpl. destruct (choice _ _ _); [done|]. intros [=]. }
  destruct (decide (m = "evenly")) as [->|?].
  { intros [?|?]%sample_evenly_raises; done. }
  destruct (decide (m = "all")) as [->|?]; [done|]. set_solver.
Qed.

Lemma select_data_invalid m t q g :
  m ∉ modes → select_data m t q g = Raise (ValueError (invalid_mode_msg m)).
Proof.
  unfold modes, select_data. intros Hm.
  repeat (destruct (decide _) as [->|?]; [set_solver|]). done.
Qed.

Lemma select_data_valid m t q g :
  m ∈ modes → ∃ selected, select_data m t q g = Ok selected.
Proof.
  unfold modes, select_data. intros Hm.
  repeat (destruct (decide _) as [->|?]; [eauto|]). set_solver.
Qed.

Lemma relabel_loop_raises b junk idm num data e :
  relabel_loop b junk idm num data = Raise e → e = KeyError ∨ e = TypeError.
Proof.
  induction data as [|r data IH]; simpl; [done|].
  destruct (is_junk junk (rec_obj_id r)); [done|]. unfold getitem.
  destruct (idm !! rec_dataset_id r) as [labels|]; simpl;
    [|intros [= <-]; by left].
  destruct (labels !! rec_obj_id r) as [label|]; simpl;
    [|intros [= <-]; by left].
  destruct (num !! rec_dataset_id r) as [n|]; simpl;
    [|intros [= <-]; by left].
  destruct (relabel_record b _ r) as [r'|e'] eqn:Hr; simpl.
  - destruct (relabel_loop b junk idm num data); simpl; [done|].
    intros [= <-]. by apply IH.
  - intros [= <-]. destruct b, r; simpl in Hr; try done;
      injection Hr as <-; by right.
Qed.

Lemma combine_all_raises d e :
  combine_all set_iter d = Raise e → e = KeyError ∨ e = TypeError.
Proof.
  unfold combine_all, combine_splits, relabel.
  destruct (relabel_loop _ _ _ _ (query d)) eqn:Hq; simpl.
  - destruct (relabel_loop _ _ _ _ (gallery d)) eqn:Hg; simpl; [done|].
    intros [= <-]. by eapply relabel_loop_raises.
  - intros [= <-]. by eapply relabel_loop_raises.
Qed.

(** C9 (amended): an unrecognized policy name makes the index resolution
    raise the unknown-method [ValueError] and yield no indices; an
    unrecognized mode makes the construction of a dataset fail, with the
    invalid-mode [ValueError] unless [combineall] is set and [combine_all],
    which runs first, has already failed, in which case that error is the
    one raised; for a recognized policy or mode neither [ValueError] is
    raised. *)
Theorem invalid_configuration_errors :
  (∀ m N L, m ∉ policies →
     sample_indices choice m N L = Raise (ValueError (unknown_method_msg m)))
  ∧ (∀ m m' N L, m ∈ policies →
     sample_indices choice m N L ≠ Raise (ValueError (unknown_method_msg m')))
  ∧ (∀ c junk t q g tr m (ca v : bool), m ∉ modes →
     match (if ca then combine_all set_iter (init_self c junk t q g tr m ca v)
            else Ok (init_self c junk t q g tr m ca v)) with
     | Ok _ =>
       dataset_init set_iter c junk t q g tr m ca v
       = Raise (ValueError (invalid_mode_msg m))
     | Raise e => dataset_init set_iter c junk t q g tr m ca v = Raise e
     end)
  ∧ (∀ c junk t q g tr m m' (ca v : bool), m ∈ modes →
     dataset_init set_iter c junk t q g tr m ca v
     ≠ Raise (ValueError (invalid_mode_msg m'))).
Proof.
  split; [apply sample_indices_unknown|].
  split; [apply sample_indices_known|]. split.
  - intros c junk t q g tr m ca v Hm. unfold dataset_init.
    destruct (if ca then _ else _) as [self|e]; simpl; [|done].
    by rewrite select_data_invalid.
  - intros c junk t q g tr m m' ca v Hm. unfold dataset_init.
    destruct (if ca then _ else _) as [self|e] eqn:Hself; simpl.
    + destruct (select_data_valid m (train self) (query self) (gallery self) Hm)
        as [sel ->]. simpl.
      destruct (if v then _ else _) as [[]|e] eqn:Hv; simpl; [done|].
      destruct v; [|done]. destruct c; simpl in Hv; congruence.
    + destruct ca; [|done].
      apply combine_all_raises in Hself as [->| ->]; done.
Qed.

End invalid_configuration.

(** ** Addition of datasets *)

Section addition.

Variable set_iter : Z → gset Z → list Z.

Implicit Types (a b c d : dataset) (r : record).

Lemma add_record_offset a r :
  add_record a r
  = offset_record
      (Z.of_nat (default 0%nat (num_train_pids a !! rec_dataset_id r)))
      (Z.of_nat (default 0%nat (num_train_cams a !! rec_dataset_id r))) r.
Proof. by destruct r. Qed.

Lemma dataset_init_plain cl junk t q g tr m :
  dataset_init set_iter cl junk t q g tr m false false
  = selected ← select_data m t q g;
    Ok {| cls := cl; junk_pids := junk; train := t; query := q; gallery := g;
          transform := tr; mode := m; combineall := false; verbose := false;
          num_train_pids := get_num_pids t; num_train_cams := get_num_cams t;
          data_counts := get_data_counts t; data := selected |}.
Proof. unfold dataset_init. simpl. by destruct (select_data m t q g). Qed.

Lemma dataset_init_plain_raises cl junk t q g tr m e :
  dataset_init set_iter cl junk t q g tr m false false = Raise e →
  e = ValueError (invalid_mode_msg m).
Proof.
  rewrite dataset_init_plain. unfold select_data.
  repeat (destruct (decide _); [done|]). simpl. by intros [= <-].
Qed.

Lemma dataset_init_plain_train cl junk t q g tr m d :
  dataset_init set_iter cl junk t q g tr m false false = Ok d → train d = t.
Proof.
  rewrite dataset_init_plain. destruct (select_data m t q g); simpl; [|done].
  by intros [= <-].
Qed.

(** Whenever [a + b] returns, the train split of the result is
    [updated_train]. *)
Lemma add_Ok_train a b c :
  add set_iter a b = Ok c → train c = updated_train a b.
Proof.
  unfold add. destruct (updated_train a b) as [|first ut] eqn:Hut; [done|].
  destruct (rec_media first).
  - apply dataset_init_plain_train.
  - destruct (cls a) as [| |seq_len sample_method]; try done.
    unfold video_dataset_init.
    destruct (dataset_init _ _ _ _ _ _ _ _ _ _) as [d|] eqn:Hd; simpl; [|done].
    destruct (transform a); [|done]. intros [= <-].
    by eapply dataset_init_plain_train.
Qed.

Lemma add_defined_Ok a b : add_defined a b → ∃ c, add set_iter a b = Ok c.
Proof.
  intros [Hm Hfirst]. unfold add.
  destruct (updated_train a b) as [|first ut]; [done|].
  destruct (select_data_valid (mode a) (first :: ut) (query a) (gallery a) Hm)
    as [sel Hsel].
  destruct (rec_media first).
  - unfold image_dataset_init. rewrite dataset_init_plain, Hsel. simpl. eauto.
  - destruct Hfirst as [(seq_len & sample_method & ->) [tr Htr]].
    unfold video_dataset_init. rewrite dataset_init_plain, Hsel, Htr. simpl.
    eauto.
Qed.

Lemma updated_train_nil a b :
  updated_train a b = [] ↔ train a = [] ∧ train b = [].
Proof.
  unfold updated_train. split.
  - intros [-> Hb]%app_eq_nil. by apply fmap_nil_inv in Hb.
  - by intros [-> ->].
Qed.

Lemma add_IndexError a b :
  add set_iter a b = Raise IndexError ↔ train a = [] ∧ train b = [].
Proof.
  rewrite <- updated_train_nil. unfold add.
  destruct (updated_train a b) as [|first ut]; [done|].
  split; [|done]. destruct (rec_media first).
  - by intros ?%dataset_init_plain_raises.
  - destruct (cls a) as [| |seq_len sample_method]; try done.
    unfold video_dataset_init.
    destruct (dataset_init _ _ _ _ _ _ _ _ _ _) as [d|] eqn:Hd; simpl.
    + by destruct (transform a).
    + apply dataset_init_plain_raises in Hd as ->. done.
Qed.

Lemma dom_get_num_pids data : dom (get_num_pids data) = list_to_set (rec_dataset_id <$> data).
Proof.
  apply set_eq. intros k.
  by rewrite elem_of_dom, get_num_pids_is_Some, elem_of_list_to_set.
Qed.

Lemma dom_get_num_cams data : dom (get_num_cams data) = list_to_set (rec_dataset_id <$> data).
Proof.
  apply set_eq. intros k.
  rewrite elem_of_dom, get_num_cams_lookup, elem_of_list_to_set.
  case_bool_decide; split; try done; eauto.
Qed.

(** The constructor establishes [indexed]. *)
Lemma dataset_init_indexed cl junk t q g tr m ca v d :
  dataset_init set_iter cl junk t q g tr m ca v = Ok d → indexed d.
Proof.
  unfold dataset_init.
  destruct (if ca then _ else _) as [self|] eqn:Hself; simpl; [|done].
  destruct (select_data m _ _ _); simpl; [|done].
  destruct (if v then _ else _); simpl; [|done].
  intros [= <-]. unfold indexed. simpl.
  destruct ca.
  - apply combine_all_Ok in Hself as (Hc & _ & _ & _ & Hcams).
    apply combine_splits_Ok in Hc as (Ht & Hp & _).
    split; [done|]. rewrite Hcams, Hp, Ht. simpl.
    rewrite dom_get_num_cams, dom_get_num_pids, fmap_app. set_solver.
  - injection Hself as <-. simpl.
    by rewrite dom_get_num_cams, dom_get_num_pids.
Qed.

End addition.

(** ** Addition on the example datasets *)

Lemma five_ids_indexed : indexed five_ids_dataset.
Proof. split; [reflexivity|]. vm_compute. set_solver. Qed.

Lemma five_ids_constructed :
  dataset_init ascending_iter ImageDataset [] five_ids_train [] [] None
    "train" false false = Ok five_ids_dataset
  ∧ dataset_init ascending_iter ImageDataset [] one_id_train [] [] None
      "train" false false = Ok one_id_dataset
  ∧ dataset_init ascending_iter ImageDataset [] []
      [classification_record "q.jpg" 3 0] [] None "query" false false
    = Ok query_only_dataset.
Proof. repeat split; vm_compute; reflexivity. Qed.

(** ** Unrecognized modes on the example datasets *)

(** Counterexample to C9 as stated: with [combineall] set, [combine_all]
    runs before the mode is examined; on records whose dataset id has no
    train record it raises [KeyError], and the constructor called with the
    unrecognized mode ['test'] raises that [KeyError], not the invalid-mode
    [ValueError]. *)
Lemma invalid_mode_behind_combine_all :
  ("test" ∉ modes)
  ∧ dataset_init ascending_iter ImageDataset []
      (train unseen_id_dataset) (query unseen_id_dataset)
      (gallery unseen_id_dataset) None "test" true false
    = Raise KeyError.
Proof. split; [unfold modes; set_solver|vm_compute; reflexivity]. Qed.

Lemma invalid_configuration_errors_witness :
  sample_indices (λ _ _ _, None) "unknown" 7 3
  = Raise (ValueError "Unknown sample method: unknown")
  ∧ sample_indices (λ _ _ _, None) "all" 7 3 = Ok [0; 1; 2; 3; 4; 5; 6]
  ∧ dataset_init ascending_iter ImageDataset [] five_ids_train [] [] None
      "test" false false
    = Raise (ValueError
        "Invalid mode. Got test, but expected to be one of [train | query | gallery]").
Proof.
  destruct (invalid_configuration_errors ascending_iter (λ _ _ _, None))
    as (Hunknown & _ & Hmode & _).
  split.
  - apply (Hunknown "unknown" 7%nat 3%nat). unfold policies. set_solver.
  - split; [reflexivity|].
    apply (Hmode ImageDataset [] five_ids_train [] [] None "test" false false).
    unfold modes. set_solver.
Defined.

(** ** Tuple records *)

Section tuple_records.

Implicit Types (data : list record) (r : record).

Lemma same_but_rest_fields r r' :
  same_but_rest r r' →
  rec_dataset_id r = 0 ∧ rec_dataset_id r' = 0
  ∧ rec_obj_id r = rec_obj_id r' ∧ rec_cam_id r = rec_cam_id r'.
Proof. by intros (m & p & c & rest & rest' & -> & ->). Qed.

Lemma foldl_same_but_rest {A} (f : A → record → A) data data' acc :
  (∀ x r r', same_but_rest r r' → f x r = f x r') →
  Forall2 same_but_rest data data' →
  foldl f acc data = foldl f acc data'.
Proof.
  intros Hf Hall. revert acc.
  induction Hall as [|r r' data data' Hr _ IH]; intros acc; simpl; [done|].
  by rewrite (Hf acc r r' Hr), IH.
Qed.

Lemma foldl_dom_tuples {V} (f : gmap Z V → record → gmap Z V) data acc :
  (∀ m r, is_dict r = false → dom (f m r) ⊆ dom m ∪ {[0]}) →
  Forall (λ r, is_dict r = false) data →
  dom (foldl f acc data) ⊆ dom acc ∪ {[0]}.
Proof.
  intros Hf Hall. revert acc.
  induction Hall as [|r data Hr _ IH]; intros acc; simpl; [set_solver|].
  specialize (IH (f acc r)). specialize (Hf acc r Hr). set_solver.
Qed.

Lemma set_add_dom k x (m : gmap Z (gset Z)) : dom (set_add k x m) = dom m ∪ {[k]}.
Proof. unfold set_add. rewrite dom_insert_L. set_solver. Qed.

End tuple_records.

(** ** Mutation and aliasing of dict records *)

Section store.

Implicit Types (h : heap) (l : loc) (xs : list ref_record).

Lemma extends_refl h : extends h h.
Proof. by intros l _. Qed.

Lemma extends_dom h h' l : extends h h' → l ∈ dom h → l ∈ dom h'.
Proof.
  intros He Hl. apply elem_of_dom. rewrite (He l Hl). by apply elem_of_dom.
Qed.

Lemma extends_trans h1 h2 h3 : extends h1 h2 → extends h2 h3 → extends h1 h3.
Proof.
  intros H12 H23 l Hl. rewrite <- (H12 l Hl). apply H23.
  by eapply extends_dom.
Qed.

Lemma extends_insert_fresh h o : extends h (<[fresh (dom h) := o]> h).
Proof.
  intros l Hl. apply lookup_insert_ne. intros <-. by apply is_fresh in Hl.
Qed.

Lemma extends_read h h' x :
  extends h h' → (∀ l, x = DictRef l → l ∈ dom h) → read h' x = read h x.
Proof.
  intros He Hx. destruct x as [|l]; [done|]. simpl.
  by rewrite !lookup_total_alt, (He l (Hx l eq_refl)).
Qed.

Lemma frame_ret {A} (a : A) : frame (mret a : st A).
Proof. intros h. apply extends_refl. Qed.

Lemma frame_lift {A} (r : result A) : frame (lift r).
Proof. intros h. apply extends_refl. Qed.

Lemma frame_get_heap : frame get_heap.
Proof. intros h. apply extends_refl. Qed.

Lemma frame_alloc o : frame (alloc o).
Proof. intros h. apply extends_insert_fresh. Qed.

Lemma frame_bind {A B} (c : st A) (k : A → st B) :
  frame c → (∀ a, frame (k a)) → frame (c ≫= k).
Proof.
  intros Hc Hk h. specialize (Hc h). unfold mbind, st_bind.
  destruct (c h) as [h' [a|e]]; simpl in *; [|done].
  eapply extends_trans; [done|apply Hk].
Qed.

Lemma frame_deepcopy_records memo xs : frame (deepcopy_records memo xs).
Proof.
  revert memo. induction xs as [|[m p c rest|l] xs IH]; intros memo; simpl.
  - apply frame_ret.
  - apply frame_bind; [apply IH|]. intros ys. apply frame_ret.
  - destruct (memo !! l) as [l'|].
    + apply frame_bind; [apply IH|]. intros ys. apply frame_ret.
    + apply frame_bind; [apply frame_get_heap|]. intros h.
      apply frame_bind; [apply frame_alloc|]. intros l'.
      apply frame_bind; [apply IH|]. intros ys. apply frame_ret.
Qed.

(** The dict branch of [_relabel] assigns the new identity to the copy it
    has just made, not to the record of the split. *)
Lemma frame_relabel_record_st b o x : frame (relabel_record_st b o x).
Proof.
  destruct b, x as [m p c rest|l]; simpl;
    try apply frame_ret; try apply frame_lift.
  intros h l0 Hl0. simpl.
  assert (l0 ≠ fresh (dom h)) as Hne
    by (intros ->; by apply is_fresh in Hl0).
  by rewrite !lookup_insert_ne.
Qed.

Lemma frame_relabel_loop_st b junk idm num xs :
  frame (relabel_loop_st b junk idm num xs).
Proof.
  induction xs as [|x xs IH]; simpl; [apply frame_ret|].
  apply frame_bind; [apply frame_get_heap|]. intros h.
  destruct (is_junk junk _); [apply IH|].
  apply frame_bind; [apply frame_lift|]. intros labels.
  apply frame_bind; [apply frame_lift|]. intros label.
  apply frame_bind; [apply frame_lift|]. intros n.
  apply frame_bind; [apply frame_relabel_record_st|]. intros out_record.
  apply frame_bind; [apply IH|]. intros out_data. apply frame_ret.
Qed.

(** [combine_all] changes no dict object of the store: the records of
    train, query and gallery have the entries they had, whether the
    combination returns or raises. *)
Lemma frame_combine_train_st set_iter junk t q g num :
  frame (combine_train_st set_iter junk t q g num).
Proof.
  unfold combine_train_st, deepcopy, relabel_st.
  apply frame_bind; [apply frame_deepcopy_records|]. intros combined.
  apply frame_bind; [apply frame_get_heap|]. intros h.
  apply frame_bind; [apply frame_relabel_loop_st|]. intros from_query.
  apply frame_bind; [apply frame_relabel_loop_st|]. intros from_gallery.
  apply frame_ret.
Qed.

Lemma combine_train_st_reads set_iter junk t q g num h xs :
  Forall (λ l, l ∈ dom h) (locs xs) →
  read (combine_train_st set_iter junk t q g num h).1 <$> xs = read h <$> xs.
Proof.
  intros Hall. apply list_fmap_ext. intros i x Hx%list_elem_of_lookup_2.
  apply extends_read; [apply frame_combine_train_st|].
  intros l ->. rewrite Forall_forall in Hall. apply Hall.
  unfold locs. apply list_elem_of_omap. eauto.
Qed.

Lemma elem_of_locs l xs : l ∈ locs xs ↔ DictRef l ∈ xs.
Proof.
  unfold locs. rewrite list_elem_of_omap. split.
  - intros ([m p c rest|l'] & Hx & Heq); [done|]. by injection Heq as ->.
  - intros Hx. by exists (DictRef l).
Qed.

Lemma locs_cons_dict l xs : locs (DictRef l :: xs) = l :: locs xs.
Proof. done. Qed.

Lemma locs_cons_tuple m p c rest xs : locs (TupleVal m p c rest :: xs) = locs xs.
Proof. done. Qed.

Lemma read_fmap_ext h h' xs :
  (∀ l, l ∈ locs xs → h' !!! l = h !!! l) → read h' <$> xs = read h <$> xs.
Proof.
  intros Heq. apply list_fmap_ext. intros i [m p c rest|l] Hx; [done|].
  simpl. rewrite Heq; [done|]. apply elem_of_locs. by eapply list_elem_of_lookup_2.
Qed.

Lemma extends_total h h' l : extends h h' → l ∈ dom h → h' !!! l = h !!! l.
Proof. intros He Hl. by rewrite !lookup_total_alt, (He l Hl). Qed.

(** [copy.deepcopy] returns a list of new objects with the entries of the
    originals; [memo] holds the copies made so far. *)
Lemma deepcopy_records_spec xs memo h :
  (∀ l l', memo !! l = Some l' → l ∈ dom h ∧ l' ∈ dom h ∧ h !!! l' = h !!! l) →
  Forall (λ l, l ∈ dom h) (locs xs) →
  ∃ h1 ys,
    deepcopy_records memo xs h = (h1, Ok ys)
    ∧ extends h h1
    ∧ read h1 <$> ys = read h <$> xs
    ∧ Forall (λ l, l ∈ dom h1) (locs ys)
    ∧ Forall (λ l, l ∉ dom h ∨ ∃ l0, memo !! l0 = Some l) (locs ys).
Proof.
  revert memo h. induction xs as [|[m p c rest|l] xs IH]; intros memo h Hmemo Hin.
  - exists h, []. simpl. repeat split; try done; apply extends_refl.
  - destruct (IH memo h Hmemo Hin) as (h1 & ys & Hrun & He & Hread & Hd & Hf).
    exists h1, (TupleVal m p c rest :: ys).
    split; [simpl; unfold mbind, st_bind; by rewrite Hrun|].
    split; [done|]. split; [|done]. by rewrite !fmap_cons, Hread.
  - rewrite locs_cons_dict in Hin. apply Forall_cons in Hin as [Hl Hin].
    destruct (memo !! l) as [l'|] eqn:Hml.
    + destruct (IH memo h Hmemo Hin) as (h1 & ys & Hrun & He & Hread & Hd & Hf).
      destruct (Hmemo l l' Hml) as (_ & Hl' & Heq).
      exists h1, (DictRef l' :: ys).
      split; [simpl; rewrite Hml; unfold mbind, st_bind; by rewrite Hrun|].
      split; [done|]. split; [|split].
      * rewrite !fmap_cons, Hread. f_equal. simpl.
        by rewrite (extends_total h h1 l' He Hl'), Heq.
      * rewrite locs_cons_dict. constructor; [by eapply extends_dom|done].
      * rewrite locs_cons_dict. constructor; [right; eauto|done].
    + set (l' := fresh (dom h)). set (h2 := <[l' := h !!! l]> h).
      assert (extends h h2) as He2 by apply extends_insert_fresh.
      assert (l' ∉ dom h) as Hfresh by apply is_fresh.
      assert (l' ∈ dom h2) as Hl'
        by (unfold h2; rewrite dom_insert_L; set_solver).
      destruct (IH (<[l := l']> memo) h2)
        as (h1 & ys & Hrun & He & Hread & Hd & Hf).
      { intros l0 l0'. rewrite lookup_insert. case_decide as Hcase.
        - intros [= <-]. subst l0. split; [by eapply extends_dom|].
          split; [done|]. unfold h2 at 1. rewrite lookup_total_insert_eq.
          by rewrite (extends_total h _ l He2 Hl).
        - intros Hm. destruct (Hmemo l0 l0' Hm) as (H0 & H0' & Heq).
          split; [by eapply extends_dom|]. split; [by eapply extends_dom|].
          by rewrite (extends_total h h2 l0' He2 H0'),
            (extends_total h h2 l0 He2 H0). }
      { eapply Forall_impl; [exact Hin|]. intros l0 ?. by eapply extends_dom. }
      exists h1, (DictRef l' :: ys).
      split.
      { simpl. rewrite Hml. unfold mbind, st_bind, get_heap, alloc.
        fold l' h2. by rewrite Hrun. }
      split; [by eapply extends_trans|]. split; [|split].
      * rewrite !fmap_cons, Hread. f_equal.
        -- simpl. rewrite (extends_total h2 h1 l' He Hl').
           unfold h2. by rewrite lookup_total_insert_eq.
        -- apply read_fmap_ext. intros l0 Hl0. rewrite Forall_forall in Hin.
           by apply extends_total, Hin.
      * rewrite locs_cons_dict. constructor; [by eapply extends_dom|done].
      * rewrite locs_cons_dict. constructor; [by left|].
        eapply Forall_impl; [exact Hf|]. intros l0 [Hn|[l1 Hl1]].
        -- left. intros Hc. apply Hn. by eapply extends_dom.
        -- rewrite lookup_insert in Hl1. case_decide.
           ++ injection Hl1 as <-. by left.
           ++ right. eauto.
Qed.

(** What the loop of [__add__] does to the store when no dict object occurs
    twice in [other.train]: every dict object of [other.train] is assigned
    its shifted ids in place and is itself appended, and no other object
    changes. *)
Lemma add_loop_st_spec a other h acc :
  NoDup (locs other) →
  Forall (λ l, l ∈ dom h) (locs other) →
  ∃ h' ys,
    add_loop_st a other acc h = (h', Ok (acc ++ ys))
    ∧ locs ys = locs other
    ∧ read h' <$> ys = add_record a <$> (read h <$> other)
    ∧ (∀ l, l ∈ dom h → l ∉ locs other → h' !! l = h !! l)
    ∧ dom h ⊆ dom h'.
Proof.
  revert h acc. induction other as [|[m p c rest|l] other IH];
    intros h acc Hnd Hin.
  - exists h, []. simpl. rewrite app_nil_r. done.
  - rewrite locs_cons_tuple in Hnd, Hin.
    destruct (IH h (acc ++ [TupleVal m (p + Z.of_nat (default 0%nat
                 (num_train_pids a !! 0))) (c + Z.of_nat (default 0%nat
                 (num_train_cams a !! 0))) rest]) Hnd Hin)
      as (h' & ys & Hrun & Hlocs & Hread & Hframe & Hdom).
    eexists h', (_ :: ys). split.
    { simpl. unfold mbind, st_bind, get_heap. simpl.
      rewrite Hrun, <- (assoc_L (++)). done. }
    split; [by rewrite !locs_cons_tuple|]. split; [|done].
    by rewrite !fmap_cons, Hread.
  - rewrite locs_cons_dict in Hnd, Hin.
    apply NoDup_cons in Hnd as [Hl Hnd]. apply Forall_cons in Hin as [Hdl Hin].
    set (o := h !!! l).
    set (new_obj_id := obj_id_of o
           + Z.of_nat (default 0%nat (num_train_pids a !! dataset_id_of o))).
    set (new_cam_id := cam_id_of o
           + Z.of_nat (default 0%nat (num_train_cams a !! dataset_id_of o))).
    set (o2 := DictObj (img_path_of o) new_obj_id new_cam_id (dataset_id_of o)
                 (others_of o)).
    set (h1 := <[l := o2]> h).
    assert (add_step_st a (DictRef l) h = (h1, Ok (DictRef l))) as Hstep.
    { unfold add_step_st, mbind, st_bind, get_heap, set_obj_id, set_cam_id.
      simpl. fold o. rewrite lookup_total_insert_eq. simpl.
      by rewrite insert_insert_eq. }
    assert (dom h1 = dom h) as Hdom1.
    { unfold h1. rewrite dom_insert_L. set_solver. }
    destruct (IH h1 (acc ++ [DictRef l]) Hnd)
      as (h' & ys & Hrun & Hlocs & Hread & Hframe & Hdom).
    { by rewrite Hdom1. }
    exists h', (DictRef l :: ys). split.
    { simpl. unfold mbind, st_bind. rewrite Hstep.
      rewrite Hrun, <- (assoc_L (++)). done. }
    split; [by rewrite !locs_cons_dict, Hlocs|]. split; [|split].
    + rewrite !fmap_cons, Hread. f_equal.
      * simpl. rewrite lookup_total_alt, (Hframe l), <- lookup_total_alt;
          [|by rewrite Hdom1|done].
        unfold h1. rewrite lookup_total_insert_eq. fold o. done.
      * f_equal. apply read_fmap_ext. intros l0 Hl0. unfold h1.
        rewrite lookup_total_insert_ne; [done|]. by intros ->.
    + intros l0 Hl0 Hno. rewrite locs_cons_dict in Hno.
      apply not_elem_of_cons in Hno as [Hne Hno].
      rewrite Hframe; [|by rewrite Hdom1|done].
      unfold h1. by rewrite lookup_insert_ne.
    + by rewrite <- Hdom1.
Qed.

(** On a store where no dict object occurs twice in [other.train], the
    records that [updated_train] denotes after the loop of [__add__] are the
    records of [self.train] followed by the shifted records of
    [other.train]. *)
Lemma add_train_st_refines a self_train other_train h :
  Forall (λ l, l ∈ dom h) (locs self_train) →
  Forall (λ l, l ∈ dom h) (locs other_train) →
  NoDup (locs other_train) →
  ∃ h' updated,
    add_train_st a self_train other_train h = (h', Ok updated)
    ∧ read h' <$> updated
      = (read h <$> self_train) ++ (add_record a <$> (read h <$> other_train)).
Proof.
  intros Hself Hother Hnd.
  destruct (deepcopy_records_spec self_train ∅ h)
    as (h1 & ys & Hcopy & He & Hread & Hd & Hfresh); [done|done|].
  destruct (add_loop_st_spec a other_train h1 ys Hnd)
    as (h' & zs & Hloop & Hlocs & Hreadz & Hframe & Hdom).
  { eapply Forall_impl; [exact Hother|]. intros l ?. by eapply extends_dom. }
  exists h', (ys ++ zs). split.
  { unfold add_train_st, deepcopy, mbind, st_bind. by rewrite Hcopy. }
  rewrite fmap_app, Hreadz. f_equal.
  - rewrite <- Hread. apply read_fmap_ext. intros l Hl.
    rewrite Forall_forall in Hd, Hfresh, Hother.
    rewrite !lookup_total_alt, Hframe; [done|by apply Hd|].
    intros Hin. destruct (Hfresh l Hl) as [Hn|[l0 Hl0]]; [|done].
    by apply Hn, Hother.
  - f_equal. apply read_fmap_ext. intros l Hl. rewrite Forall_forall in Hother.
    by apply extends_total, Hother.
Qed.

(** The loop of [__add__] changes no dict object other than those of
    [other.train]. *)
Lemma add_train_st_frame a self_train other_train h l :
  NoDup (locs other_train) →
  Forall (λ l, l ∈ dom h) (locs other_train) →
  l ∈ dom h → l ∉ locs other_train →
  (add_train_st a self_train other_train h).1 !! l = h !! l.
Proof.
  intros Hnd Hother Hl Hno.
  pose proof (frame_deepcopy_records ∅ self_train h) as He.
  unfold add_train_st, deepcopy, mbind, st_bind.
  destruct (deepcopy_records ∅ self_train h) as [h1 [ys|e]]; simpl in *;
    [|by apply He].
  destruct (add_loop_st_spec a other_train h1 ys Hnd)
    as (h' & zs & Hloop & _ & _ & Hframe & _).
  { eapply Forall_impl; [exact Hother|]. intros l0 ?. by eapply extends_dom. }
  rewrite Hloop. simpl. rewrite Hframe; [by apply He| |done].
  by eapply extends_dom.
Qed.

(** C4, at the failing input: [a] holds one identity and one camera under
    dataset id 0, its train record is the dict object 0, and the train split
    of [b] is the dict object 1 of identity 0 and camera 0.  The computation
    of [updated_train] in [a + b] copies object 0 to a new object 2, but
    assigns identity 1 and camera 1 to object 1 itself and appends object 1:
    the record of [b.train] is mutated and is aliased into the result, where
    the claim has it unchanged and the result fresh.  The record of
    [a.train] is unchanged. *)
Theorem add_mutates_other_train :
  num_train_pids one_id_dataset !! 0 = Some 1%nat
  ∧ ∃ h',
      add_train_st one_id_dataset [DictRef 0%nat] [DictRef 1%nat] two_dicts_heap
      = (h', Ok [DictRef 2%nat; DictRef 1%nat])
      ∧ read two_dicts_heap (DictRef 1%nat) = Dict (Image "c0.jpg") 0 0 0 []
      ∧ read h' (DictRef 1%nat) = Dict (Image "c0.jpg") 1 1 0 []
      ∧ read h' (DictRef 0%nat) = read two_dicts_heap (DictRef 0%nat).
Proof.
  split; [reflexivity|]. eexists. split; [vm_compute; reflexivity|].
  repeat split; vm_compute; reflexivity.
Qed.

End store.

(** * Further properties of the code *)

(** ** The item counter *)

Section data_counts.

Implicit Types (data : list record) (d o : Z) (counts : gmap Z (gmap Z nat)).

Lemma count_step_lookup counts r d o :
  count_step counts r !! d ≫= (.!! o)
  = if decide (rec_dataset_id r = d ∧ rec_obj_id r = o)
    then Some (S (default 0%nat (counts !! d ≫= (.!! o))))
    else counts !! d ≫= (.!! o).
Proof.
  unfold count_step. rewrite lookup_insert.
  destruct (decide (rec_dataset_id r = d)) as [Hd|Hd].
  - simpl. rewrite lookup_insert. subst d.
    destruct (decide (rec_obj_id r = o)) as [Ho|Ho].
    + destruct (decide (_ ∧ _)) as [_|Hn]; [|naive_solver]. subst o.
      destruct (counts !! rec_dataset_id r); simpl; [done|].
      by rewrite lookup_empty.
    + destruct (decide (_ ∧ _)) as [[_ ?]|_]; [done|].
      destruct (counts !! rec_dataset_id r); simpl; [done|].
      by rewrite lookup_empty.
  - destruct (decide (_ ∧ _)) as [[? _]|_]; done.
Qed.

Lemma foldl_count_step_lookup data counts d o :
  foldl count_step counts data !! d ≫= (.!! o)
  = if decide (occurrences d o data = 0%nat) then counts !! d ≫= (.!! o)
    else Some (default 0%nat (counts !! d ≫= (.!! o))
               + occurrences d o data)%nat.
Proof.
  unfold occurrences. revert counts.
  induction data as [|r data IH]; intros counts; simpl; [done|].
  rewrite IH, count_step_lookup, filter_cons.
  destruct (decide (rec_dataset_id r = d ∧ rec_obj_id r = o)); simpl.
  - destruct (decide (length _ = 0%nat)) as [->|?]; f_equal; lia.
  - done.
Qed.

(** [get_data_counts] maps a dataset id and an identity to the number of
    records that carry them, and has no entry for a pair that no record
    carries. *)
Theorem get_data_counts_occurrences data d o :
  get_data_counts data !! d ≫= (.!! o)
  = if decide (occurrences d o data = 0%nat) then None
    else Some (occurrences d o data).
Proof.
  unfold get_data_counts. rewrite foldl_count_step_lookup, lookup_empty.
  by destruct (decide _).
Qed.

Lemma occurrences_pos d o data :
  occurrences d o data ≠ 0%nat ↔ o ∈ ids_of rec_obj_id d data.
Proof.
  unfold occurrences, ids_of.
  rewrite elem_of_list_to_set, list_elem_of_fmap. split.
  - intros Hn. destruct (filter _ data) as [|r l] eqn:Hf; [done|].
    assert (r ∈ filter (λ r, rec_dataset_id r = d ∧ rec_obj_id r = o) data)
      as [[Hd Ho] Hr]%list_elem_of_filter by (rewrite Hf; left).
    exists r. split; [done|]. by apply list_elem_of_filter.
  - intros (r & -> & [Hd Hr]%list_elem_of_filter).
    assert (r ∈ filter (λ r', rec_dataset_id r' = d
                              ∧ rec_obj_id r' = rec_obj_id r) data) as Hin
      by (by apply list_elem_of_filter).
    intros Hlen. apply nil_length_inv in Hlen. rewrite Hlen in Hin.
    by apply not_elem_of_nil in Hin.
Qed.

Lemma get_data_counts_is_Some data d :
  is_Some (get_data_counts data !! d) ↔ d ∈ rec_dataset_id <$> data.
Proof.
  unfold get_data_counts.
  assert (∀ counts, is_Some (foldl count_step counts data !! d)
                    ↔ is_Some (counts !! d) ∨ d ∈ rec_dataset_id <$> data)
    as Hgen.
  { induction data as [|r data IH]; intros counts; simpl.
    - rewrite elem_of_nil. naive_solver.
    - rewrite IH, elem_of_cons. unfold count_step.
      rewrite lookup_insert. case_decide; [|naive_solver].
      split; [naive_solver|]. intros [?|[->|?]]; eauto. }
  rewrite Hgen, lookup_empty. split; [intros [[? ?]|?]; done|eauto].
Qed.

(** The item counter agrees with the identity indexer: both have an entry
    for the same dataset ids, and the number of identities the counter holds
    for a dataset id is the identity count [parse_data] gives for it. *)
Theorem get_data_counts_num_pids data d :
  size <$> get_data_counts data !! d = get_num_pids data !! d.
Proof.
  rewrite get_num_pids_lookup. case_bool_decide as Hd.
  - apply get_data_counts_is_Some in Hd as [inner Hinner].
    rewrite Hinner. simpl. f_equal.
    rewrite <- size_ids_of, <- size_dom. f_equal. apply set_eq. intros o.
    rewrite <- occurrences_pos, elem_of_dom.
    pose proof (get_data_counts_occurrences data d o) as Hocc.
    rewrite Hinner in Hocc. simpl in Hocc. rewrite Hocc.
    destruct (decide _); split; try done; by intros [? ?].
  - destruct (get_data_counts data !! d) eqn:Hl; [|done].
    destruct Hd. apply get_data_counts_is_Some. eauto.
Qed.

End data_counts.

(** ** The constructors *)

Section constructors.

Variable set_iter : Z → gset Z → list Z.

Implicit Types (d : dataset) (t q g : list record).

Lemma survivors_nil_iff junk data :
  survivors junk data = [] ↔ ∀ r, r ∈ data → rec_obj_id r ∈ junk.
Proof.
  unfold survivors. split.
  - intros Hnil r Hr. destruct (decide (rec_obj_id r ∈ junk)) as [|Hn]; [done|].
    assert (r ∈ filter (λ r, rec_obj_id r ∉ junk) data) as Hin
      by (by apply list_elem_of_filter).
    rewrite Hnil in Hin. by apply not_elem_of_nil in Hin.
  - intros Hall. apply elem_of_nil_inv. intros r [Hn Hr]%list_elem_of_filter.
    by apply Hn, Hall.
Qed.

(** When every record of query and of gallery carries a junk identity, in
    particular when both splits are empty, [combine_all] returns, whatever
    the contents of the dataset, and leaves the train split as it is. *)
Theorem combine_all_nothing_to_merge d :
  (∀ r, r ∈ query d ++ gallery d → rec_obj_id r ∈ junk_pids d) →
  ∃ d', combine_all set_iter d = Ok d'
        ∧ train d' = train d
        ∧ num_train_pids d' = get_num_pids (train d).
Proof.
  intros Hjunk.
  assert (survivors (junk_pids d) (query d) = []) as Hq
    by (apply survivors_nil_iff; intros r Hr; apply Hjunk; set_solver).
  assert (survivors (junk_pids d) (gallery d) = []) as Hg
    by (apply survivors_nil_iff; intros r Hr; apply Hjunk; set_solver).
  unfold combine_all, combine_splits, relabel.
  rewrite (relabel_loop_defined _ _ _ _ (query d)) by (rewrite Hq; constructor).
  simpl.
  rewrite (relabel_loop_defined _ _ _ _ (gallery d)) by (rewrite Hg; constructor).
  simpl. rewrite Hq, Hg. simpl. rewrite !app_nil_r. eauto.
Qed.

Lemma combine_all_data_counts d d' :
  combine_all set_iter d = Ok d' →
  data_counts d' = data_counts d ∧ cls d' = cls d ∧ mode d' = mode d
  ∧ transform d' = transform d.
Proof.
  unfold combine_all.
  destruct (combine_splits _ _ _ _ _ _) as [[combined pids]|]; simpl; [|done].
  by intros [= <-].
Qed.

(** What a dataset built by [Dataset.__init__] holds: [data] is the split
    named by the mode; query and gallery are the ones passed in; the identity
    index is the one of the final train split, while the camera index and the
    item counts are those of the train split passed in, also when
    [combineall] has extended the train split. *)
Theorem dataset_init_attributes c junk t q g tr m (ca v : bool) d :
  dataset_init set_iter c junk t q g tr m ca v = Ok d →
  select_data m (train d) q g = Ok (data d)
  ∧ query d = q ∧ gallery d = g
  ∧ num_train_pids d = get_num_pids (train d)
  ∧ num_train_cams d = get_num_cams t
  ∧ data_counts d = get_data_counts t
  ∧ (if ca then ∃ appended, train d = t ++ appended else train d = t).
Proof.
  unfold dataset_init.
  destruct (if ca then _ else _) as [self|] eqn:Hself; simpl; [|done].
  destruct (select_data m _ _ _) as [sel|] eqn:Hsel; simpl; [|done].
  destruct (if v then _ else _); simpl; [|done]. intros [= <-]. simpl.
  destruct ca.
  - pose proof (combine_all_data_counts _ _ Hself) as (Hcounts & _).
    apply combine_all_Ok in Hself as (Hc & Hq & Hg & _ & Hcams).
    simpl in *. rewrite Hq, Hg in *.
    apply combine_splits_Ok in Hc as (Ht & Hp & _).
    repeat split; try done. eauto.
  - injection Hself as <-. simpl in *. done.
Qed.

(** [VideoDataset.__init__] returns only with [verbose=False] and a
    transform: with [verbose=True] the summary formats the index dicts with
    [{:5d}] and raises [TypeError], and without a transform the constructor
    raises [RuntimeError] after the base constructor has run. *)
Theorem video_dataset_init_Ok junk t q g seq_len sample_method tr m
    (ca v : bool) d :
  video_dataset_init set_iter junk t q g seq_len sample_method tr m ca v
  = Ok d →
  v = false ∧ is_Some tr ∧ m ∈ modes
  ∧ cls d = VideoDataset seq_len sample_method.
Proof.
  unfold video_dataset_init, dataset_init.
  destruct (if ca then _ else _) as [self|]; simpl; [|done].
  destruct (decide (m ∈ modes)) as [Hm|Hm];
    [|by rewrite select_data_invalid].
  destruct (select_data m _ _ _); simpl; [|done].
  destruct v; simpl; [done|]. destruct tr; [|done]. intros [= <-]. eauto.
Qed.

Lemma video_dataset_init_raises junk t q g seq_len sample_method tr m :
  m ∈ modes →
  video_dataset_init set_iter junk t q g seq_len sample_method tr m false true
  = Raise TypeError
  ∧ video_dataset_init set_iter junk t q g seq_len sample_method None m false
      false
    = Raise (RuntimeError "transform must not be None").
Proof.
  intros Hm. unfold video_dataset_init, dataset_init. simpl.
  destruct (select_data_valid m t q g Hm) as [sel ->]. done.
Qed.

End constructors.

Lemma combine_all_nothing_to_merge_witness :
  ∃ d', combine_all ascending_iter five_ids_dataset = Ok d'
        ∧ train d' = five_ids_train.
Proof.
  destruct (combine_all_nothing_to_merge ascending_iter five_ids_dataset)
    as (d' & Hc & Ht & _).
  - intros r Hr. simpl in Hr. by apply elem_of_nil in Hr.
  - exists d'. split; [exact Hc|exact Ht].
Defined.

Lemma dataset_init_attributes_witness :
  ∃ d, dataset_init ascending_iter ImageDataset []
         (train three_ids_dataset) (query three_ids_dataset)
         (gallery three_ids_dataset) None "query" true false = Ok d
       ∧ data d = query three_ids_dataset
       ∧ length (train d) = 3%nat
       ∧ num_train_pids d = {[0 := 3%nat]}
       ∧ num_train_cams d = {[0 := 1%nat]}.
Proof.
  assert (∃ d, dataset_init ascending_iter ImageDataset []
                 (train three_ids_dataset) (query three_ids_dataset)
                 (gallery three_ids_dataset) None "query" true false = Ok d)
    as [d Hd] by (eexists; vm_compute; reflexivity).
  destruct (dataset_init_attributes ascending_iter _ _ _ _ _ _ _ _ _ d Hd)
    as (Hdata & _ & _ & Hp & Hc & _).
  exists d. split; [exact Hd|].
  vm_compute in Hd. injection Hd as <-.
  repeat split; vm_compute; reflexivity.
Defined.

Lemma video_dataset_init_Ok_witness :
  ∃ d, video_dataset_init ascending_iter [] two_tracklets [] [] 2
         "evenly" (Some (TransformFn "resize")) "train" false false = Ok d
       ∧ cls d = VideoDataset 2 "evenly".
Proof.
  assert (∃ d, video_dataset_init ascending_iter [] two_tracklets [] [] 2
                 "evenly" (Some (TransformFn "resize")) "train" false false
               = Ok d) as [d Hd] by (eexists; vm_compute; reflexivity).
  destruct (video_dataset_init_Ok ascending_iter _ _ _ _ _ _ _ _ _ _ d Hd)
    as (_ & _ & _ & Hcls).
  exists d. split; [exact Hd|exact Hcls].
Defined.

Lemma video_dataset_init_raises_witness :
  video_dataset_init ascending_iter [] two_tracklets [] [] 2 "evenly"
    (Some (TransformFn "resize")) "train" false true = Raise TypeError.
Proof.
  apply (video_dataset_init_raises ascending_iter [] two_tracklets [] [] 2
           "evenly" (Some (TransformFn "resize")) "train").
  unfold modes. left.
Defined.

(** ** Dense identity ranges *)

Section dense_ranges.

Implicit Types (data : list record) (r : record) (k : Z).

Lemma size_list_to_set_remove_dups (l : list Z) :
  size (list_to_set l : gset Z) = length (remove_dups l).
Proof.
  rewrite <- (size_list_to_set (C := gset Z) (remove_dups l))
    by apply NoDup_remove_dups.
  f_equal. apply set_eq. intros x.
  by rewrite !elem_of_list_to_set, elem_of_remove_dups.
Qed.

(** A function that is injective on a list maps it to as many distinct
    values as the list has. *)
Lemma size_image (f : Z → Z) (l : list Z) :
  (∀ x y, x ∈ l → y ∈ l → f x = f y → x = y) →
  size (list_to_set (f <$> l) : gset Z) = size (list_to_set l : gset Z).
Proof.
  intros Hinj. rewrite (size_list_to_set_remove_dups l).
  rewrite <- (length_fmap f (remove_dups l)).
  rewrite <- (size_list_to_set (C := gset Z) (f <$> remove_dups l)).
  - f_equal. apply set_eq. intros y.
    rewrite !elem_of_list_to_set, !list_elem_of_fmap.
    by setoid_rewrite elem_of_remove_dups.
  - apply NoDup_fmap_2_strong; [|apply NoDup_remove_dups].
    intros x y Hx Hy. apply Hinj; by apply elem_of_remove_dups.
Qed.

Lemma ids_of_app f k data1 data2 :
  ids_of f k (data1 ++ data2) = ids_of f k data1 ∪ ids_of f k data2.
Proof.
  unfold ids_of. by rewrite filter_app, fmap_app, list_to_set_app_L.
Qed.

Lemma elem_of_ids_of f k data x :
  x ∈ ids_of f k data ↔ ∃ r, r ∈ data ∧ rec_dataset_id r = k ∧ f r = x.
Proof.
  unfold ids_of. rewrite elem_of_list_to_set, list_elem_of_fmap.
  setoid_rewrite list_elem_of_filter. naive_solver.
Qed.

(** The identities of a split whose records are moved by [g], when [g]
    keeps the dataset id and acts on the identities under [k] as [s]. *)
Lemma ids_of_moved (g : record → record) (s : Z → Z) k data :
  (∀ r, r ∈ data → rec_dataset_id (g r) = rec_dataset_id r) →
  (∀ r, r ∈ data → rec_dataset_id r = k →
        rec_obj_id (g r) = s (rec_obj_id r)) →
  ids_of rec_obj_id k (g <$> data)
  = list_to_set (s <$> (rec_obj_id <$> filter (λ r, rec_dataset_id r = k) data)).
Proof.
  intros Hd Ho. apply set_eq. intros x.
  rewrite elem_of_ids_of, elem_of_list_to_set, <- list_fmap_compose,
    list_elem_of_fmap.
  setoid_rewrite list_elem_of_fmap. setoid_rewrite list_elem_of_filter. split.
  - intros (r' & (r & -> & Hr) & Hk & <-). exists r.
    rewrite Hd in Hk by done. simpl. rewrite Ho by done. done.
  - intros (r & -> & Hk & Hr). exists (g r). split; [eauto|].
    rewrite Hd by done. simpl. by rewrite Ho.
Qed.

(** A split extended by records whose identities under [k] are moved, one
    to one, beyond the identities it has under [k], has as many identities
    under [k] as both parts together. *)
Lemma distinct_count_extended (g : record → record) (s : Z → Z) k data1 data2 :
  (∀ r, r ∈ data2 → rec_dataset_id (g r) = rec_dataset_id r) →
  (∀ r, r ∈ data2 → rec_dataset_id r = k →
        rec_obj_id (g r) = s (rec_obj_id r)) →
  (∀ x y, x ∈ ids_of rec_obj_id k data2 → y ∈ ids_of rec_obj_id k data2 →
          s x = s y → x = y) →
  (∀ x y, x ∈ ids_of rec_obj_id k data1 → y ∈ ids_of rec_obj_id k data2 →
          x ≠ s y) →
  distinct_count rec_obj_id k (data1 ++ (g <$> data2))
  = (distinct_count rec_obj_id k data1
     + distinct_count rec_obj_id k data2)%nat.
Proof.
  intros Hd Ho Hinj Hdisj.
  rewrite <- !size_ids_of, ids_of_app, size_union.
  - f_equal. rewrite (ids_of_moved g s k data2 Hd Ho). unfold ids_of.
    apply size_image. intros x y Hx Hy.
    apply Hinj; unfold ids_of; by rewrite elem_of_list_to_set.
  - intros x Hx. rewrite (ids_of_moved g s k data2 Hd Ho).
    rewrite elem_of_list_to_set. intros (y & -> & Hy)%list_elem_of_fmap.
    eapply Hdisj; [exact Hx| |done]. unfold ids_of.
    by rewrite elem_of_list_to_set.
Qed.

Lemma distinct_count_app_le f k data1 data2 :
  (distinct_count f k data1 ≤ distinct_count f k (data1 ++ data2))%nat.
Proof.
  rewrite <- !size_ids_of, ids_of_app. apply subseteq_size. set_solver.
Qed.

End dense_ranges.

Section dense_invariants.

Variable set_iter : Z → gset Z → list Z.

Implicit Types (a b c d : dataset) (r : record) (k : Z).

Lemma indexed_pids_default a k :
  num_train_pids a = get_num_pids (train a) →
  default 0%nat (num_train_pids a !! k)
  = distinct_count rec_obj_id k (train a).
Proof.
  intros ->. rewrite get_num_pids_lookup. case_bool_decide as Hin; [done|].
  simpl. apply filter_nil_not_elem in Hin. unfold distinct_count.
  by rewrite Hin.
Qed.

Lemma add_record_dataset_id a r :
  rec_dataset_id (add_record a r) = rec_dataset_id r.
Proof. by destruct r. Qed.

Lemma add_record_obj_id a r :
  rec_obj_id (add_record a r)
  = rec_obj_id r
    + Z.of_nat (default 0%nat (num_train_pids a !! rec_dataset_id r)).
Proof. by destruct r. Qed.

Lemma dense_ids_of data k x :
  dense_ids data → x ∈ ids_of rec_obj_id k data →
  0 ≤ x < Z.of_nat (distinct_count rec_obj_id k data).
Proof.
  intros Hdense (r & Hr & <- & <-)%elem_of_ids_of. by apply Hdense.
Qed.

Lemma stored_pids_default a (data1 : list record) k :
  num_train_pids a = get_num_pids data1 →
  default 0%nat (num_train_pids a !! k) = distinct_count rec_obj_id k data1.
Proof.
  intros ->. rewrite get_num_pids_lookup. case_bool_decide as Hin; [done|].
  simpl. apply filter_nil_not_elem in Hin. unfold distinct_count.
  by rewrite Hin.
Qed.

(** A split with dense identity ids, followed by the records of another
    such split moved by the loop of [__add__], has dense identity ids, and
    as many identities under every dataset id as both together. *)
Lemma shifted_dense a (data1 data2 : list record) :
  num_train_pids a = get_num_pids data1 →
  dense_ids data1 → dense_ids data2 →
  dense_ids (data1 ++ (add_record a <$> data2))
  ∧ ∀ k, distinct_count rec_obj_id k (data1 ++ (add_record a <$> data2))
         = (distinct_count rec_obj_id k data1
            + distinct_count rec_obj_id k data2)%nat.
Proof.
  intros Hp Ha Hb.
  assert (∀ k, distinct_count rec_obj_id k (data1 ++ (add_record a <$> data2))
               = (distinct_count rec_obj_id k data1
                  + distinct_count rec_obj_id k data2)%nat) as Hcount.
  { intros k.
    apply (distinct_count_extended (add_record a)
             (λ x, x + Z.of_nat (distinct_count rec_obj_id k data1))).
    - intros r _. apply add_record_dataset_id.
    - intros r _ <-.
      by rewrite add_record_obj_id, (stored_pids_default a data1).
    - intros x y _ _. lia.
    - intros x y Hx%(dense_ids_of _ _ _ Ha) Hy%(dense_ids_of _ _ _ Hb). lia. }
  split; [|done]. intros r [Hr|Hr]%elem_of_app.
  - specialize (Ha r Hr).
    pose proof (distinct_count_app_le rec_obj_id (rec_dataset_id r) data1
                  (add_record a <$> data2)). lia.
  - apply list_elem_of_fmap in Hr as (r0 & -> & Hr0). specialize (Hb r0 Hr0).
    rewrite add_record_dataset_id, add_record_obj_id, Hcount,
      (stored_pids_default a data1) by done. lia.
Qed.


End dense_invariants.

Ltac dense_ids_by_cases :=
  let r := fresh "r" in
  let Hr := fresh "Hr" in
  intros r Hr;
  repeat (apply elem_of_cons in Hr as [->|Hr]);
  [split; [vm_compute; discriminate|vm_compute; reflexivity]..
  |by apply elem_of_nil in Hr].


(** ** The result of an addition *)

Section add_result.

Variable set_iter : Z → gset Z → list Z.

Implicit Types (a b c : dataset).

Lemma dataset_init_plain_Ok cl junk t q g tr m d :
  dataset_init set_iter cl junk t q g tr m false false = Ok d →
  cls d = cl ∧ junk_pids d = junk ∧ train d = t ∧ query d = q
  ∧ gallery d = g ∧ transform d = tr ∧ mode d = m
  ∧ combineall d = false ∧ verbose d = false
  ∧ num_train_pids d = get_num_pids t ∧ num_train_cams d = get_num_cams t
  ∧ data_counts d = get_data_counts t
  ∧ select_data m t q g = Ok (data d).
Proof.
  rewrite dataset_init_plain.
  destruct (select_data m t q g) as [sel|]; simpl; [|done].
  by intros [= <-].
Qed.

(** Whenever [a + b] returns, the result keeps the query and gallery splits,
    the mode and the transform of [a] (nothing of [b] but its train split
    enters it), has no junk identities and [combineall] and [verbose]
    cleared, holds the identity and camera indices and the item counts of
    the combined train split, and is an [ImageDataset] or has the class of
    [a]. *)
Theorem add_result_attributes a b c :
  add set_iter a b = Ok c →
  query c = query a ∧ gallery c = gallery a
  ∧ mode c = mode a ∧ transform c = transform a
  ∧ junk_pids c = [] ∧ combineall c = false ∧ verbose c = false
  ∧ num_train_pids c = get_num_pids (train c)
  ∧ num_train_cams c = get_num_cams (train c)
  ∧ data_counts c = get_data_counts (train c)
  ∧ select_data (mode a) (train c) (query a) (gallery a) = Ok (data c)
  ∧ (cls c = ImageDataset ∨ cls c = cls a).
Proof.
  unfold add. destruct (updated_train a b) as [|first ut]; [done|].
  destruct (rec_media first).
  - intros H. apply dataset_init_plain_Ok in H
      as (? & ? & -> & -> & -> & -> & -> & ? & ? & ? & ? & ? & ?).
    repeat split; try done. by left.
  - destruct (cls a) as [| |seq_len sample_method] eqn:Hcls; try done.
    unfold video_dataset_init.
    destruct (dataset_init _ _ _ _ _ _ _ _ _ _) as [d|] eqn:Hd; simpl; [|done].
    destruct (transform a); [|done]. intros [= <-].
    apply dataset_init_plain_Ok in Hd
      as (? & ? & -> & -> & -> & -> & -> & ? & ? & ? & ? & ? & ?).
    repeat split; try done. by right.
Qed.

End add_result.

Lemma add_result_attributes_witness :
  ∃ c, add ascending_iter one_id_dataset query_only_dataset = Ok c
       ∧ query c = [] ∧ data c = train c.
Proof.
  assert (∃ c, add ascending_iter one_id_dataset query_only_dataset = Ok c)
    as [c Hc] by (eexists; vm_compute; reflexivity).
  destruct (add_result_attributes ascending_iter _ _ c Hc)
    as (Hq & _ & _ & _ & _ & _ & _ & _ & _ & _ & Hdata & _).
  exists c. split; [exact Hc|]. split; [exact Hq|].
  vm_compute in Hc. injection Hc as <-. reflexivity.
Defined.

(** ** Repeated combination *)

Section combine_all_again.

Variable set_iter : Z → gset Z → list Z.

Implicit Types (d : dataset).

Lemma combine_splits_Ok_shape junk t q g num combined pids :
  combine_splits set_iter junk t q g num = Ok (combined, pids) →
  shape_of_first junk q ∧ shape_of_first junk g.
Proof.
  unfold combine_splits, relabel, shape_of_first.
  destruct (relabel_loop _ junk _ num q) as [fq|] eqn:Hq; simpl; [|done].
  destruct (relabel_loop _ junk _ num g) as [fg|] eqn:Hg; simpl; [|done].
  apply relabel_loop_Ok in Hq as [_ Hdq], Hg as [_ Hdg]. intros _.
  split; (eapply Forall_impl; [eassumption|]); by intros r (? & _).
Qed.

(** [combine_all] is not idempotent: applied to its own result, with sets
    enumerated in a valid order, it returns again and appends the query and
    gallery records that are not junk a second time. *)
Theorem combine_all_twice d d' :
  valid_iter set_iter →
  combine_all set_iter d = Ok d' →
  ∃ d'' appended appended',
    combine_all set_iter d' = Ok d''
    ∧ train d' = train d ++ appended
    ∧ train d'' = train d' ++ appended'
    ∧ length appended' = length appended
    ∧ length appended
      = (length (survivors (junk_pids d) (query d))
         + length (survivors (junk_pids d) (gallery d)))%nat.
Proof.
  intros Hv Hc. apply combine_all_Ok in Hc as (Hc & Hq & Hg & Hj & _).
  destruct (combine_splits_Ok_shape _ _ _ _ _ _ _ Hc) as [Hsq Hsg].
  apply combine_splits_Ok in Hc as (Ht & Hp & _).
  pose proof (combine_splits_defined set_iter (junk_pids d') (train d')
                (query d') (gallery d') (num_train_pids d') Hv) as Hc'.
  rewrite Hq, Hg, Hj in Hc'. specialize (Hc' Hsq Hsg).
  eexists _, _, _. split; [|split; [exact Ht|]].
  - unfold combine_all. rewrite Hq, Hg, Hj, Hc'; [reflexivity|].
    intros r Hr. rewrite Hp. apply get_num_pids_is_Some.
    rewrite Ht, <- fmap_app, fmap_app, elem_of_app. right.
    rewrite <- list_fmap_compose. apply list_elem_of_fmap.
    exists r. split; [|done]. simpl. by rewrite merged_record_dataset_id.
  - simpl. split; [reflexivity|].
    rewrite !length_app, !length_fmap. done.
Qed.

End combine_all_again.

Lemma combine_all_twice_witness :
  ∃ d' d'',
    combine_all ascending_iter three_ids_dataset = Ok d'
    ∧ combine_all ascending_iter d' = Ok d''
    ∧ length (train d') = 3%nat ∧ length (train d'') = 5%nat.
Proof.
  assert (∃ d', combine_all ascending_iter three_ids_dataset = Ok d')
    as [d' Hc] by (eexists; vm_compute; reflexivity).
  destruct (combine_all_twice ascending_iter three_ids_dataset d'
              ascending_iter_valid Hc)
    as (d'' & app1 & app2 & Hc' & Ht & Ht' & Hlen & Hlen1).
  exists d', d''. split; [exact Hc|]. split; [exact Hc'|].
  rewrite Ht', Ht, !length_app, Hlen, Hlen1. split; reflexivity.
Defined.

(** ** Frames of a tracklet *)

Section frames_properties.

Variable choice : nat → nat → bool → option (list Z).

Implicit Types (N L : nat) (img_paths : list string).

Lemma sample_evenly_Ok N L :
  (1 ≤ L)%nat → sample_evenly N L = Ok (evenly_spec N L).
Proof.
  intros HL. pose proof (evenly_spec_length N L) as Hlen.
  unfold sample_evenly, evenly_spec in *.
  destruct (decide (L ≤ N)%nat) as [Hle|Hgt].
  - rewrite decide_False by lia. rewrite arange3_evenly by lia. simpl.
    by rewrite decide_True.
  - simpl. unfold arange. by rewrite decide_True.
Qed.

Lemma evenly_spec_lookup N L i x :
  evenly_spec N L !! i = Some x →
  (i < L)%nat
  ∧ x = if decide (L ≤ N)%nat
        then Z.of_nat i * (Z.of_nat N / Z.of_nat L)
        else Z.of_nat i `min` (Z.of_nat N - 1).
Proof.
  intros Hx. split.
  { rewrite <- (evenly_spec_length N L). by eapply lookup_lt_Some. }
  unfold evenly_spec in Hx. destruct (decide (L ≤ N)%nat) as [Hle|Hgt].
  - rewrite list_lookup_fmap in Hx.
    destruct (seq 0 L !! i) as [i'|] eqn:Hi; [|done].
    apply lookup_seq in Hi as [-> Hlt]. simpl in Hx. injection Hx as <-.
    f_equal. rewrite Z.mod_eq by lia.
    replace (Z.of_nat N - (Z.of_nat N - Z.of_nat L * (Z.of_nat N / Z.of_nat L)))
      with (Z.of_nat N / Z.of_nat L * Z.of_nat L) by lia.
    apply Z.div_mul. lia.
  - destruct (decide (i < N)%nat) as [Hi|Hi].
    + rewrite lookup_app_l in Hx by (by rewrite length_fmap, length_seq).
      rewrite list_lookup_fmap, lookup_seq_lt in Hx by done.
      injection Hx as <-. lia.
    + rewrite lookup_app_r in Hx by (rewrite length_fmap, length_seq; lia).
      apply lookup_replicate in Hx as [-> _]. lia.
Qed.

Lemma evenly_spec_in_range N L :
  (1 ≤ N)%nat →
  Forall (λ i, 0 ≤ i < Z.of_nat N) (evenly_spec N L)
  ∧ nondecreasing (evenly_spec N L).
Proof.
  intros HN. split.
  - apply Forall_lookup. intros i x [Hi ->]%evenly_spec_lookup.
    destruct (decide (L ≤ N)%nat) as [Hle|Hgt]; [|lia].
    assert (1 ≤ Z.of_nat N / Z.of_nat L) by (apply Z.div_le_lower_bound; lia).
    pose proof (Z.mul_div_le (Z.of_nat N) (Z.of_nat L)). nia.
  - intros i j x y Hij [Hi ->]%evenly_spec_lookup [Hj ->]%evenly_spec_lookup.
    destruct (decide (L ≤ N)%nat) as [Hle|Hgt]; [|lia].
    assert (0 ≤ Z.of_nat N / Z.of_nat L) by (apply Z.div_pos; lia). nia.
Qed.

(** For a tracklet with at least one frame and a positive target length,
    the indices of the policy ['evenly'] all lie inside the tracklet and
    never decrease, so the frames come in temporal order. *)
Theorem sample_evenly_in_range N L l :
  (1 ≤ N)%nat → (1 ≤ L)%nat →
  sample_evenly N L = Ok l →
  Forall (λ i, 0 ≤ i < Z.of_nat N) l ∧ nondecreasing l.
Proof.
  intros HN HL. rewrite sample_evenly_Ok by done. intros [= <-].
  by apply evenly_spec_in_range.
Qed.

Lemma py_index_in_range {A} (l : list A) (i : Z) :
  0 ≤ i < Z.of_nat (length l) →
  ∃ x, py_index l i = Ok x ∧ l !! Z.to_nat i = Some x.
Proof.
  intros Hi. unfold py_index.
  destruct (decide (i < 0)) as [?|_]; [lia|].
  destruct (decide (0 ≤ i < _)) as [_|?]; [|lia].
  destruct (lookup_lt_is_Some_2 l (Z.to_nat i)) as [x Hx]; [lia|].
  rewrite Hx. eauto.
Qed.

Lemma select_frames_in_range img_paths indices :
  Forall (λ i, 0 ≤ i < Z.of_nat (length img_paths)) indices →
  ∃ imgs, select_frames img_paths indices = Ok imgs
          ∧ Forall2 (λ i img, img_paths !! Z.to_nat i = Some img) indices imgs.
Proof.
  induction 1 as [|i indices Hi _ (imgs & Hsel & Hall)]; simpl.
  - exists []. split; [done|constructor].
  - destruct (py_index_in_range img_paths i Hi) as (img & -> & Himg).
    simpl. rewrite Hsel. simpl. exists (img :: imgs).
    split; [done|by constructor].
Qed.

(** On a tracklet with at least one frame and for a positive target length,
    a dataset of sampling method ['evenly'] reads exactly [seq_len] frames,
    each of them a frame of the tracklet: no index is out of range. *)
Theorem video_frames_evenly L img_paths :
  (1 ≤ length img_paths)%nat → (1 ≤ L)%nat →
  ∃ imgs, video_frames choice "evenly" L img_paths = Ok imgs
          ∧ length imgs = L
          ∧ ∀ img, img ∈ imgs → img ∈ img_paths.
Proof.
  intros HN HL. unfold video_frames, sample_indices. simpl.
  rewrite sample_evenly_Ok by done. simpl.
  destruct (evenly_spec_in_range (length img_paths) L HN) as [Hrange _].
  destruct (select_frames_in_range _ _ Hrange) as (imgs & -> & Hall).
  exists imgs. split; [done|]. split.
  - apply Forall2_length in Hall. by rewrite <- Hall, evenly_spec_length.
  - intros img (j & Hj)%list_elem_of_lookup_1.
    destruct (Forall2_lookup_r _ _ _ _ _ Hall Hj) as (i & _ & Hi).
    by eapply list_elem_of_lookup_2.
Qed.

Lemma select_frames_arange img_paths i n :
  (i + n ≤ length img_paths)%nat →
  select_frames img_paths (Z.of_nat <$> seq i n)
  = Ok (take n (drop i img_paths)).
Proof.
  revert i. induction n as [|n IH]; intros i Hin; simpl; [done|].
  destruct (py_index_in_range img_paths (Z.of_nat i)) as (img & -> & Himg);
    [lia|].
  rewrite Nat2Z.id in Himg. simpl. rewrite IH by lia. simpl.
  rewrite (drop_S _ _ _ Himg). done.
Qed.

(** A dataset of sampling method ['all'] reads every frame of the tracklet,
    in order, whatever its [seq_len]. *)
Theorem video_frames_all L img_paths :
  video_frames choice "all" L img_paths = Ok img_paths.
Proof.
  unfold video_frames, sample_indices, arange. simpl.
  rewrite select_frames_arange by lia. by rewrite drop_0, firstn_all.
Qed.

(** The edges of the policy ['evenly']: a target length 0 raises
    [ZeroDivisionError] for every tracklet, and an empty tracklet with a
    positive target length is padded with the index -1, whose read raises
    [IndexError]. *)
Theorem video_frames_evenly_edges L img_paths :
  video_frames choice "evenly" 0 img_paths = Raise ZeroDivisionError
  ∧ ((1 ≤ L)%nat →
     sample_evenly 0 L = Ok (replicate L (-1))
     ∧ video_frames choice "evenly" L [] = Raise IndexError).
Proof.
  split.
  - unfold video_frames, sample_indices, sample_evenly. simpl.
    destruct (decide (0 ≤ length img_paths)%nat) as [_|?]; [done|lia].
  - intros HL.
    assert (sample_evenly 0 L = Ok (replicate L (-1))) as Hs.
    { rewrite sample_evenly_Ok by done. unfold evenly_spec.
      rewrite decide_False by lia. simpl. by rewrite Nat.sub_0_r. }
    split; [done|]. unfold video_frames, sample_indices. simpl. rewrite Hs.
    simpl. destruct L; [lia|]. done.
Qed.

End frames_properties.

Lemma sample_evenly_in_range_witness :
  Forall (λ i, 0 ≤ i < 10) [0; 3; 6] ∧ nondecreasing [0; 3; 6].
Proof.
  apply (sample_evenly_in_range 10 3 [0; 3; 6]); [lia|lia|reflexivity].
Defined.

Lemma video_frames_evenly_witness :
  ∃ imgs,
    video_frames (λ _ _ _, None) "evenly" 5 ["f0.jpg"; "f1.jpg"] = Ok imgs
    ∧ length imgs = 5%nat
    ∧ ∀ img, img ∈ imgs → img ∈ ["f0.jpg"; "f1.jpg"].
Proof.
  apply (video_frames_evenly (λ _ _ _, None) 5 ["f0.jpg"; "f1.jpg"]);
    simpl; lia.
Defined.

Lemma video_frames_evenly_edges_witness :
  video_frames (λ _ _ _, None) "evenly" 0 ["f0.jpg"] = Raise ZeroDivisionError
  ∧ sample_evenly 0 3 = Ok [-1; -1; -1]
  ∧ video_frames (λ _ _ _, None) "evenly" 3 [] = Raise IndexError.
Proof.
  destruct (video_frames_evenly_edges (λ _ _ _, None) 3 ["f0.jpg"])
    as [Hzero Hempty].
  split; [exact Hzero|]. apply Hempty. lia.
Defined.

(** ** Random sampling *)

Section random_sampling.

Variable choice : nat → nat → bool → option (list Z).

Implicit Types (N L : nat) (l : list Z).

Lemma Sorted_arange_from i n : Sorted Z.le (Z.of_nat <$> seq i n).
Proof.
  revert i. induction n as [|n IH]; intros i; simpl; [constructor|].
  constructor; [apply IH|]. destruct n; simpl; constructor. lia.
Qed.

Lemma elem_of_arange N x : x ∈ arange N ↔ 0 ≤ x < Z.of_nat N.
Proof.
  unfold arange. rewrite list_elem_of_fmap. split.
  - intros (i & -> & Hi%elem_of_seq). lia.
  - intros Hx. exists (Z.to_nat x). split; [lia|]. apply elem_of_seq. lia.
Qed.

(** A duplicate-free list of [N] indices below [N] holds every index below
    [N] once. *)
Lemma full_draw_Permutation N l :
  NoDup l → length l = N → Forall (λ i, 0 ≤ i < Z.of_nat N) l →
  l ≡ₚ arange N.
Proof.
  intros Hnd Hlen Hall. apply submseteq_length_Permutation.
  - apply NoDup_submseteq; [done|]. intros x Hx. apply elem_of_arange.
    rewrite Forall_forall in Hall. by apply Hall.
  - unfold arange. rewrite length_fmap, length_seq. lia.
Qed.

(** When [np.random.choice] returns what its contract says, the policy
    ['random'] yields [seq_len] indices of the tracklet in ascending order;
    they are pairwise distinct when the tracklet has at least [seq_len]
    frames, and when it has exactly [seq_len] frames they are all its
    indices, [0 .. N-1]. *)
Theorem sample_random_sorted N L l :
  valid_choice choice →
  sample_indices choice "random" N L = Ok l →
  length l = L
  ∧ Forall (λ i, 0 ≤ i < Z.of_nat N) l
  ∧ Sorted Z.le l
  ∧ ((L ≤ N)%nat → NoDup l)
  ∧ (N = L → l = arange N).
Proof.
  intros Hvalid. unfold sample_indices. simpl.
  destruct (choice N L _) as [drawn|] eqn:Hdraw; [|done]. intros [= <-].
  destruct (Hvalid _ _ _ _ Hdraw) as (Hlen & Hall & Hnd).
  pose proof (merge_sort_Permutation Z.le drawn) as Hperm.
  assert ((L ≤ N)%nat → NoDup (merge_sort Z.le drawn)) as Hnd'.
  { intros HLN. rewrite Hperm. apply Hnd.
    by rewrite bool_decide_eq_true_2. }
  split; [by rewrite Hperm|]. split; [by rewrite Hperm|].
  split; [apply (Sorted_merge_sort Z.le)|]. split; [done|].
  intros ->. apply (Sorted_unique Z.le).
  - apply (Sorted_merge_sort Z.le).
  - apply Sorted_arange_from.
  - apply full_draw_Permutation.
    + by apply Hnd'.
    + by rewrite Hperm.
    + by rewrite Hperm.
Qed.

End random_sampling.

Lemma descending_choice_valid : valid_choice descending_choice.
Proof.
  intros N L replace drawn. unfold descending_choice. destruct replace.
  - intros Hd. assert (drawn = replicate L 0 ∧ (N = 0%nat → L = 0%nat))
      as [-> HN] by (destruct N, L; naive_solver).
    split; [apply length_replicate|]. split; [|done].
    apply Forall_forall. intros x [-> Hpos]%elem_of_replicate. lia.
  - destruct (decide (L ≤ N)%nat) as [HLN|]; [|done]. intros [= <-].
    split; [by rewrite length_reverse, length_fmap, length_seq|]. split.
    + apply Forall_forall. intros x Hx. rewrite elem_of_reverse in Hx.
      apply list_elem_of_fmap in Hx as (i & -> & Hi%elem_of_seq). lia.
    + intros _. rewrite reverse_Permutation.
      apply NoDup_fmap_2; [|apply NoDup_seq]. intros x y. lia.
Qed.

Lemma sample_random_sorted_witness :
  sample_indices descending_choice "random" 4 4 = Ok [0; 1; 2; 3]
  ∧ Sorted Z.le [0; 1; 2; 3].
Proof.
  assert (sample_indices descending_choice "random" 4 4 = Ok [0; 1; 2; 3])
    as Hs by (vm_compute; reflexivity).
  destruct (sample_random_sorted descending_choice 4 4 [0; 1; 2; 3]
              descending_choice_valid Hs) as (_ & _ & Hsorted & _).
  split; [exact Hs|exact Hsorted].
Defined.

(** ** Compression of labels *)

Section compression.

Variable iter : gset Z → list Z.

Implicit Types (data : list record) (pid2label : gmap Z nat).

Lemma compress_loop_Ok b pid2label data :
  Forall (λ r, is_dict r = b ∧ is_Some (pid2label !! rec_obj_id r)) data →
  compress_loop b pid2label data
  = Ok ((λ r, with_obj_id
                (Z.of_nat (default 0%nat (pid2label !! rec_obj_id r))) r)
          <$> data).
Proof.
  induction 1 as [|r data [Hb [label Hl]] _ IH]; [done|].
  rewrite fmap_cons. cbn [compress_loop]. rewrite IH.
  destruct r, b; try done; simpl in *; unfold getitem; by rewrite Hl.
Qed.

Lemma compress_loop_mismatch b pid2label data :
  Forall (λ r, is_Some (pid2label !! rec_obj_id r)) data →
  Exists (λ r, is_dict r ≠ b) data →
  compress_loop b pid2label data = Raise TypeError.
Proof.
  induction 1 as [|r data [label Hl] _ IH]; intros Hex.
  - by apply Exists_nil in Hex.
  - cbn [compress_loop].
    destruct (decide (is_dict r = b)) as [Hb|Hb].
    + apply Exists_cons in Hex as [?|Hex]; [done|]. rewrite (IH Hex).
      destruct r, b; try done; simpl in *; unfold getitem; by rewrite Hl.
    + destruct r, b; done.
Qed.

Lemma pid2label_is_Some data r :
  (∀ s, iter s ≡ₚ elements s) →
  r ∈ data →
  is_Some (label_map (iter (list_to_set (rec_obj_id <$> data)))
             !! rec_obj_id r).
Proof.
  intros Hiter Hr. apply label_map_is_Some.
  rewrite Hiter, elem_of_elements, elem_of_list_to_set.
  apply list_elem_of_fmap. eauto.
Qed.

(** On the values of the records: a split whose records all have the shape
    of the first one gives the records in their order, each with its
    identity replaced by its label, the labels being the numbers below the
    number of distinct identities of the split. *)
Lemma compress_labels_values data :
  (∀ s, iter s ≡ₚ elements s) →
  Forall (λ r, is_dict r = first_is_dict data) data →
  let ids : gset Z := list_to_set (rec_obj_id <$> data) in
  let label := label_in (iter ids) in
  compress_labels iter data
  = Ok ((λ r, with_obj_id (Z.of_nat (label (rec_obj_id r))) r) <$> data)
  ∧ dense_labelling ids label.
Proof.
  intros Hiter Hshape ids label. split; [|by apply label_in_dense].
  destruct data as [|first data']; [done|].
  unfold compress_labels. fold ids. apply compress_loop_Ok.
  apply Forall_forall. intros r Hr. split.
  - rewrite Forall_forall in Hshape. by apply Hshape.
  - by apply pid2label_is_Some.
Qed.

(** On the values of the records: a split that holds a record whose shape
    is not that of the first record gives [TypeError]. *)
Lemma compress_labels_values_mixed data :
  (∀ s, iter s ≡ₚ elements s) →
  Exists (λ r, is_dict r ≠ first_is_dict data) data →
  compress_labels iter data = Raise TypeError.
Proof.
  intros Hiter Hex. destruct data as [|first data'].
  - by apply Exists_nil in Hex.
  - unfold compress_labels. apply compress_loop_mismatch; [|done].
    apply Forall_forall. intros r Hr. by apply pid2label_is_Some.
Qed.

End compression.

Section compression_store.

Variable iter : gset Z → list Z.

Implicit Types (h : heap) (l : loc) (data : list ref_record).

Lemma first_is_dict_read h data :
  first_is_dict (read h <$> data) = first_is_dict_ref data.
Proof. by destruct data as [|[? ? ? ?|?] ?]. Qed.

Lemma compress_loop_st_cons b pid2label x data h :
  compress_loop_st b pid2label (x :: data) h
  = match compress_record_st b pid2label x h with
    | (h1, Ok out_record) =>
      match compress_loop_st b pid2label data h1 with
      | (h', Ok out_data) => (h', Ok (out_record :: out_data))
      | (h', Raise e) => (h', Raise e)
      end
    | (h1, Raise e) => (h1, Raise e)
    end.
Proof.
  simpl. unfold mbind, st_bind.
  destruct (compress_record_st b pid2label x h) as [h1 [r|e]]; [|done].
  by destruct (compress_loop_st b pid2label data h1) as [h' [ys|e]].
Qed.

(** The loop of [_compress_labels] on a store where no dict object occurs
    twice in [data]. *)
Lemma compress_loop_st_spec b pid2label data h :
  NoDup (locs data) →
  match compress_loop b pid2label (read h <$> data) with
  | Ok out =>
    ∃ h' ys,
      compress_loop_st b pid2label data h = (h', Ok ys)
      ∧ read h' <$> ys = out
      ∧ (b = true → ys = data)
      ∧ (∀ l, l ∉ locs data → h' !! l = h !! l)
  | Raise e => ∃ h', compress_loop_st b pid2label data h = (h', Raise e)
  end.
Proof.
  revert h. induction data as [|x data IH]; intros h Hnd.
  { simpl. by exists h, []. }
  pose proof (compress_loop_st_cons b pid2label x data h) as Hcons.
  rewrite fmap_cons. cbn [compress_loop].
  destruct x as [m p c rest|l].
  - rewrite locs_cons_tuple in Hnd. specialize (IH h Hnd).
    destruct b; [by exists h|].
    cbn [read compress_record]. unfold getitem.
    assert (compress_record_st false pid2label (TupleVal m p c rest) h
            = (h, match pid2label !! p with
                  | Some label => Ok (TupleVal m (Z.of_nat label) c rest)
                  | None => Raise KeyError
                  end)) as Hstep.
    { unfold compress_record_st, mbind, st_bind, lift, getitem.
      by destruct (pid2label !! p). }
    rewrite Hstep in Hcons.
    destruct (pid2label !! p) as [label|]; [|by exists h].
    cbn [mbind result_bind].
    destruct (compress_loop false pid2label (read h <$> data)) as [out|e].
    + destruct IH as (h' & ys & Hrun & Hread & _ & Hframe).
      rewrite Hrun in Hcons.
      exists h', (TupleVal m (Z.of_nat label) c rest :: ys).
      split; [done|]. split; [by rewrite fmap_cons, Hread|]. done.
    + destruct IH as [h' Hrun]. rewrite Hrun in Hcons. by exists h'.
  - rewrite locs_cons_dict in Hnd. apply NoDup_cons in Hnd as [Hl Hnd].
    destruct b; [|by exists h].
    cbn [read dict_value compress_record]. unfold getitem.
    set (o := h !!! l) in *.
    set (h1 label := <[l := DictObj (img_path_of o) (Z.of_nat label)
                             (cam_id_of o) (dataset_id_of o) (others_of o)]> h).
    assert (compress_record_st true pid2label (DictRef l) h
            = match pid2label !! obj_id_of o with
              | Some label => (h1 label, Ok (DictRef l))
              | None => (h, Raise KeyError)
              end) as Hstep.
    { unfold compress_record_st, mbind, st_bind, get_heap, lift, set_obj_id,
        getitem.
      fold o. by destruct (pid2label !! obj_id_of o). }
    rewrite Hstep in Hcons.
    destruct (pid2label !! obj_id_of o) as [label|]; [|by exists h].
    cbn [mbind result_bind].
    assert (read (h1 label) <$> data = read h <$> data) as Hsame.
    { apply read_fmap_ext. intros l0 Hl0. unfold h1.
      rewrite lookup_total_insert_ne; [done|]. by intros ->. }
    specialize (IH (h1 label) Hnd). rewrite Hsame in IH.
    destruct (compress_loop true pid2label (read h <$> data)) as [out|e].
    + destruct IH as (h' & ys & Hrun & Hread & Hys & Hframe).
      rewrite Hrun in Hcons.
      exists h', (DictRef l :: ys).
      split; [done|]. split; [|split].
      * rewrite fmap_cons, Hread. f_equal. simpl.
        rewrite lookup_total_alt, (Hframe l Hl). unfold h1.
        by rewrite lookup_insert_eq.
      * intros _. by rewrite Hys.
      * intros l0 Hl0. rewrite locs_cons_dict in Hl0.
        apply not_elem_of_cons in Hl0 as [Hne Hl0].
        rewrite (Hframe l0 Hl0). unfold h1. by rewrite lookup_insert_ne.
    + destruct IH as [h' Hrun]. rewrite Hrun in Hcons. by exists h'.
Qed.

Lemma compress_labels_st_spec data h :
  NoDup (locs data) →
  match compress_labels iter (read h <$> data) with
  | Ok out =>
    ∃ h' ys,
      compress_labels_st iter data h = (h', Ok ys)
      ∧ read h' <$> ys = out
      ∧ (first_is_dict_ref data = true → ys = data)
      ∧ (∀ l, l ∉ locs data → h' !! l = h !! l)
  | Raise e => ∃ h', compress_labels_st iter data h = (h', Raise e)
  end.
Proof.
  intros Hnd. destruct data as [|x data']; [by exists h, []|].
  pose proof (compress_loop_st_spec (first_is_dict_ref (x :: data'))
    (label_map (iter (list_to_set (rec_obj_id <$> (read h <$> x :: data')))))
    (x :: data') h Hnd) as Hloop.
  unfold compress_labels, compress_labels_st.
  rewrite fmap_cons in *.
  change (is_dict (read h x)) with (first_is_dict (read h x :: (read h <$> data'))).
  rewrite <- fmap_cons, first_is_dict_read.
  rewrite fmap_cons in *. exact Hloop.
Qed.

(** On a store where no dict object occurs twice in the split,
    [_compress_labels] computes the records of the value-level function.  In
    the dict branch it returns the list it was given: the objects of the
    split are relabelled in place, and no other object changes. *)
Theorem compress_labels_in_place data h :
  NoDup (locs data) →
  match compress_labels iter (read h <$> data) with
  | Ok out =>
    ∃ h' ys,
      compress_labels_st iter data h = (h', Ok ys)
      ∧ read h' <$> ys = out
      ∧ (first_is_dict_ref data = true → ys = data)
      ∧ (∀ l, l ∉ locs data → h' !! l = h !! l)
  | Raise e => ∃ h', compress_labels_st iter data h = (h', Raise e)
  end.
Proof. apply compress_labels_st_spec. Qed.

(** [_compress_labels] on a split whose records all have the shape of the
    first one and in which no dict object is listed twice returns the records
    in their order, each with its identity replaced by its label; the labels
    are the numbers below the number of distinct identities of the split, one
    for each identity, whatever the dataset ids of the records are.  An empty
    split is returned as it is. *)
Theorem compress_labels_dense data h :
  (∀ s, iter s ≡ₚ elements s) →
  NoDup (locs data) →
  Forall (λ x, is_dict (read h x) = first_is_dict_ref data) data →
  let ids : gset Z := list_to_set (rec_obj_id <$> (read h <$> data)) in
  let label := label_in (iter ids) in
  (∃ h' ys,
     compress_labels_st iter data h = (h', Ok ys)
     ∧ read h' <$> ys
       = (λ r, with_obj_id (Z.of_nat (label (rec_obj_id r))) r)
           <$> (read h <$> data))
  ∧ dense_labelling ids label.
Proof.
  intros Hiter Hnd Hshape ids label.
  destruct (compress_labels_values iter (read h <$> data) Hiter) as [Hv Hd].
  { apply Forall_fmap. rewrite first_is_dict_read. exact Hshape. }
  split; [|exact Hd].
  pose proof (compress_labels_st_spec data h Hnd) as Hrun.
  rewrite Hv in Hrun. destruct Hrun as (h' & ys & Hst & Hread & _).
  by exists h', ys.
Qed.

(** [_compress_labels] on a split in which no dict object is listed twice
    and that holds a record whose shape is not that of the first record
    raises [TypeError]: every identity of the split has a label, so that no
    lookup fails before the record is reached. *)
Theorem compress_labels_mixed_raises data h :
  (∀ s, iter s ≡ₚ elements s) →
  NoDup (locs data) →
  Exists (λ x, is_dict (read h x) ≠ first_is_dict_ref data) data →
  ∃ h', compress_labels_st iter data h = (h', Raise TypeError).
Proof.
  intros Hiter Hnd Hex.
  pose proof (compress_labels_st_spec data h Hnd) as Hrun.
  rewrite (compress_labels_values_mixed iter (read h <$> data) Hiter)
    in Hrun; [done|].
  apply Exists_fmap. rewrite first_is_dict_read. exact Hex.
Qed.

(** [_compress_labels] on a list that holds the same dict object twice
    raises [KeyError] unless the identity of the object is 0: the object is
    given the label 0 at its first occurrence and is looked up under that
    label at the second. *)
Theorem compress_labels_shared_object h l :
  (∀ s, iter s ≡ₚ elements s) →
  obj_id_of (h !!! l) ≠ 0 →
  (compress_labels_st iter [DictRef l; DictRef l] h).2 = Raise KeyError.
Proof.
  intros Hiter Hne. set (o := obj_id_of (h !!! l)).
  assert (iter (list_to_set (rec_obj_id <$> (read h <$> [DictRef l; DictRef l])))
          = [o]) as Hids.
  { apply Permutation_singleton_r. rewrite Hiter.
    replace (list_to_set (rec_obj_id <$> (read h <$> [DictRef l; DictRef l]))
               : gset Z)
      with ({[o]} : gset Z) by (simpl; fold o; set_solver).
    by rewrite elements_singleton. }
  unfold compress_labels_st, mbind at 1, st_bind at 1, get_heap.
  rewrite Hids, !compress_loop_st_cons.
  unfold compress_record_st, first_is_dict_ref, label_map, mbind, st_bind,
    get_heap, lift, getitem, set_obj_id.
  simpl. fold o. rewrite lookup_insert_eq. simpl.
  unfold mbind, st_bind, get_heap, lift, getitem.
  rewrite lookup_total_insert_eq. simpl.
  rewrite lookup_insert_ne by done. by rewrite lookup_empty.
Qed.

End compression_store.

Lemma compress_labels_in_place_witness :
  ∃ h',
    compress_labels_st (ascending_iter 0) [DictRef 0%nat; DictRef 1%nat]
      {[ 0%nat := DictObj (Image "a.jpg") 7 0 0 [];
         1%nat := DictObj (Image "b.jpg") 3 1 0 [] ]}
    = (h', Ok [DictRef 0%nat; DictRef 1%nat])
    ∧ read h' <$> [DictRef 0%nat; DictRef 1%nat]
      = [Dict (Image "a.jpg") 1 0 0 []; Dict (Image "b.jpg") 0 1 0 []].
Proof.
  set (h := {[ 0%nat := DictObj (Image "a.jpg") 7 0 0 [];
               1%nat := DictObj (Image "b.jpg") 3 1 0 [] ]} : heap).
  assert (NoDup (locs [DictRef 0%nat; DictRef 1%nat])) as Hnd.
  { simpl. apply NoDup_cons. split; [set_solver|apply NoDup_singleton]. }
  pose proof (compress_labels_in_place (ascending_iter 0)
                [DictRef 0%nat; DictRef 1%nat] h Hnd) as Hrun.
  assert (compress_labels (ascending_iter 0)
            (read h <$> [DictRef 0%nat; DictRef 1%nat])
          = Ok [Dict (Image "a.jpg") 1 0 0 []; Dict (Image "b.jpg") 0 1 0 []])
    as Hpure by (vm_compute; reflexivity).
  rewrite Hpure in Hrun.
  destruct Hrun as (h' & ys & Hst & Hread & Hys & _).
  rewrite (Hys eq_refl) in Hst, Hread. by exists h'.
Defined.

Lemma compress_labels_dense_witness :
  ∃ h' ys,
    compress_labels_st (ascending_iter 0)
      [DictRef 0%nat; DictRef 1%nat; DictRef 2%nat]
      {[ 0%nat := DictObj (Image "a.jpg") 7 0 0 [];
         1%nat := DictObj (Image "b.jpg") 3 1 1 [];
         2%nat := DictObj (Image "c.jpg") 7 2 0 [] ]}
    = (h', Ok ys)
    ∧ read h' <$> ys
      = [Dict (Image "a.jpg") 1 0 0 []; Dict (Image "b.jpg") 0 1 1 [];
         Dict (Image "c.jpg") 1 2 0 []].
Proof.
  destruct (compress_labels_dense (ascending_iter 0)
              [DictRef 0%nat; DictRef 1%nat; DictRef 2%nat]
              {[ 0%nat := DictObj (Image "a.jpg") 7 0 0 [];
                 1%nat := DictObj (Image "b.jpg") 3 1 1 [];
                 2%nat := DictObj (Image "c.jpg") 7 2 0 [] ]})
    as [(h' & ys & Hrun & Hread) _].
  - apply ascending_iter_valid.
  - simpl. repeat (apply NoDup_cons; split; [set_solver|]). apply NoDup_nil_2.
  - repeat constructor.
  - exists h', ys. split; [exact Hrun|]. rewrite Hread. vm_compute.
    reflexivity.
Defined.

Lemma compress_labels_mixed_raises_witness :
  ∃ h',
    compress_labels_st (ascending_iter 0)
      [DictRef 0%nat; TupleVal (Image "b.jpg") 3 1 []]
      {[ 0%nat := DictObj (Image "a.jpg") 7 0 0 [] ]}
    = (h', Raise TypeError).
Proof.
  apply compress_labels_mixed_raises.
  - apply ascending_iter_valid.
  - simpl. apply NoDup_singleton.
  - apply Exists_cons_tl, Exists_cons_hd. done.
Defined.

Lemma compress_labels_shared_object_witness :
  (compress_labels_st (ascending_iter 0) [DictRef 0%nat; DictRef 0%nat]
     {[ 0%nat := DictObj (Image "a.jpg") 7 0 0 [] ]}).2
  = Raise KeyError.
Proof.
  apply compress_labels_shared_object.
  - apply ascending_iter_valid.
  - vm_compute. discriminate.
Defined.

(** ** The classification dataset *)

Section classification_modes.

Variable set_iter : Z → gset Z → list Z.

Implicit Types (annotation : list (string * Z)) (tr : option transform_fn).

Lemma combine_splits_train_only junk t num :
  combine_splits set_iter junk t [] [] num = Ok (t, get_num_pids t).
Proof. unfold combine_splits. simpl. by rewrite !app_nil_r. Qed.

Lemma dataset_init_train_only c junk t tr m ca v :
  dataset_init set_iter c junk t [] [] tr m ca v
  = selected ← select_data m t [] [];
    _ ← (if v then show_summary c else Ok ());
    Ok {| cls := c; junk_pids := junk; train := t; query := [];
          gallery := []; transform := tr; mode := m; combineall := ca;
          verbose := v; num_train_pids := get_num_pids t;
          num_train_cams := get_num_cams t;
          data_counts := get_data_counts t; data := selected |}.
Proof.
  unfold dataset_init. destruct ca; [|done].
  unfold combine_all.
  cbn [junk_pids train query gallery num_train_pids init_self].
  by rewrite combine_splits_train_only.
Qed.

(** What [Classification] holds in each mode.  In mode ['train'] the loaded
    records are the train split and the selected data, and [combineall]
    changes nothing; in mode ['query'] without [combineall] they are the
    query split and the selected data, the train split and the identity
    index being empty; in mode ['gallery'] the annotation is not loaded and
    the dataset is empty. *)
Theorem classification_init_modes annotation dataset_id tr ca v :
  let loaded := classification_records annotation dataset_id in
  (∃ d, classification_init set_iter annotation dataset_id "train" tr ca v
        = Ok d
        ∧ train d = loaded ∧ query d = [] ∧ gallery d = []
        ∧ data d = loaded ∧ num_train_pids d = get_num_pids loaded)
  ∧ (∃ d, classification_init set_iter annotation dataset_id "query" tr
            false v = Ok d
          ∧ train d = [] ∧ query d = loaded ∧ gallery d = []
          ∧ data d = loaded ∧ num_train_pids d = ∅)
  ∧ (∃ d, classification_init set_iter annotation dataset_id "gallery" tr
            ca v = Ok d
          ∧ train d = [] ∧ query d = [] ∧ gallery d = [] ∧ data d = []
          ∧ num_train_pids d = ∅).
Proof.
  intros loaded. unfold classification_init, image_dataset_init.
  split; [|split].
  - rewrite decide_True, decide_False by done. fold loaded.
    rewrite dataset_init_train_only. destruct v; by eexists.
  - rewrite decide_False, decide_True by done. fold loaded.
    destruct v; by eexists.
  - rewrite !decide_False by done.
    rewrite dataset_init_train_only. destruct v; by eexists.
Qed.

Lemma relabel_loop_no_count b idm r data :
  relabel_loop b [] idm ∅ (r :: data) = Raise KeyError.
Proof.
  cbn [relabel_loop]. unfold is_junk. rewrite bool_decide_eq_false_2 by set_solver.
  unfold getitem. rewrite lookup_empty.
  destruct (idm !! rec_dataset_id r) as [labels|]; [|done].
  cbn [mbind result_bind]. by destruct (labels !! rec_obj_id r).
Qed.

Lemma get_num_pids_nil : get_num_pids [] = ∅.
Proof. unfold get_num_pids, parse_data. simpl. apply fmap_empty. Qed.

(** [Classification] in mode ['query'] with [combineall] raises [KeyError]
    as soon as the annotation holds a record: the train split is empty, so
    that [_relabel] finds no count of train identities for the record. *)
Theorem classification_init_query_combineall annotation dataset_id tr v :
  annotation ≠ [] →
  classification_init set_iter annotation dataset_id "query" tr true v
  = Raise KeyError.
Proof.
  intros Hne. destruct annotation as [|[path label] annotation]; [done|].
  unfold classification_init, image_dataset_init, dataset_init, combine_all,
    combine_splits, relabel.
  rewrite decide_False, decide_True by done.
  cbn [junk_pids train query gallery num_train_pids init_self].
  unfold classification_records. rewrite fmap_cons, get_num_pids_nil.
  by rewrite relabel_loop_no_count.
Qed.

(** [Classification] with a mode that is not recognized loads nothing and
    raises [ValueError], with or without [combineall]. *)
Theorem classification_init_invalid_mode annotation dataset_id m tr ca v :
  m ∉ modes →
  classification_init set_iter annotation dataset_id m tr ca v
  = Raise (ValueError (invalid_mode_msg m)).
Proof.
  intros Hm. unfold classification_init, image_dataset_init.
  rewrite !decide_False by (intros ->; apply Hm; unfold modes; set_solver).
  rewrite dataset_init_train_only. by rewrite select_data_invalid.
Qed.

End classification_modes.

Lemma classification_init_query_combineall_witness :
  classification_init ascending_iter [("img/a.jpg", 3)] 2 "query" None true
    false
  = Raise KeyError.
Proof. by apply classification_init_query_combineall. Defined.

Lemma classification_init_invalid_mode_witness :
  classification_init ascending_iter [("img/a.jpg", 3)] 2 "test" None true
    false
  = Raise (ValueError (invalid_mode_msg "test")).
Proof.
  apply classification_init_invalid_mode. unfold modes.
  rewrite !elem_of_cons, elem_of_nil. by intros [?|[?|[?|[]]]].
Defined.

(** ** Helpers of the scripts *)

Section classes_consistency.

Context `{Countable K} {V : Type}.
Variable le : relation K.
Context `{∀ x y, Decision (le x y)}.
Context `{!Total le, !Transitive le, !AntiSymm (=) le}.
Variable keys : gmap K V → list K.

Implicit Types (ref_classes probe_classes : gmap K V).

Lemma elem_of_keys m x : valid_keys keys → x ∈ keys m ↔ x ∈ dom m.
Proof. intros Hv. by rewrite (Hv m), elem_of_elements. Qed.

(** [check_classes_consistency] compares the sets of keys of the two dicts:
    with [strict] it tells whether they are equal, without [strict] whether
    every key of the reference dict is a key of the probe dict.  The values
    of the dicts and the order of their keys play no part, and the test on
    the lengths never changes the answer. *)
Theorem check_classes_consistency_dom ref_classes probe_classes :
  valid_keys keys →
  (check_classes_consistency le keys ref_classes probe_classes true = true
   ↔ dom ref_classes = dom probe_classes)
  ∧ (check_classes_consistency le keys ref_classes probe_classes false = true
     ↔ dom ref_classes ⊆ dom probe_classes).
Proof.
  intros Hv. unfold check_classes_consistency. split.
  - destruct (decide (size ref_classes ≠ size probe_classes)) as [Hne|_].
    + split; [done|]. intros Hdom. destruct Hne.
      by rewrite <- !(size_dom (D := gset K)), Hdom.
    + rewrite bool_decide_eq_true. split.
      * intros Heq. apply set_eq. intros x.
        rewrite <- !(elem_of_keys _ _ Hv).
        rewrite <- (merge_sort_Permutation le (keys ref_classes)),
          <- (merge_sort_Permutation le (keys probe_classes)).
        by rewrite Heq.
      * intros Hdom. apply (Sorted_unique le).
        -- apply (Sorted_merge_sort le).
        -- apply (Sorted_merge_sort le).
        -- by rewrite !merge_sort_Permutation, !(Hv _), Hdom.
  - destruct (decide (size probe_classes < size ref_classes)%nat) as [Hlt|_].
    + split; [done|]. intros Hsub%subseteq_size.
      rewrite !size_dom in Hsub. lia.
    + rewrite forallb_forall. split.
      * intros Hall x Hx. apply (elem_of_keys _ _ Hv), list_elem_of_In in Hx.
        apply Hall, bool_decide_eq_true in Hx. by apply elem_of_dom.
      * intros Hsub x Hx%list_elem_of_In%(elem_of_keys _ _ Hv).
        apply bool_decide_eq_true, elem_of_dom, Hsub, Hx.
Qed.

End classes_consistency.

Lemma check_classes_consistency_dom_witness :
  check_classes_consistency Z.le (λ m : gmap Z nat, elements (dom m))
    {[ 1 := 0%nat; 2 := 1%nat ]} {[ 2 := 0%nat; 1 := 1%nat; 3 := 2%nat ]}
    false = true
  ∧ check_classes_consistency Z.le (λ m : gmap Z nat, elements (dom m))
      {[ 1 := 0%nat; 2 := 1%nat ]} {[ 2 := 0%nat; 1 := 1%nat ]} true = true.
Proof.
  split.
  - apply (check_classes_consistency_dom Z.le (λ m : gmap Z nat, elements (dom m))).
    + by intros m.
    + rewrite !dom_insert_L. set_solver.
  - apply (check_classes_consistency_dom Z.le (λ m : gmap Z nat, elements (dom m))).
    + by intros m.
    + rewrite !dom_insert_L. set_solver.
Defined.

Section command_line.

Implicit Types (settings : list (string * value)) (name : string).

Lemma even_items_opts_of settings :
  even_items (opts_of settings) = (λ kv, VStr kv.1) <$> settings.
Proof.
  unfold opts_of. induction settings as [|kv settings IH]; [done|].
  rewrite bind_cons, fmap_cons. cbn [app even_items]. by rewrite IH.
Qed.

(** On a list of options that alternates keys and values,
    [is_config_parameter_set_from_command_line] tells whether the name is
    one of the keys: a name that occurs among the values only is not
    reported.  Without options the answer is [False]. *)
Theorem is_config_parameter_set_keys settings name :
  is_config_parameter_set_from_command_line (Some (opts_of settings)) name
  = bool_decide (name ∈ settings.*1)
  ∧ is_config_parameter_set_from_command_line None name = false.
Proof.
  split; [|done]. unfold is_config_parameter_set_from_command_line.
  destruct (opts_of settings) as [|x opts] eqn:Hopts.
  - destruct settings; [|done]. symmetry. by apply bool_decide_eq_false_2,
      not_elem_of_nil.
  - rewrite <- Hopts, even_items_opts_of. apply bool_decide_ext.
    rewrite !list_elem_of_fmap. split.
    + intros (kv & [= ->] & Hkv). eauto.
    + intros (kv & -> & Hkv). eauto.
Qed.

End command_line.

(** ** Moving outputs to a device *)

Section moving_outputs.

Variable rejects : Z → string → option exn.

Implicit Types (o : output) (dev : string).

Lemma map_result_cons {A B} (f : A → result B) x l :
  map_result f (x :: l) = y ← f x; ys ← map_result f l; Ok (y :: ys).
Proof. done. Qed.

Lemma map_result_failures {A B} (f : A → result B) (u : A → list exn)
    (l : list A) :
  Forall (λ a, match u a with
               | [] => ∃ b, f a = Ok b
               | e :: _ => f a = Raise e
               end) l →
  match l ≫= u with
  | [] => ∃ l', map_result f l = Ok l'
  | e :: _ => map_result f l = Raise e
  end.
Proof.
  induction 1 as [|a l Ha _ IH]; [by exists []|].
  rewrite bind_cons, map_result_cons.
  destruct (u a) as [|e es].
  - destruct Ha as [b ->]. cbn [app mbind result_bind].
    destruct (l ≫= u) as [|e es].
    + destruct IH as [l' ->]. by exists (b :: l').
    + by rewrite IH.
  - by rewrite Ha.
Qed.

(** [map_device] returns exactly when torch moves every tensor of the output
    to the device and the output holds, at any depth, only tensors, tuples,
    lists and dicts; otherwise it raises the first exception met from left to
    right: the one of torch for a tensor, [ValueError] with the type of the
    object for an object of another type. *)
Theorem map_device_unknown o dev :
  match failures rejects dev o with
  | [] => ∃ o', map_device rejects o dev = Ok o'
  | e :: _ => map_device rejects o dev = Raise e
  end.
Proof.
  induction o as [d p|b items IH|entries IH|t] using output_nested_ind.
  - cbn [failures map_device]. unfold tensor_to.
    destruct (rejects p dev); [done|by eexists].
  - cbn [failures map_device].
    pose proof (map_result_failures (λ o, map_device rejects o dev)
                  (failures rejects dev) items IH) as Hl.
    destruct (items ≫= failures rejects dev) as [|e es].
    + destruct Hl as [l' ->]. by eexists.
    + by rewrite Hl.
  - cbn [failures map_device].
    pose proof (map_result_failures
                  (λ kv : string * output,
                     v ← map_device rejects kv.2 dev; Ok (kv.1, v))
                  (λ kv, failures rejects dev kv.2) entries) as Hl.
    destruct (entries ≫= λ kv, failures rejects dev kv.2) as [|e es].
    + destruct Hl as [l' ->]; [|by eexists].
      eapply Forall_impl; [exact IH|]. intros [k v]. simpl.
      destruct (failures rejects dev v); [|by intros ->].
      intros [b ->]. by eexists.
    + rewrite Hl; [done|].
      eapply Forall_impl; [exact IH|]. intros [k v]. simpl.
      destruct (failures rejects dev v); [|by intros ->].
      intros [b ->]. by eexists.
  - done.
Qed.

Lemma map_result_Forall2 {A B} (f : A → result B) l l' :
  map_result f l = Ok l' → Forall2 (λ x y, f x = Ok y) l l'.
Proof.
  revert l'. induction l as [|x l IH]; intros l'.
  - intros [= <-]. constructor.
  - rewrite map_result_cons. destruct (f x) as [y|] eqn:Hx; [|done].
    cbn [mbind result_bind].
    destruct (map_result f l) as [ys|]; [|done]. intros [= <-].
    constructor; [done|]. by apply IH.
Qed.

Lemma bind_Forall2 {A B C} (t1 : A → list C) (t2 : B → list C) (g : C → C)
    l l' :
  Forall2 (λ x y, t2 y = g <$> t1 x) l l' → l' ≫= t2 = g <$> (l ≫= t1).
Proof.
  induction 1 as [|x y l l' Hxy _ IH]; [done|].
  by rewrite !bind_cons, fmap_app, Hxy, IH.
Qed.

Lemma existsb_Forall2 {A B} (h : B → bool) (l : list A) (l' : list B) :
  Forall2 (λ _ y, h y = false) l l' → existsb h l' = false.
Proof.
  induction 1 as [|x y l l' Hxy _ IH]; [done|]. simpl. by rewrite Hxy, IH.
Qed.

Lemma map_result_Forall2_ext {A B C} (f : A → result C) (f' : B → result C)
    l l' :
  Forall2 (λ x y, f' y = f x) l l' → map_result f' l' = map_result f l.
Proof.
  induction 1 as [|x y l l' Hxy _ IH]; [done|].
  by rewrite !map_result_cons, Hxy, IH.
Qed.

Lemma map_device_moved o dev o' :
  map_device rejects o dev = Ok o' →
  tensors o' = (λ t, (dev, t.2)) <$> tensors o
  ∧ has_tuple o' = false
  ∧ ∀ dev2, map_device rejects o' dev2 = map_device rejects o dev2.
Proof.
  revert o'.
  induction o as [d p|b items IH|entries IH|t] using output_nested_ind;
    intros o'.
  - cbn [map_device]. unfold tensor_to.
    destruct (rejects p dev); [done|]. by intros [= <-].
  - cbn [map_device].
    destruct (map_result _ items) as [l'|] eqn:Hl; [|done]. intros [= <-].
    apply map_result_Forall2 in Hl.
    assert (Forall2 (λ x y,
              tensors y = (λ t, (dev, t.2)) <$> tensors x
              ∧ has_tuple y = false
              ∧ ∀ dev2, map_device rejects y dev2 = map_device rejects x dev2)
              items l')
      as Hall.
    { induction Hl as [|x y l l' Hxy _ IHl]; [constructor|].
      apply Forall_cons in IH as [Hx IH]. constructor; [by apply Hx|].
      by apply IHl. }
    split; [|split].
    + cbn [tensors]. apply bind_Forall2.
      eapply Forall2_impl; [exact Hall|]. by intros x y (? & _).
    + cbn [has_tuple orb]. apply (existsb_Forall2 _ items).
      eapply Forall2_impl; [exact Hall|]. by intros x y (_ & ? & _).
    + intros dev2. cbn [map_device].
      rewrite (map_result_Forall2_ext (λ o, map_device rejects o dev2)
                 (λ o, map_device rejects o dev2) items l'); [done|].
      eapply Forall2_impl; [exact Hall|]. by intros x y (_ & _ & ?).
  - cbn [map_device].
    destruct (map_result _ entries) as [l'|] eqn:Hl; [|done]. intros [= <-].
    apply map_result_Forall2 in Hl.
    assert (Forall2 (λ x y : string * output,
              y.1 = x.1
              ∧ tensors y.2 = (λ t, (dev, t.2)) <$> tensors x.2
              ∧ has_tuple y.2 = false
              ∧ ∀ dev2, map_device rejects y.2 dev2
                        = map_device rejects x.2 dev2) entries l')
      as Hall.
    { induction Hl as [|[k v] y l l' Hxy _ IHl]; [constructor|].
      apply Forall_cons in IH as [Hx IH]. constructor; [|by apply IHl].
      simpl in Hxy, Hx. destruct (map_device rejects v dev) as [v'|]; [|done].
      injection Hxy as <-. split; [done|]. by apply Hx. }
    split; [|split].
    + cbn [tensors]. apply bind_Forall2.
      eapply Forall2_impl; [exact Hall|]. by intros x y (_ & ? & _).
    + cbn [has_tuple]. apply (existsb_Forall2 _ entries).
      eapply Forall2_impl; [exact Hall|]. by intros x y (_ & _ & ? & _).
    + intros dev2. cbn [map_device].
      rewrite (map_result_Forall2_ext
                 (λ kv : string * output,
                    v ← map_device rejects kv.2 dev2; Ok (kv.1, v))
                 (λ kv : string * output,
                    v ← map_device rejects kv.2 dev2; Ok (kv.1, v))
                 entries l');
        [done|].
      eapply Forall2_impl; [exact Hall|].
      intros x y (Hk & _ & _ & Hm). by rewrite Hk, Hm.
  - done.
Qed.

(** Whenever [map_device] returns, the result holds the tensors of the
    output, in their order and with their contents, all on the requested
    device, and holds no tuple (tuples come back as lists).  Moving the
    result again is moving the output: to the same device it gives the
    result back, to another device what the output itself would give. *)
Theorem map_device_moves o dev o' :
  map_device rejects o dev = Ok o' →
  tensors o' = (λ t, (dev, t.2)) <$> tensors o
  ∧ has_tuple o' = false
  ∧ map_device rejects o' dev = Ok o'
  ∧ ∀ dev2, map_device rejects o' dev2 = map_device rejects o dev2.
Proof.
  intros Hrun. destruct (map_device_moved o dev o' Hrun) as (Ht & Hn & Hm).
  split; [done|]. split; [done|]. split; [|done]. by rewrite Hm.
Qed.

End moving_outputs.

Lemma map_device_moves_witness :
  map_device no_ninth_device
    (Sequence true
       [Tensor "cpu" 1;
        Mapping [("logits", Tensor "cuda:1" 2);
                 ("extra", Sequence false [Tensor "cpu" 3])]]) "cuda:0"
  = Ok (Sequence false
          [Tensor "cuda:0" 1;
           Mapping [("logits", Tensor "cuda:0" 2);
                    ("extra", Sequence false [Tensor "cuda:0" 3])]])
  ∧ map_device no_ninth_device
      (Sequence false
         [Tensor "cuda:0" 1;
          Mapping [("logits", Tensor "cuda:0" 2);
                   ("extra", Sequence false [Tensor "cuda:0" 3])]]) "cuda:0"
    = Ok (Sequence false
            [Tensor "cuda:0" 1;
             Mapping [("logits", Tensor "cuda:0" 2);
                      ("extra", Sequence false [Tensor "cuda:0" 3])]]).
Proof.
  assert (map_device no_ninth_device
            (Sequence true
               [Tensor "cpu" 1;
                Mapping [("logits", Tensor "cuda:1" 2);
                         ("extra", Sequence false [Tensor "cpu" 3])]])
            "cuda:0"
          = Ok (Sequence false
                  [Tensor "cuda:0" 1;
                   Mapping [("logits", Tensor "cuda:0" 2);
                            ("extra", Sequence false [Tensor "cuda:0" 3])]]))
    as Hrun by reflexivity.
  split; [exact Hrun|].
  by destruct (map_device_moves no_ninth_device _ _ _ Hrun)
    as (_ & _ & Hagain & _).
Defined.

(** * Addition and sums on the store *)

Section store_addition.

Variable set_iter : Z → gset Z → list Z.

Implicit Types (a b : dataset_obj) (h : heap) (l : loc).
Implicit Types (ut q g : list record).

(** ** The end of [__add__] *)

Lemma build_sum_defined (d : dataset) ut q g :
  sum_defined d ut → ∃ c0, build_sum set_iter d ut q g = Ok c0.
Proof.
  intros [Hm Hfirst]. unfold build_sum.
  destruct ut as [|first ut]; [done|].
  destruct (select_data_valid (mode d) (first :: ut) q g Hm) as [sel Hsel].
  destruct (rec_media first).
  - unfold image_dataset_init. rewrite dataset_init_plain, Hsel. simpl. eauto.
  - destruct Hfirst as [(seq_len & sample_method & ->) [tr Htr]].
    unfold video_dataset_init. rewrite dataset_init_plain, Hsel, Htr. simpl.
    eauto.
Qed.

Lemma build_sum_Ok (d : dataset) ut q g c0 :
  build_sum set_iter d ut q g = Ok c0 →
  sum_defined d ut
  ∧ train c0 = ut ∧ query c0 = q ∧ gallery c0 = g
  ∧ num_train_pids c0 = get_num_pids ut
  ∧ num_train_cams c0 = get_num_cams ut.
Proof.
  unfold build_sum, sum_defined. destruct ut as [|first ut]; [done|].
  assert (∀ cl tr c1,
            dataset_init set_iter cl [] (first :: ut) q g tr (mode d) false
              false = Ok c1 →
            mode d ∈ modes ∧ train c1 = first :: ut ∧ query c1 = q
            ∧ gallery c1 = g
            ∧ num_train_pids c1 = get_num_pids (first :: ut)
            ∧ num_train_cams c1 = get_num_cams (first :: ut)) as Hinit.
  { intros cl tr c1. rewrite dataset_init_plain.
    destruct (decide (mode d ∈ modes)) as [Hm|Hm].
    - destruct (select_data (mode d) _ q g); simpl; [|done].
      by intros [= <-].
    - by rewrite select_data_invalid. }
  destruct (rec_media first).
  - intros (? & ? & ? & ? & ? & ?)%Hinit. done.
  - destruct (cls d) as [| |seq_len sample_method] eqn:Hcls; try done.
    unfold video_dataset_init.
    destruct (dataset_init _ _ _ _ _ _ _ _ _ _) as [c1|] eqn:Hc1; simpl;
      [|done].
    destruct (transform d) as [tr|] eqn:Htr; [|done]. intros [= <-].
    apply Hinit in Hc1 as (? & ? & ? & ? & ? & ?).
    split; [|done]. split; [done|]. split; eauto.
Qed.

Lemma build_sum_IndexError (d : dataset) ut q g :
  build_sum set_iter d ut q g = Raise IndexError ↔ ut = [].
Proof.
  unfold build_sum. destruct ut as [|first ut]; [done|].
  split; [|done]. destruct (rec_media first).
  - unfold image_dataset_init.
    by intros ?%(dataset_init_plain_raises set_iter).
  - destruct (cls d) as [| |seq_len sample_method]; try done.
    unfold video_dataset_init.
    destruct (dataset_init _ _ _ _ _ _ _ _ _ _) as [c1|] eqn:Hc1; simpl.
    + by destruct (transform d).
    + apply (dataset_init_plain_raises set_iter) in Hc1 as ->. done.
Qed.

(** The errors of the end of [__add__] on a list that has a first record:
    those of the constructor and of the read of [self.seq_len]. *)
Lemma build_sum_raises (d : dataset) ut q g e :
  build_sum set_iter d ut q g = Raise e →
  ut = [] ∧ e = IndexError
  ∨ ut ≠ [] ∧ ¬ sum_defined d ut
    ∧ (e = ValueError (invalid_mode_msg (mode d)) ∨ e = AttributeError
       ∨ e = RuntimeError "transform must not be None").
Proof.
  intros Hrun. destruct ut as [|first ut].
  { left. split; [done|]. by injection Hrun as <-. }
  right. split; [done|]. split.
  { intros [c0 Hc0]%(build_sum_defined d (first :: ut) q g). congruence. }
  revert Hrun. unfold build_sum. destruct (rec_media first).
  - unfold image_dataset_init.
    intros ->%(dataset_init_plain_raises set_iter). by left.
  - destruct (cls d) as [| |seq_len sample_method];
      [intros [= <-]; right; by left..|].
    unfold video_dataset_init.
    destruct (dataset_init _ _ _ _ _ _ _ _ _ _) as [c1|] eqn:Hc1; simpl.
    + destruct (transform d); [done|]. intros [= <-]. right. by right.
    + apply (dataset_init_plain_raises set_iter) in Hc1 as ->. intros [= <-]. by left.
Qed.

(** ** The list [updated_train] *)

Lemma deepcopy_records_total memo (xs : list ref_record) h :
  ∃ h1 ys, deepcopy_records memo xs h = (h1, Ok ys) ∧ length ys = length xs.
Proof.
  revert memo h. induction xs as [|[m p c0 rest|l] xs IH]; intros memo h.
  - by exists h, [].
  - destruct (IH memo h) as (h1 & ys & Hrun & Hlen).
    exists h1, (TupleVal m p c0 rest :: ys).
    split; [simpl; unfold mbind, st_bind; by rewrite Hrun|].
    simpl. by rewrite Hlen.
  - simpl. destruct (memo !! l) as [l'|].
    + destruct (IH memo h) as (h1 & ys & Hrun & Hlen).
      exists h1, (DictRef l' :: ys).
      split; [unfold mbind, st_bind; by rewrite Hrun|]. simpl. by rewrite Hlen.
    + unfold mbind, st_bind, get_heap, alloc.
      destruct (IH (<[l := fresh (dom h)]> memo)
                  (<[fresh (dom h) := h !!! l]> h)) as (h1 & ys & Hrun & Hlen).
      exists h1, (DictRef (fresh (dom h)) :: ys).
      rewrite Hrun. split; [done|]. simpl. by rewrite Hlen.
Qed.

Lemma add_loop_st_total (d : dataset) (other acc : list ref_record) h :
  ∃ h' ys, add_loop_st d other acc h = (h', Ok (acc ++ ys))
           ∧ length ys = length other.
Proof.
  revert acc h. induction other as [|x other IH]; intros acc h.
  - exists h, []. by rewrite app_nil_r.
  - cbn [add_loop_st]. unfold mbind at 1, st_bind at 1.
    assert (∃ h1 y, add_step_st d x h = (h1, Ok y)) as (h1 & y & ->).
    { unfold add_step_st, mbind, st_bind, get_heap, set_obj_id, set_cam_id.
      destruct x; simpl; eauto. }
    destruct (IH (acc ++ [y]) h1) as (h' & ys & -> & Hlen).
    exists h', (y :: ys). rewrite <- (assoc_L (++)). split; [done|].
    simpl. by rewrite Hlen.
Qed.

Lemma add_train_st_total (d : dataset) (self_train other_train : list ref_record)
    h :
  ∃ h' updated,
    add_train_st d self_train other_train h = (h', Ok updated)
    ∧ length updated = (length self_train + length other_train)%nat.
Proof.
  unfold add_train_st, deepcopy, mbind, st_bind.
  destruct (deepcopy_records_total ∅ self_train h) as (h1 & ys & -> & Hys).
  destruct (add_loop_st_total d other_train ys h1) as (h' & zs & -> & Hzs).
  exists h', (ys ++ zs). split; [done|]. rewrite length_app. lia.
Qed.

(** What the computation of [updated_train] does when no dict object is
    listed twice in [other.train]: the list holds new copies of the records
    of [self.train] and then the records of [other.train] with their ids
    moved; in the store, only the dict objects of [other.train] change. *)
Lemma add_train_st_spec (d : dataset) (self_train other_train : list ref_record)
    h :
  NoDup (locs other_train) →
  Forall (λ l, l ∈ dom h) (locs self_train ++ locs other_train) →
  ∃ h' updated,
    add_train_st d self_train other_train h = (h', Ok updated)
    ∧ read h' <$> updated
      = (read h <$> self_train) ++ (add_record d <$> (read h <$> other_train))
    ∧ (∀ l, l ∈ dom h → l ∉ locs other_train → h' !! l = h !! l)
    ∧ dom h ⊆ dom h'
    ∧ Forall (λ l, l ∈ dom h') (locs updated).
Proof.
  intros Hnd [Hself Hother]%Forall_app.
  destruct (deepcopy_records_spec self_train ∅ h)
    as (h1 & ys & Hcopy & He & Hread & Hd & Hfresh); [done|done|].
  destruct (add_loop_st_spec d other_train h1 ys Hnd)
    as (h' & zs & Hloop & Hlocs & Hreadz & Hframe & Hdom).
  { eapply Forall_impl; [exact Hother|]. intros l ?. by eapply extends_dom. }
  exists h', (ys ++ zs). split.
  { unfold add_train_st, deepcopy, mbind, st_bind. by rewrite Hcopy. }
  split; [|split; [|split]].
  - rewrite fmap_app, Hreadz. f_equal.
    + rewrite <- Hread. apply read_fmap_ext. intros l Hl.
      rewrite Forall_forall in Hd, Hfresh, Hother.
      rewrite !lookup_total_alt, Hframe; [done|by apply Hd|].
      intros Hin. destruct (Hfresh l Hl) as [Hn|[l0 Hl0]]; [|done].
      by apply Hn, Hother.
    + f_equal. apply read_fmap_ext. intros l Hl.
      rewrite Forall_forall in Hother. by apply extends_total, Hother.
  - intros l Hl Hno. rewrite Hframe; [by apply He| |done].
    by eapply extends_dom.
  - intros l Hl. apply Hdom. by eapply extends_dom.
  - unfold locs. rewrite omap_app. apply Forall_app. split.
    + eapply Forall_impl; [exact Hd|]. intros l Hl. by apply Hdom.
    + fold (locs zs). rewrite Hlocs.
      eapply Forall_impl; [exact Hother|]. intros l Hl.
      apply Hdom. by eapply extends_dom.
Qed.

(** ** [__add__] on the store *)

Lemma add_st_run a b h h1 (updated : list ref_record) :
  add_train_st (attrs a) (train_of a) (train_of b) h = (h1, Ok updated) →
  add_st set_iter a b h
  = (h1, match build_sum set_iter (attrs a) (read h1 <$> updated)
                 (read h1 <$> query_of a) (read h1 <$> gallery_of a) with
         | Ok c0 => Ok (DatasetObj c0 updated (query_of a) (gallery_of a))
         | Raise e => Raise e
         end).
Proof.
  intros Hrun. unfold add_st, mbind, st_bind, get_heap, lift. rewrite Hrun.
  by destruct (build_sum _ _ _ _ _).
Qed.

Lemma rec_media_add_record (d : dataset) r :
  rec_media (add_record d r) = rec_media r.
Proof. by destruct r. Qed.

Lemma sum_defined_shifted (d d' : dataset) (data1 data2 : list record) :
  sum_defined d (data1 ++ (add_record d' <$> data2))
  ↔ sum_defined d (data1 ++ data2).
Proof.
  unfold sum_defined. destruct data1 as [|r1 data1]; [|done].
  destruct data2 as [|r2 data2]; [done|]. simpl.
  by rewrite rec_media_add_record.
Qed.

(** Whenever [a + b] returns and no dict object is listed twice in
    [b.train]: what the result holds and what has happened to the store. *)
Lemma add_st_Ok a b h h' (c : dataset_obj) :
  NoDup (locs (train_of b)) →
  Forall (λ l, l ∈ dom h) (locs (train_of a) ++ locs (train_of b)) →
  add_st set_iter a b h = (h', Ok c) →
  train_in h' c = train_in h a ++ (add_record (attrs a) <$> train_in h b)
  ∧ train (attrs c) = train_in h' c
  ∧ num_train_pids (attrs c) = get_num_pids (train_in h' c)
  ∧ num_train_cams (attrs c) = get_num_cams (train_in h' c)
  ∧ (∀ l, l ∈ dom h → l ∉ locs (train_of b) → h' !! l = h !! l)
  ∧ dom h ⊆ dom h'
  ∧ Forall (λ l, l ∈ dom h') (locs (train_of c)).
Proof.
  intros Hnd Hdom Hadd.
  destruct (add_train_st_spec (attrs a) (train_of a) (train_of b) h Hnd Hdom)
    as (h1 & updated & Hrun & Hread & Hframe & Hsub & Hin).
  rewrite (add_st_run a b h h1 updated Hrun) in Hadd.
  destruct (build_sum _ _ _ _ _) as [c0|] eqn:Hc0; [|done].
  injection Hadd as <- <-.
  apply build_sum_Ok in Hc0 as (_ & Ht & _ & _ & Hp & Hc).
  unfold train_in. simpl. by rewrite Ht.
Qed.

Lemma stored_cams_default (d : dataset) (data1 : list record) k :
  num_train_cams d = get_num_cams data1 →
  default 0%nat (num_train_cams d !! k) = distinct_count rec_cam_id k data1.
Proof.
  intros ->. rewrite get_num_cams_lookup. case_bool_decide as Hin; [done|].
  simpl. apply filter_nil_not_elem in Hin. unfold distinct_count.
  by rewrite Hin.
Qed.

Lemma distinct_count_absent (f : record → Z) k (data1 : list record) :
  k ∉ rec_dataset_id <$> data1 → distinct_count f k data1 = 0%nat.
Proof.
  intros Hin%filter_nil_not_elem. unfold distinct_count. by rewrite Hin.
Qed.

(** C2 (amended): let [a] hold the identity and the camera index of its
    train split, let no dict object be listed twice in [b.train], and let the
    end of [__add__] be defined on the combined list (a recognized mode, a
    first record, and for tracklets a [VideoDataset] with a transform); the
    store holds the objects of both train splits.  Then [a + b] returns a
    dataset whose train split is the records of [a.train] followed by every
    record of [b.train] with the number of distinct identities that [a.train]
    has under the dataset id of the record added to its identity id, and the
    number of distinct cameras that [a.train] has under that dataset id
    added to its camera id; the dataset id of a record is the one the
    bookkeeping reads, 0 for a tuple.  Both numbers are 0 for a dataset id
    that no record of [a.train] has. *)
Theorem add_offsets_train a b h :
  indexed_in h a →
  NoDup (locs (train_of b)) →
  Forall (λ l, l ∈ dom h) (locs (train_of a) ++ locs (train_of b)) →
  sum_defined (attrs a) (train_in h a ++ train_in h b) →
  ∃ h' (c : dataset_obj),
    add_st set_iter a b h = (h', Ok c)
    ∧ train_in h' c
      = train_in h a
        ++ ((λ r, offset_record
                    (Z.of_nat (distinct_count rec_obj_id (rec_dataset_id r)
                                 (train_in h a)))
                    (Z.of_nat (distinct_count rec_cam_id (rec_dataset_id r)
                                 (train_in h a))) r)
              <$> train_in h b)
    ∧ train (attrs c) = train_in h' c
    ∧ ∀ k, k ∉ rec_dataset_id <$> train_in h a →
           distinct_count rec_obj_id k (train_in h a) = 0%nat
           ∧ distinct_count rec_cam_id k (train_in h a) = 0%nat.
Proof.
  intros [Hp Hc] Hnd Hdom Hdef.
  destruct (add_train_st_spec (attrs a) (train_of a) (train_of b) h Hnd Hdom)
    as (h1 & updated & Hrun & Hread & _).
  apply (sum_defined_shifted _ (attrs a)) in Hdef.
  fold (train_in h a) (train_in h b) in Hread. rewrite <- Hread in Hdef.
  destruct (build_sum_defined (attrs a) (read h1 <$> updated)
              (read h1 <$> query_of a) (read h1 <$> gallery_of a) Hdef)
    as [c0 Hc0].
  exists h1, (DatasetObj c0 updated (query_of a) (gallery_of a)).
  split; [by rewrite (add_st_run a b h h1 updated Hrun), Hc0|].
  apply build_sum_Ok in Hc0 as (_ & Ht & _).
  split; [|split; [done|]].
  - unfold train_in at 1. simpl. rewrite Hread. f_equal.
    apply list_fmap_ext. intros i r _.
    by rewrite add_record_offset, (stored_pids_default _ (train_in h a)),
      (stored_cams_default _ (train_in h a)).
  - intros k Hk. split; by apply distinct_count_absent.
Qed.

(** C8 (amended): [a + b] raises [IndexError], the error of reading the
    first record of an empty list, exactly when the train splits of [a] and
    of [b] are both empty.  When only the train split of [b] is empty, the
    addition returns a dataset whose train split is a copy of the one of [a]
    (new objects with the same entries) if the mode of [a] is recognized
    and, when the first record of [a.train] is a tracklet, [a] is a
    [VideoDataset] with a transform; if not, it raises the [ValueError] of
    the mode, the [AttributeError] of the missing [seq_len] or the
    [RuntimeError] of the missing transform. *)
Theorem add_empty_train a b h :
  ((add_st set_iter a b h).2 = Raise IndexError
   ↔ train_of a = [] ∧ train_of b = [])
  ∧ (train_of b = [] → train_of a ≠ [] →
     Forall (λ l, l ∈ dom h) (locs (train_of a)) →
     (sum_defined (attrs a) (train_in h a) →
      ∃ h' (c : dataset_obj),
        add_st set_iter a b h = (h', Ok c)
        ∧ train_in h' c = train_in h a
        ∧ train (attrs c) = train_in h a
        ∧ Forall (λ l, l ∉ dom h) (locs (train_of c)))
     ∧ (¬ sum_defined (attrs a) (train_in h a) →
        ∃ e, (add_st set_iter a b h).2 = Raise e
             ∧ (e = ValueError (invalid_mode_msg (mode (attrs a)))
                ∨ e = AttributeError
                ∨ e = RuntimeError "transform must not be None"))).
Proof.
  split.
  - destruct (add_train_st_total (attrs a) (train_of a) (train_of b) h)
      as (h1 & updated & Hrun & Hlen).
    rewrite (add_st_run a b h h1 updated Hrun). simpl.
    assert (read h1 <$> updated = [] ↔ train_of a = [] ∧ train_of b = [])
      as <-.
    { rewrite <- !length_zero_iff_nil, length_fmap, Hlen. lia. }
    rewrite <- (build_sum_IndexError (attrs a) (read h1 <$> updated)
                  (read h1 <$> query_of a) (read h1 <$> gallery_of a)).
    destruct (build_sum _ _ _ _ _); split; congruence.
  - intros Hb Ha Hdom.
    destruct (deepcopy_records_spec (train_of a) ∅ h)
      as (h1 & ys & Hcopy & He & Hread & Hd & Hfresh); [done|done|].
    assert (add_train_st (attrs a) (train_of a) (train_of b) h = (h1, Ok ys))
      as Hrun.
    { unfold add_train_st, deepcopy, mbind, st_bind. by rewrite Hcopy, Hb. }
    rewrite (add_st_run a b h h1 ys Hrun), Hread.
    fold (train_in h a). split.
    + intros Hdef.
      destruct (build_sum_defined (attrs a) (train_in h a)
                  (read h1 <$> query_of a) (read h1 <$> gallery_of a) Hdef)
        as [c0 Hc0].
      rewrite Hc0. eexists h1, _. split; [done|].
      apply build_sum_Ok in Hc0 as (_ & Ht & _).
      unfold train_in at 1. simpl. split; [done|]. split; [done|].
      eapply Forall_impl; [exact Hfresh|]. intros l [Hl|[l0 Hl0]]; [done|].
      by rewrite lookup_empty in Hl0.
    + intros Hno. simpl.
      destruct (build_sum _ _ _ _ _) as [c0|e] eqn:Hc0.
      { by apply build_sum_Ok in Hc0 as (? & _). }
      exists e. split; [done|].
      apply build_sum_raises in Hc0 as [[Hnil _]|(_ & _ & He')]; [|done].
      destruct Ha. apply fmap_nil_inv in Hnil. done.
Qed.


(** ** [sum] on the store *)

Lemma train_in_frame h h' (d : dataset_obj) :
  (∀ l, l ∈ locs (train_of d) → h' !! l = h !! l) →
  train_in h' d = train_in h d.
Proof.
  intros Hsame. apply read_fmap_ext. intros l Hl.
  by rewrite !lookup_total_alt, Hsame.
Qed.

Lemma sum_loop_dense (l : list dataset_obj) : ∀ (acc : dataset_obj) h h' c,
  num_train_pids (attrs acc) = get_num_pids (train_in h acc) →
  dense_ids (train_in h acc) →
  Forall (λ l0, l0 ∈ dom h) (locs (train_of acc)) →
  NoDup (train_locs l) →
  Forall (λ l0, l0 ∈ dom h) (train_locs l) →
  Forall (λ d, dense_ids (train_in h d)) l →
  sum_loop_st set_iter (Other acc) l h = (h', Ok (Other c)) →
  dense_ids (train_in h' c)
  ∧ ∀ k, distinct_count rec_obj_id k (train_in h' c)
         = (distinct_count rec_obj_id k (train_in h acc)
            + sum_list ((λ d, distinct_count rec_obj_id k (train_in h d))
                          <$> l))%nat.
Proof.
  induction l as [|d l IH]; intros acc h h' c Hp Ha Hacc Hnd Hdom Hl.
  - intros [= <- <-]. split; [done|]. intros k. simpl. lia.
  - unfold train_locs in Hnd, Hdom. rewrite bind_cons in Hnd, Hdom.
    fold (train_locs l) in Hnd, Hdom.
    apply NoDup_app in Hnd as (Hnd_d & Hdisj & Hnd_l).
    apply Forall_app in Hdom as [Hdom_d Hdom_l].
    apply Forall_cons in Hl as [Hd Hl].
    cbn [sum_loop_st sum_step_st]. unfold mbind, st_bind.
    destruct (add_st set_iter acc d h) as [h1 [c1|e]] eqn:Hadd; [|done].
    simpl. intros Hrun.
    assert (Forall (λ l0, l0 ∈ dom h)
              (locs (train_of acc) ++ locs (train_of d))) as Hboth
      by (by apply Forall_app).
    destruct (add_st_Ok acc d h h1 c1 Hnd_d Hboth Hadd)
      as (Ht & _ & Hp1 & _ & Hframe & Hsub & Hin1).
    destruct (shifted_dense (attrs acc) (train_in h acc) (train_in h d)
                Hp Ha Hd) as [Hdense Hcount].
    rewrite <- Ht in Hdense, Hcount.
    assert (∀ d', d' ∈ l → train_in h1 d' = train_in h d') as Hsame.
    { intros d' Hd'. apply train_in_frame. intros l0 Hl0.
      assert (l0 ∈ train_locs l) as Hl0'.
      { unfold train_locs. apply list_elem_of_bind. eauto. }
      apply Hframe.
      - rewrite Forall_forall in Hdom_l. by apply Hdom_l.
      - intros Hin. by apply (Hdisj l0). }
    destruct (IH c1 h1 h' c Hp1 Hdense Hin1 Hnd_l) as [Hc Hk].
    + eapply Forall_impl; [exact Hdom_l|]. intros l0 Hl0. by apply Hsub.
    + apply Forall_forall. intros d' Hd'. rewrite (Hsame d' Hd').
      rewrite Forall_forall in Hl. by apply Hl.
    + exact Hrun.
    + split; [done|]. intros k. rewrite Hk, Hcount, <- Nat.add_assoc.
      do 3 f_equal.
      apply list_fmap_ext. intros i d' Hd'%list_elem_of_lookup_2.
      by rewrite (Hsame d' Hd').
Qed.


End store_addition.

(** ** Addition on the example datasets of the store *)

Lemma six_dicts_heap_dom l :
  l ∈ [0; 1; 2; 3; 4; 5]%nat → l ∈ dom six_dicts_heap.
Proof.
  intros Hl. apply elem_of_dom.
  repeat (apply elem_of_cons in Hl as [->|Hl]; [vm_compute; eauto|]).
  by apply elem_of_nil in Hl.
Qed.

Lemma five_one_in_heap :
  Forall (λ l, l ∈ dom six_dicts_heap)
    (locs (train_of five_ids_obj) ++ locs (train_of one_id_obj)).
Proof.
  apply Forall_forall. intros l Hl. apply six_dicts_heap_dom. exact Hl.
Qed.

Lemma five_ids_obj_dense :
  dense_ids (train_in six_dicts_heap five_ids_obj).
Proof.
  change (train_in six_dicts_heap five_ids_obj) with five_ids_train.
  unfold five_ids_train. dense_ids_by_cases.
Qed.

Lemma one_id_obj_dense : dense_ids (train_in six_dicts_heap one_id_obj).
Proof.
  change (train_in six_dicts_heap one_id_obj) with one_id_train.
  unfold one_id_train. dense_ids_by_cases.
Qed.

Lemma add_offsets_train_witness :
  distinct_count rec_obj_id 0 (train_in six_dicts_heap five_ids_obj) = 5%nat
  ∧ ∃ h' c, add_st ascending_iter five_ids_obj one_id_obj six_dicts_heap
            = (h', Ok c)
            ∧ train_in h' c
              = five_ids_train ++ [Dict (Image "b0.jpg") 5 2 0 []].
Proof.
  split; [reflexivity|].
  destruct (add_offsets_train ascending_iter five_ids_obj one_id_obj
              six_dicts_heap) as (h' & c & Hadd & Ht & _).
  - split; reflexivity.
  - apply NoDup_singleton.
  - apply five_one_in_heap.
  - split; [unfold modes; simpl; left|exact I].
  - exists h', c. split; [exact Hadd|]. rewrite Ht. reflexivity.
Defined.

(** Counterexample to C2 as stated: a dataset constructed with [combineall]
    from a train split of one camera and a query and a gallery record of two
    other cameras has three cameras in its train split, but holds the camera
    count 1 of the train split it was given, which [combine_all] does not
    compute again.  A record of identity 0 and camera 0 added to it gets the
    identity 0 + 3 and the camera 0 + 1, the camera of the second record of
    the train split, where the claim has the camera count 3 added. *)
Lemma add_stale_camera_count :
  ∃ a0,
    dataset_init ascending_iter ImageDataset [] one_camera_train
      second_camera_query third_camera_gallery None "train" true false
    = Ok a0
    ∧ train a0 = read ∅ <$> merged_cameras_refs
    ∧ distinct_count rec_cam_id 0 (train a0) = 3%nat
    ∧ num_train_cams a0 !! 0 = Some 1%nat
    ∧ ∃ c, add_st ascending_iter
             (DatasetObj a0 merged_cameras_refs
                [TupleVal (Image "q.jpg") 1 1 []]
                [TupleVal (Image "g.jpg") 2 2 []])
             one_tuple_obj ∅
           = (∅, Ok c)
           ∧ train_in ∅ c = train a0 ++ [Tuple (Image "x.jpg") 3 1 []].
Proof.
  eexists. split; [vm_compute; reflexivity|].
  split; [reflexivity|]. split; [reflexivity|]. split; [reflexivity|].
  eexists. split; [vm_compute; reflexivity|]. reflexivity.
Qed.

(** The same dict object listed twice in [b.train] is moved twice: with five
    identities and two cameras in [a.train], the record of identity 0 and
    camera 0 ends with identity 10 and camera 4, and both places of the
    result hold it. *)
Lemma add_shared_record_moved_twice :
  ∃ h' c, add_st ascending_iter five_ids_obj twice_one_id_obj six_dicts_heap
          = (h', Ok c)
          ∧ train_in h' c
            = five_ids_train
              ++ [Dict (Image "b0.jpg") 10 4 0 [];
                  Dict (Image "b0.jpg") 10 4 0 []].
Proof. eexists _, _. split; [vm_compute; reflexivity|]. reflexivity. Qed.

(** Counterexample to C8 as stated: the train split of [b] is empty, the one
    of [a] is not, and [a + b] returns a dataset, with the records of the
    train split of [a]. *)
Lemma add_empty_train_returns :
  train_of query_only_obj = []
  ∧ ∃ h' c, add_st ascending_iter one_id_obj query_only_obj six_dicts_heap
            = (h', Ok c)
            ∧ train_in h' c = one_id_train.
Proof.
  split; [reflexivity|]. eexists _, _.
  split; [vm_compute; reflexivity|]. reflexivity.
Qed.

Lemma add_empty_train_witness :
  (add_st ascending_iter query_only_obj query_only_obj six_dicts_heap).2
  = Raise IndexError
  ∧ (∃ h' c, add_st ascending_iter one_id_obj query_only_obj six_dicts_heap
             = (h', Ok c)
             ∧ train_in h' c = one_id_train)
  ∧ ∃ e, (add_st ascending_iter tracklets_as_images_obj query_only_obj ∅).2
         = Raise e.
Proof.
  destruct (add_empty_train ascending_iter query_only_obj query_only_obj
              six_dicts_heap) as [Herr _].
  destruct (add_empty_train ascending_iter one_id_obj query_only_obj
              six_dicts_heap) as [_ Hret].
  destruct (add_empty_train ascending_iter tracklets_as_images_obj
              query_only_obj ∅) as [_ Hraise].
  split; [by apply Herr|]. split.
  - destruct Hret as [Hret _]; [reflexivity|done| |].
    { apply Forall_forall. intros l Hl. apply six_dicts_heap_dom.
      simpl in Hl. set_solver. }
    destruct Hret as (h' & c & Hadd & Ht & _).
    { split; [unfold modes; simpl; left|exact I]. }
    exists h', c. split; [exact Hadd|]. rewrite Ht. reflexivity.
  - destruct Hraise as [_ Hraise]; [reflexivity|done|constructor|].
    destruct Hraise as (e & He & _).
    { intros [_ [(seq_len & sample_method & Hcls) _]]. discriminate Hcls. }
    by exists e.
Defined.



(** A dataset that occurs twice in a sum is added twice as it is after the
    first addition, which has moved its dict records: the last record of the
    sum of [five_ids_obj], [one_id_obj] and [one_id_obj] has identity 11,
    not 6. *)
Lemma sum_same_dataset_twice :
  ∃ h' c, py_sum_st ascending_iter [five_ids_obj; one_id_obj; one_id_obj]
            six_dicts_heap
          = (h', Ok (Other c))
          ∧ rec_obj_id <$> train_in h' c = [0; 1; 2; 3; 4; 5; 11].
Proof. eexists _, _. split; [vm_compute; reflexivity|]. reflexivity. Qed.

(** * Tuple records are keyed under dataset id 0 *)

Section tuple_splits.

Implicit Types (ts : list (media * Z * Z * list value)) (d p : Z).

Lemma filter_tuples ts d :
  filter (λ r, rec_dataset_id r = d) (tuple_of <$> ts)
  = if decide (d = 0) then tuple_of <$> ts else [].
Proof.
  induction ts as [|t ts IH]; [by destruct (decide _)|].
  rewrite fmap_cons, filter_cons, IH. simpl.
  destruct (decide (0 = d)) as [<-|Hne].
  - by rewrite decide_True.
  - by rewrite !decide_False by (by intros ->).
Qed.

Lemma tuple_obj_ids ts : rec_obj_id <$> (tuple_of <$> ts) = tuple_pid <$> ts.
Proof. rewrite <- list_fmap_compose. by apply list_fmap_ext. Qed.

Lemma tuple_cam_ids ts : rec_cam_id <$> (tuple_of <$> ts) = tuple_cam <$> ts.
Proof. rewrite <- list_fmap_compose. by apply list_fmap_ext. Qed.

Lemma tuple_dataset_ids ts d :
  d ∈ rec_dataset_id <$> (tuple_of <$> ts) ↔ d = 0 ∧ ts ≠ [].
Proof.
  rewrite <- list_fmap_compose, list_elem_of_fmap. split.
  - intros (t & -> & Ht). split; [done|]. intros ->.
    by apply elem_of_nil in Ht.
  - intros [-> Hne]. destruct ts as [|t ts]; [done|]. exists t.
    split; [done|]. by left.
Qed.

Lemma tuple_survivors junk ts :
  survivors junk (tuple_of <$> ts)
  = tuple_of <$> filter (λ t, tuple_pid t ∉ junk) ts.
Proof.
  unfold survivors. induction ts as [|t ts IH]; [done|].
  rewrite fmap_cons, !filter_cons, IH. simpl.
  fold (tuple_pid t). by destruct (decide (tuple_pid t ∉ junk)).
Qed.

Lemma filter_tuple_pids (junk : list Z) ts :
  tuple_pid <$> filter (λ t, tuple_pid t ∉ junk) ts
  = filter (λ x, x ∉ junk) (tuple_pid <$> ts).
Proof.
  induction ts as [|t ts IH]; [done|].
  rewrite fmap_cons, !filter_cons.
  destruct (decide (tuple_pid t ∉ junk)); by rewrite ?fmap_cons, IH.
Qed.

Lemma tuple_occurrences ts d p :
  occurrences d p (tuple_of <$> ts)
  = if decide (d = 0) then length (filter (λ x, x = p) (tuple_pid <$> ts))
    else 0%nat.
Proof.
  unfold occurrences. induction ts as [|t ts IH]; [by destruct (decide _)|].
  rewrite !fmap_cons, !filter_cons. simpl. fold (tuple_pid t).
  destruct (decide (d = 0)) as [->|Hne].
  - destruct (decide (tuple_pid t = p)).
    + rewrite decide_True by done. simpl. by rewrite IH.
    + rewrite decide_False by (by intros [_ ?]). by rewrite IH.
  - rewrite decide_False; [done|]. intros [? _]. by apply Hne.
Qed.

Lemma add_loop_st_tuples (a : dataset) ts (acc : list ref_record) (h : heap) :
  add_loop_st a (tuple_ref <$> ts) acc h
  = (h, Ok (acc
            ++ ((λ t, TupleVal t.1.1.1
                        (tuple_pid t
                         + Z.of_nat (default 0%nat (num_train_pids a !! 0)))
                        (tuple_cam t
                         + Z.of_nat (default 0%nat (num_train_cams a !! 0)))
                        t.2) <$> ts))).
Proof.
  revert acc. induction ts as [|t ts IH]; intros acc.
  - simpl. by rewrite app_nil_r.
  - rewrite !fmap_cons. cbn [add_loop_st]. unfold mbind at 1, st_bind at 1.
    unfold add_step_st, tuple_ref at 1, mbind at 1, st_bind at 1, get_heap.
    simpl. rewrite IH, <- (assoc_L (++)). done.
Qed.

(** C10: on a split of tuple records, whatever the tuples hold from
    position 3 on, the indexer has one key, 0, with the number of distinct
    identities and of distinct cameras of the whole split; the item counter
    counts each identity under the key 0; the collector of identities puts
    every identity that is not junk under the key 0; and the loop of the
    addition moves every tuple by the counts that the left dataset holds
    under the key 0.  None of the results mentions the items from position
    3 on. *)
Theorem tuple_records_keyed_under_zero ts :
  let data := tuple_of <$> ts in
  let pids := tuple_pid <$> ts in
  let cams := tuple_cam <$> ts in
  (∀ d, (parse_data data).1 !! d
        = if decide (d = 0 ∧ ts ≠ [])
          then Some (size (list_to_set pids : gset Z)) else None)
  ∧ (∀ d, (parse_data data).2 !! d
          = if decide (d = 0 ∧ ts ≠ [])
            then Some (size (list_to_set cams : gset Z)) else None)
  ∧ (∀ d p, get_data_counts data !! d ≫= (.!! p)
            = if decide (d = 0 ∧ p ∈ pids)
              then Some (length (filter (λ x, x = p) pids)) else None)
  ∧ (∀ junk d, get_obj_ids data junk ∅ !! d
               = if decide (d = 0 ∧ filter (λ x, x ∉ junk) pids ≠ [])
                 then Some (list_to_set (filter (λ x, x ∉ junk) pids))
                 else None)
  ∧ (∀ (a : dataset) self_train (h : heap),
       ∃ h1 copies,
         deepcopy self_train h = (h1, Ok copies)
         ∧ add_train_st a self_train (tuple_ref <$> ts) h
           = (h1, Ok (copies
                      ++ ((λ t, TupleVal t.1.1.1
                                  (tuple_pid t
                                   + Z.of_nat (default 0%nat
                                                 (num_train_pids a !! 0)))
                                  (tuple_cam t
                                   + Z.of_nat (default 0%nat
                                                 (num_train_cams a !! 0)))
                                  t.2) <$> ts)))).
Proof.
  intros data pids cams. split; [|split; [|split; [|split]]].
  - intros d. change ((parse_data data).1) with (get_num_pids data).
    rewrite get_num_pids_lookup. unfold data.
    destruct (decide (d = 0 ∧ ts ≠ [])) as [[-> Hne]|Hno].
    + rewrite bool_decide_eq_true_2 by (by apply tuple_dataset_ids).
      f_equal. rewrite <- size_ids_of. unfold ids_of.
      by rewrite filter_tuples, decide_True, tuple_obj_ids.
    + rewrite bool_decide_eq_false_2; [done|]. by rewrite tuple_dataset_ids.
  - intros d. change ((parse_data data).2) with (get_num_cams data).
    rewrite get_num_cams_lookup. unfold data.
    destruct (decide (d = 0 ∧ ts ≠ [])) as [[-> Hne]|Hno].
    + rewrite bool_decide_eq_true_2 by (by apply tuple_dataset_ids).
      f_equal. rewrite <- size_ids_of. unfold ids_of.
      by rewrite filter_tuples, decide_True, tuple_cam_ids.
    + rewrite bool_decide_eq_false_2; [done|]. by rewrite tuple_dataset_ids.
  - intros d p. unfold get_data_counts.
    rewrite foldl_count_step_lookup, lookup_empty. simpl.
    unfold data. rewrite tuple_occurrences. fold pids.
    destruct (decide (d = 0)) as [->|Hne].
    + destruct (decide (0 = 0 ∧ p ∈ pids)) as [[_ Hin]|Hno].
      * rewrite decide_False; [done|]. intros Hlen%nil_length_inv.
        assert (p ∈ filter (λ x, x = p) pids) as Hp
          by (by apply list_elem_of_filter).
        rewrite Hlen in Hp. by apply elem_of_nil in Hp.
      * rewrite decide_True; [done|].
        destruct (filter (λ x, x = p) pids) as [|x l] eqn:Hf; [done|].
        assert (x ∈ filter (λ x, x = p) pids) as [-> Hx]%list_elem_of_filter
          by (rewrite Hf; left).
        by destruct Hno.
    + rewrite decide_True by done. rewrite decide_False; [done|].
      by intros [? _].
  - intros junk d. rewrite get_obj_ids_survivors, fold_set_add_lookup.
    rewrite lookup_empty. simpl. unfold data.
    rewrite tuple_survivors, filter_tuples.
    destruct (decide (d = 0)) as [->|Hne].
    + rewrite tuple_obj_ids, (filter_tuple_pids junk). fold pids.
      rewrite union_empty_l_L.
      destruct (decide (0 = 0 ∧ filter (λ x, x ∉ junk) pids ≠ []))
        as [[_ Hnn]|Hno].
      * rewrite decide_False; [done|]. intros Hnil%fmap_nil_inv.
        apply Hnn. unfold pids.
        by rewrite <- (filter_tuple_pids junk), Hnil.
      * rewrite decide_True; [done|].
        destruct (decide (filter (λ x, x ∉ junk) pids = [])) as [Hnil|Hnn];
          [|by destruct Hno].
        unfold pids in Hnil.
        rewrite <- (filter_tuple_pids junk) in Hnil.
        apply fmap_nil_inv in Hnil. by rewrite Hnil.
    + rewrite decide_True by done. rewrite decide_False; [done|].
      by intros [? _].
  - intros a self_train h.
    destruct (deepcopy_records_total ∅ self_train h) as (h1 & ys & Hcopy & _).
    exists h1, ys. split; [done|].
    unfold add_train_st, mbind, st_bind. unfold deepcopy in *.
    by rewrite Hcopy, add_loop_st_tuples.
Qed.

End tuple_splits.
